(** * Email verification engine: a shallow embedding of [emailVerifier.js]

    The first part follows the source file top to bottom: the static
    tables, [levenshteinDistance], [validateEmailSyntax], [getMXRecords],
    [tryPort], [verifyWithSMTP], [interpretSMTPCode], [suggestCorrection],
    [verifyEmail] and [getDidYouMean].  The second part holds the notions
    the properties are stated with, the third part the properties.

    What lies outside the program is an environment [Env] of one call: the
    answer of the DNS resolver, the outcome of each SMTP probe ([tryPort])
    together with the order in which the probes of a server resolve, and
    the clock.  Exceptions, rejected promises and promises that never
    settle are explicit results ([Completion]); a call that leaves its
    promise pending for ever is [Pending].

    JavaScript strings are sequences of UTF-16 code units.  They are
    embedded as [string], one [ascii] per code unit, which covers the code
    units below 256; every character the source inspects ([@], [.], the
    classes of the address grammar, white space) lies in that range. *)

From Stdlib Require Import ZArith NArith Bool Ascii String DecimalString
  Sorted.
From stdpp Require Import base numbers option list strings.

Local Open Scope string_scope.
Local Open Scope list_scope.

(** ** Strings *)

Module Str.

(** White space as [String.prototype.trim] sees it, restricted to code
    units below 256: TAB, LF, VT, FF, CR, SPACE and NBSP. *)
Definition is_space (c : ascii) : bool :=
  let n := nat_of_ascii c in
  (n =? 9)%nat || (n =? 10)%nat || (n =? 11)%nat || (n =? 12)%nat
  || (n =? 13)%nat || (n =? 32)%nat || (n =? 160)%nat.

Fixpoint trimStart (s : string) : string :=
  match s with
  | EmptyString => EmptyString
  | String c s' => if is_space c then trimStart s' else s
  end.

Fixpoint trimEnd (s : string) : string :=
  match s with
  | EmptyString => EmptyString
  | String c s' =>
      match trimEnd s' with
      | EmptyString => if is_space c then EmptyString else String c EmptyString
      | t => String c t
      end
  end.

(** [s.trim()] *)
Definition trim (s : string) : string := trimEnd (trimStart s).

(** [(s.match(/c/g) || []).length]: the number of occurrences of [c]. *)
Fixpoint count (c : ascii) (s : string) : nat :=
  match s with
  | EmptyString => 0
  | String d s' => (if Ascii.eqb d c then 1 else 0) + count c s'
  end.

(** [s.includes(c)] for a one-character needle. *)
Definition includes_char (c : ascii) (s : string) : bool :=
  negb (count c s =? 0)%nat.

(** [s.split(c)] for a one-character separator: the first piece and the
    pieces after it.  [split] never returns an empty array. *)
Fixpoint split (c : ascii) (s : string) : string * list string :=
  match s with
  | EmptyString => (EmptyString, [])
  | String d s' =>
      let '(hd, tl) := split c s' in
      if Ascii.eqb d c then (EmptyString, hd :: tl) else (String d hd, tl)
  end.

(** [s.startsWith(".")], [s.endsWith(".")], [s.includes("..")] *)
Definition startsWith_char (c : ascii) (s : string) : bool :=
  match s with
  | String d _ => Ascii.eqb d c
  | EmptyString => false
  end.

Fixpoint endsWith_char (c : ascii) (s : string) : bool :=
  match s with
  | EmptyString => false
  | String d EmptyString => Ascii.eqb d c
  | String _ s' => endsWith_char c s'
  end.

Fixpoint includes_twice (c : ascii) (s : string) : bool :=
  match s with
  | String d ((String e _) as s') =>
      (Ascii.eqb d c && Ascii.eqb e c) || includes_twice c s'
  | _ => false
  end.

(** [s.toLowerCase()] on code units below 256: the ASCII capitals and the
    Latin-1 capitals (0xC0..0xDE except the multiplication sign 0xD7). *)
Definition lower_char (c : ascii) : ascii :=
  let n := nat_of_ascii c in
  if ((65 <=? n)%nat && (n <=? 90)%nat)
     || ((192 <=? n)%nat && (n <=? 222)%nat && negb (n =? 215)%nat)
  then ascii_of_nat (n + 32) else c.

Fixpoint toLowerCase (s : string) : string :=
  match s with
  | EmptyString => EmptyString
  | String c s' => String (lower_char c) (toLowerCase s')
  end.

(** A number inside a template literal: its decimal digits. *)
Definition of_nat (n : nat) : string := NilZero.string_of_uint (Nat.to_uint n).
Definition of_N (n : N) : string := NilZero.string_of_uint (N.to_uint n).

(** A JavaScript string is truthy when it is not empty. *)
Definition truthy (s : string) : bool :=
  match s with EmptyString => false | _ => true end.

End Str.

(** ** [levenshteinDistance]

    The source fills a [(str2.length + 1) x (str1.length + 1)] array of
    arrays in place; [matrix[j][i]] is row [j], column [i]. *)

Abbreviation Matrix := (list (list nat)).

(** [matrix[j][i]].  Every read of the source is in range. *)
Definition mget (m : Matrix) (j i : nat) : nat :=
  default 0 (m !! j ≫= (.!! i)).

(** [matrix[j][i] = v].  Every write of the source is in range. *)
Definition mset (m : Matrix) (j i v : nat) : Matrix :=
  match m !! j with
  | Some row => <[j := <[i := v]> row]> m
  | None => m
  end.

(** [for (let k = from; k <= to; k++) body], threading the matrix. *)
Definition for_range (from count : nat) (body : Matrix → nat → Matrix)
    (m : Matrix) : Matrix :=
  foldl body m (seq from count).

Definition min3 (a b c : nat) : nat := Nat.min (Nat.min a b) c.

Definition levenshteinDistance (str1 str2 : string) : nat :=
  let len1 := String.length str1 in
  let len2 := String.length str2 in
  let matrix : Matrix := replicate (S len2) (replicate (S len1) 0) in
  let matrix := for_range 0 (S len1) (λ m i, mset m 0 i i) matrix in
  let matrix := for_range 0 (S len2) (λ m j, mset m j 0 j) matrix in
  let matrix :=
    for_range 1 len2 (λ m j,
      for_range 1 len1 (λ m i,
        let indicator :=
          if bool_decide (String.get (i - 1) str1 = String.get (j - 1) str2)
          then 0 else 1 in
        mset m j i
          (min3 (mget m j (i - 1) + 1)
                (mget m (j - 1) i + 1)
                (mget m (j - 1) (i - 1) + indicator))) m) matrix in
  mget matrix len2 len1.

(** ** JavaScript values reaching the entry points

    The exported functions are called with arbitrary values.  Of an object
    only its [trim] property matters to the code: [verifyEmail] evaluates
    [email?.trim?.()] before anything else. *)

Inductive TrimProperty :=
| TrimMissing                    (* no [trim] property, or a nullish one *)
| TrimNotCallable                (* a [trim] property that is not a function *)
| TrimReturns (s : string)       (* a [trim] method returning a string *)
| TrimThrows (msg : string).     (* a [trim] method that throws *)

Inductive JsValue :=
| JUndefined
| JNull
| JBool (b : bool)
| JNumber (n : Z)
| JNaN
| JString (s : string)
| JObject (trim : TrimProperty).

(** [!v] is false exactly on truthy values. *)
Definition js_truthy (v : JsValue) : bool :=
  match v with
  | JUndefined | JNull | JNaN => false
  | JBool b => b
  | JNumber n => negb (n =? 0)%Z
  | JString s => Str.truthy s
  | JObject _ => true
  end.

(** What evaluating an expression or awaiting a promise can do: produce a
    value, throw (reject), or never settle. *)
Inductive Completion (A : Type) :=
| Returns (a : A)
| Throws (msg : string)
| Pending.
Arguments Returns {A} a.
Arguments Throws {A} msg.
Arguments Pending {A}.

(** ** Static tables *)

(** [COMMON_TYPOS], in the insertion order [Object.entries] iterates. *)
Definition COMMON_TYPOS : list (string * string) :=
  [ ("gmial.com", "gmail.com");
    ("gmai.com", "gmail.com");
    ("gmil.com", "gmail.com");
    ("gmail.co", "gmail.com");
    ("gmail.cm", "gmail.com");
    ("ymail.com", "gmail.com");
    ("yahooo.com", "yahoo.com");
    ("yaho.com", "yahoo.com");
    ("yahoo.co", "yahoo.com");
    ("hotmial.com", "hotmail.com");
    ("hotmail.co", "hotmail.com");
    ("hotmil.com", "hotmail.com");
    ("outlok.com", "outlook.com");
    ("outlook.co", "outlook.com");
    ("outloo.com", "outlook.com");
    ("outlook.cm", "outlook.com");
    ("goggle.com", "google.com");
    ("icloud.cm", "icloud.com");
    ("protonmail.co", "protonmail.com");
    ("aol.com", "aol.com") ].

(** [COMMON_TYPOS] is an object literal, so [COMMON_TYPOS[key]] also finds
    what [Object.prototype] provides.  Each entry gives the property name
    and the text the value takes inside a template literal. *)
Definition OBJECT_PROTOTYPE : list (string * string) :=
  [ ("constructor", "function Object() { [native code] }");
    ("__defineGetter__", "function __defineGetter__() { [native code] }");
    ("__defineSetter__", "function __defineSetter__() { [native code] }");
    ("hasOwnProperty", "function hasOwnProperty() { [native code] }");
    ("__lookupGetter__", "function __lookupGetter__() { [native code] }");
    ("__lookupSetter__", "function __lookupSetter__() { [native code] }");
    ("isPrototypeOf", "function isPrototypeOf() { [native code] }");
    ("propertyIsEnumerable",
     "function propertyIsEnumerable() { [native code] }");
    ("toString", "function toString() { [native code] }");
    ("valueOf", "function valueOf() { [native code] }");
    ("__proto__", "[object Object]");
    ("toLocaleString", "function toLocaleString() { [native code] }") ].

Fixpoint assoc (key : string) (table : list (string * string))
    : option string :=
  match table with
  | [] => None
  | (k, v) :: rest => if String.eqb k key then Some v else assoc key rest
  end.

(** The value of a property read. *)
Inductive Property :=
| OwnString (s : string)         (* an entry of the table *)
| Inherited (text : string)      (* a function or object of the prototype *)
| Undefined.

(** [COMMON_TYPOS[domain]] *)
Definition COMMON_TYPOS_get (domain : string) : Property :=
  match assoc domain COMMON_TYPOS with
  | Some correct => OwnString correct
  | None =>
      match assoc domain OBJECT_PROTOTYPE with
      | Some text => Inherited text
      | None => Undefined
      end
  end.

Definition property_truthy (p : Property) : bool :=
  match p with
  | OwnString s => Str.truthy s
  | Inherited _ => true
  | Undefined => false
  end.

(** The property inside a template literal. *)
Definition property_text (p : Property) : string :=
  match p with
  | OwnString s => s
  | Inherited text => text
  | Undefined => "undefined"
  end.

Definition DISPOSABLE_DOMAINS : list string :=
  [ "mailinator.com"; "10minutemail.com"; "guerrillamail.com";
    "temp-mail.org"; "dropmail.me"; "yopmail.com"; "trashmail.com";
    "dispostable.com"; "getnada.com"; "maildrop.cc" ].

Definition ROLE_ACCOUNTS : list string :=
  [ "admin"; "administrator"; "support"; "info"; "sales"; "billing";
    "help"; "contact"; "webmaster"; "sysadmin"; "postmaster";
    "hostmaster"; "root"; "hr"; "jobs"; "office"; "marketing" ].

(** [set.has(x)] *)
Definition set_has (set : list string) (x : string) : bool :=
  existsb (String.eqb x) set.

(** ** Regular expressions

    [STRICT_EMAIL_REGEX] is anchored at both ends and has neither captures
    nor look-around, so [regex.test(s)] asks whether the whole of [s] is in
    the language of the expression.  The matcher decides that with
    derivatives. *)

Module Regex.

Inductive t :=
| Fail                            (* matches nothing *)
| Eps                             (* matches the empty string *)
| Class (p : ascii → bool)        (* one character of a class *)
| Seq (r1 r2 : t)
| Alt (r1 r2 : t)
| Star (r : t)
| UpTo (n : nat) (r : t).         (* r{0,n} *)

Definition Opt (r : t) : t := Alt r Eps.       (* (?:r)? *)
Definition Plus (r : t) : t := Seq r (Star r). (* r+ *)

Fixpoint nullable (r : t) : bool :=
  match r with
  | Fail => false
  | Eps => true
  | Class _ => false
  | Seq r1 r2 => nullable r1 && nullable r2
  | Alt r1 r2 => nullable r1 || nullable r2
  | Star _ => true
  | UpTo _ _ => true
  end.

Definition seq' (r1 r2 : t) : t :=
  match r1, r2 with
  | Fail, _ => Fail
  | _, Fail => Fail
  | Eps, _ => r2
  | _, _ => Seq r1 r2
  end.

Definition alt' (r1 r2 : t) : t :=
  match r1, r2 with
  | Fail, _ => r2
  | _, Fail => r1
  | _, _ => Alt r1 r2
  end.

Fixpoint deriv (c : ascii) (r : t) : t :=
  match r with
  | Fail => Fail
  | Eps => Fail
  | Class p => if p c then Eps else Fail
  | Seq r1 r2 =>
      alt' (seq' (deriv c r1) r2) (if nullable r1 then deriv c r2 else Fail)
  | Alt r1 r2 => alt' (deriv c r1) (deriv c r2)
  | Star r1 => seq' (deriv c r1) (Star r1)
  | UpTo n r1 =>
      match n with
      | O => Fail
      | S k => seq' (deriv c r1) (UpTo k r1)
      end
  end.

Fixpoint test (r : t) (s : string) : bool :=
  match s with
  | EmptyString => nullable r
  | String c s' => test (deriv c r) s'
  end.

Definition in_range (lo hi : string) (c : ascii) : bool :=
  match lo, hi with
  | String l _, String h _ =>
      (nat_of_ascii l <=? nat_of_ascii c)%nat
      && (nat_of_ascii c <=? nat_of_ascii h)%nat
  | _, _ => false
  end.

Definition one_of (chars : string) (c : ascii) : bool :=
  negb (Str.count c chars =? 0)%nat.

End Regex.

(** [[a-zA-Z0-9]] *)
Definition alnum (c : ascii) : bool :=
  Regex.in_range "a" "z" c || Regex.in_range "A" "Z" c
  || Regex.in_range "0" "9" c.

(** [[a-zA-Z0-9-]] *)
Definition alnum_hyphen (c : ascii) : bool :=
  alnum c || Regex.one_of "-" c.

(** [[a-zA-Z0-9.!#$%&'*+/=?^_`{|}~-]] *)
Definition local_char (c : ascii) : bool :=
  alnum c || Regex.one_of ".!#$%&'*+/=?^_`{|}~-" c.

(** [[a-zA-Z0-9](?:[a-zA-Z0-9-]{0,61}[a-zA-Z0-9])?] *)
Definition label_regex : Regex.t :=
  Regex.Seq (Regex.Class alnum)
    (Regex.Opt (Regex.Seq (Regex.UpTo 61 (Regex.Class alnum_hyphen))
                          (Regex.Class alnum))).

Definition STRICT_EMAIL_REGEX : Regex.t :=
  Regex.Seq (Regex.Plus (Regex.Class local_char))
    (Regex.Seq (Regex.Class (Regex.one_of "@"))
      (Regex.Seq label_regex
        (Regex.Star (Regex.Seq (Regex.Class (Regex.one_of ".")) label_regex)))).

(** ** [validateEmailSyntax] *)

(** The verdict [{ valid: false, error }] or [{ valid: true }]. *)
Inductive SyntaxValidation :=
| Valid
| Invalid (error : string).

Definition is_valid (v : SyntaxValidation) : bool :=
  match v with Valid => true | Invalid _ => false end.

(** [`Email must contain exactly one @ symbol (found ${atCount})`] *)
Definition at_count_message (atCount : nat) : string :=
  "Email must contain exactly one @ symbol (found "
  +:+ Str.of_nat atCount +:+ ")".

Definition validateEmailSyntax (email : JsValue) : SyntaxValidation :=
  if negb (js_truthy email) then Invalid "Email is empty"
  else
    match email with
    | JString email =>
        let email := Str.trim email in
        if (254 <? String.length email)%nat then
          Invalid "Email exceeds maximum length (254 characters)"
        else
          let atCount := Str.count "@" email in
          if negb (atCount =? 1)%nat then
            Invalid (at_count_message atCount)
          else if negb (Regex.test STRICT_EMAIL_REGEX email) then
            Invalid "Email format is invalid"
          else
            let '(localPart, rest) := Str.split "@" email in
            let domain := default EmptyString (head rest) in
            if (64 <? String.length localPart)%nat then
              Invalid "Local part exceeds maximum length (64 characters)"
            else if Str.startsWith_char "." localPart
                    || Str.endsWith_char "." localPart then
              Invalid "Local part cannot start or end with a dot"
            else if Str.includes_twice "." localPart then
              Invalid "Local part cannot contain consecutive dots"
            else if negb (Str.includes_char "." domain) then
              Invalid "Domain must contain at least one dot"
            else Valid
    | _ => Invalid "Email must be a string"
    end.

(** ** [getMXRecords] *)

Record MxRecord := {
  exchange : string;
  priority : Z;
}.

(** What [dns.resolveMx(domain)] settles to. *)
Inductive DnsAnswer :=
| DnsRecords (records : list MxRecord)
| DnsNothing                      (* a falsy answer *)
| DnsFailure (msg : string).      (* rejected with [Error(msg)] *)

(** [records.sort((a, b) => a.priority - b.priority)]: the sort is stable. *)
Fixpoint insert_by_priority (x : MxRecord) (sorted : list MxRecord)
    : list MxRecord :=
  match sorted with
  | [] => [x]
  | y :: rest =>
      if (priority x <=? priority y)%Z then x :: sorted
      else y :: insert_by_priority x rest
  end.

Definition sort_by_priority (records : list MxRecord) : list MxRecord :=
  foldr insert_by_priority [] records.

Definition getMXRecords (resolveMx : string → DnsAnswer) (domain : string)
    : Completion (list string) :=
  match resolveMx domain with
  | DnsRecords mxRecords =>
      if (length mxRecords =? 0)%nat then Returns []
      else Returns (map exchange (sort_by_priority mxRecords))
  | DnsNothing => Returns []
  | DnsFailure msg =>
      Throws ("DNS lookup failed for " +:+ domain +:+ ": " +:+ msg)
  end.

(** ** [verifyWithSMTP]

    [tryPort] resolves, for one port, to a probe outcome (its promise
    rejects only when [net.createConnection] throws, see [SmtpRun]); its
    [responseCode] is 0 or a status code the dialogue read (250 or
    400..599), hence a natural number.  The three probes of a server run
    concurrently: the order in which they resolve is chosen by the network,
    and [verifyWithSMTP] reacts to each one as it resolves. *)

Module Probe.
Record t := {
  success : bool;
  responseCode : N;
  message : string;
  port : N;
}.
End Probe.

(** ** [tryPort]

    One SMTP dialogue on one port.  The socket and the timer deliver
    events; each event runs a handler, and the first handler that calls
    [resolve] settles the promise.  The events of a run are chosen by the
    network. *)

Module Text.

(** [s.substring(0, n)] *)
Fixpoint take (n : nat) (s : string) : string :=
  match n, s with
  | S k, String c s' => String c (take k s')
  | _, _ => EmptyString
  end.

Fixpoint startsWith (needle s : string) : bool :=
  match needle, s with
  | EmptyString, _ => true
  | String c needle', String d s' => Ascii.eqb c d && startsWith needle' s'
  | String _ _, EmptyString => false
  end.

(** [s.includes(needle)] *)
Fixpoint includes (needle s : string) : bool :=
  startsWith needle s
  || match s with
     | EmptyString => false
     | String _ s' => includes needle s'
     end.

(** The value of a digit in the given radix, if it is one. *)
Definition digit (radix : Z) (c : ascii) : option Z :=
  let n := Z.of_nat (nat_of_ascii c) in
  let v :=
    if ((48 <=? n) && (n <=? 57))%Z then Some (n - 48)%Z
    else if ((97 <=? n) && (n <=? 122))%Z then Some (n - 87)%Z
    else if ((65 <=? n) && (n <=? 90))%Z then Some (n - 55)%Z
    else None in
  match v with
  | Some d => if (d <? radix)%Z then Some d else None
  | None => None
  end.

(** The longest prefix of digits, read as a number; [acc] is [None] until
    a digit was read. *)
Fixpoint digits (radix : Z) (acc : option Z) (s : string) : option Z :=
  match s with
  | EmptyString => acc
  | String c s' =>
      match digit radix c with
      | Some d => digits radix (Some (default 0 acc * radix + d)%Z) s'
      | None => acc
      end
  end.

(** [parseInt(s)] without a radix; [None] is [NaN]. *)
Definition parseInt (s : string) : option Z :=
  let s := Str.trimStart s in
  let '(sign, s) :=
    match s with
    | String "-" rest => ((-1)%Z, rest)
    | String "+" rest => (1%Z, rest)
    | _ => (1%Z, s)
    end in
  let '(radix, s) :=
    match s with
    | String "0" (String "x" rest) => (16%Z, rest)
    | String "0" (String "X" rest) => (16%Z, rest)
    | _ => (10%Z, s)
    end in
  Z.mul sign <$> digits radix None s.

(** Carriage return, line feed. *)
Definition CRLF : string :=
  String (ascii_of_nat 13) (String (ascii_of_nat 10) EmptyString).

End Text.

Inductive SocketEvent :=
| OnData (data : string)          (* ["data"], with [data.toString()] *)
| OnEnd                           (* ["end"] *)
| OnError (msg : string)          (* ["error"], with [error.message] *)
| OnTimer.                        (* the [setTimeout] callback *)

Module Session.
Record t := {
  responseCode : N;
  responseMessage : string;
  written : list string;          (* the [socket.write] calls, in order *)
  ended : bool;                   (* [socket.end()] was called *)
  destroyed : bool;               (* [socket.destroy()] was called *)
  timerCleared : bool;            (* [clearTimeout(timeoutId)] was called *)
  outcome : option Probe.t;       (* what the promise resolved to *)
}.
End Session.

Definition session_start : Session.t :=
  {| Session.responseCode := 0; Session.responseMessage := EmptyString;
     Session.written := []; Session.ended := false;
     Session.destroyed := false; Session.timerCleared := false;
     Session.outcome := None |}.

(** [resolve(o)]: only the first call settles the promise. *)
Definition resolve (st : Session.t) (o : Probe.t) : Session.t :=
  {| Session.responseCode := Session.responseCode st;
     Session.responseMessage := Session.responseMessage st;
     Session.written := Session.written st;
     Session.ended := Session.ended st;
     Session.destroyed := Session.destroyed st;
     Session.timerCleared := Session.timerCleared st;
     Session.outcome :=
       match Session.outcome st with
       | Some o0 => Some o0
       | None => Some o
       end |}.

(** [socket.write(line)] *)
Definition write (st : Session.t) (line : string) : Session.t :=
  {| Session.responseCode := Session.responseCode st;
     Session.responseMessage := Session.responseMessage st;
     Session.written := Session.written st ++ [line];
     Session.ended := Session.ended st;
     Session.destroyed := Session.destroyed st;
     Session.timerCleared := Session.timerCleared st;
     Session.outcome := Session.outcome st |}.

(** [responseCode = code; responseMessage = response] *)
Definition record_reply (st : Session.t) (code : N) (response : string)
    : Session.t :=
  {| Session.responseCode := code;
     Session.responseMessage := response;
     Session.written := Session.written st;
     Session.ended := Session.ended st;
     Session.destroyed := Session.destroyed st;
     Session.timerCleared := Session.timerCleared st;
     Session.outcome := Session.outcome st |}.

Definition set_flags (st : Session.t) (ended destroyed cleared : bool)
    : Session.t :=
  {| Session.responseCode := Session.responseCode st;
     Session.responseMessage := Session.responseMessage st;
     Session.written := Session.written st;
     Session.ended := ended;
     Session.destroyed := destroyed;
     Session.timerCleared := cleared;
     Session.outcome := Session.outcome st |}.

(** The lines the dialogue sends. *)
Definition QUIT : string := "QUIT" +:+ Text.CRLF.
Definition EHLO : string := "EHLO verify.local" +:+ Text.CRLF.
Definition MAIL_FROM : string :=
  "MAIL FROM:<verify@verify.local>" +:+ Text.CRLF.
Definition RCPT_TO (email : string) : string :=
  "RCPT TO:<" +:+ email +:+ ">" +:+ Text.CRLF.

(** [socket.on("data", ...)] *)
Definition on_data (email : string) (st : Session.t) (data : string)
    : Session.t :=
  let response := Str.trim data in
  let code := Text.parseInt (Text.take 3 response) in
  match code with
  | None => st                    (* every comparison with [NaN] fails *)
  | Some code =>
      if (code =? 220)%Z then write st EHLO
      else if (code =? 250)%Z then
        if Text.includes "EHLO" response || Text.includes "HELO" response
        then write st MAIL_FROM
        else if Text.includes "MAIL FROM" response
        then write st (RCPT_TO email)
        else if Text.includes "RCPT TO" response
        then write (record_reply st (Z.to_N code) response) QUIT
        else st
      else if ((400 <=? code) && (code <? 600))%Z then
        write (record_reply st (Z.to_N code) response) QUIT
      else if (code =? 221)%Z then
        set_flags st true (Session.destroyed st) (Session.timerCleared st)
      else st
  end.

(** [socket.on("end", ...)] *)
Definition on_end (port : N) (st : Session.t) : Session.t :=
  let st := set_flags st (Session.ended st) (Session.destroyed st) true in
  let responseCode := Session.responseCode st in
  resolve st
    {| Probe.success := ((250 <=? responseCode) && (responseCode <? 300))%N;
       Probe.responseCode := responseCode;
       Probe.message := Session.responseMessage st;
       Probe.port := port |}.

(** [socket.on("error", ...)] *)
Definition on_error (port : N) (st : Session.t) (msg : string) : Session.t :=
  let st := set_flags st (Session.ended st) (Session.destroyed st) true in
  resolve st
    {| Probe.success := false; Probe.responseCode := 0;
       Probe.message := "Port " +:+ Str.of_N port +:+ ": " +:+ msg;
       Probe.port := port |}.

(** The [setTimeout] callback; it does not run once the timer is
    cleared. *)
Definition on_timer (port : N) (st : Session.t) : Session.t :=
  if Session.timerCleared st then st
  else
    let st := set_flags st (Session.ended st) true (Session.timerCleared st) in
    resolve st
      {| Probe.success := false; Probe.responseCode := 0;
         Probe.message := "Port " +:+ Str.of_N port +:+ ": timeout";
         Probe.port := port |}.

Definition on_event (email : string) (port : N) (st : Session.t)
    (e : SocketEvent) : Session.t :=
  match e with
  | OnData data => on_data email st data
  | OnEnd => on_end port st
  | OnError msg => on_error port st msg
  | OnTimer => on_timer port st
  end.

(** The dialogue after the events of a run. *)
Definition session (email : string) (port : N) (events : list SocketEvent)
    : Session.t :=
  foldl (on_event email port) session_start events.

(** The promise [tryPort] returns. *)
Inductive ProbePromise :=
| Resolved (outcome : Probe.t)
| Rejected                        (* the executor threw *)
| Waiting.                        (* not settled *)

(** [tryPort(email, mxServer, port, timeout)], given the events the socket
    and the timer deliver.  [net.createConnection] validates its [timeout]
    option and throws when it is negative; that is inside the executor of
    the promise, so the promise rejects, and neither the timer nor a
    handler is set up. *)
Definition tryPort (email mxServer : string) (port : N) (timeout : Z)
    (events : list SocketEvent) : ProbePromise :=
  if (timeout <? 0)%Z then Rejected
  else
    match Session.outcome (session email port events) with
    | Some outcome => Resolved outcome
    | None => Waiting
    end.

(** ** The race of [verifyWithSMTP] *)

Module Verdict.
Record t := {
  success : bool;
  responseCode : N;
  message : string;
  port : N;
  allPortsBlocked : bool;
  lastError : option Probe.t;     (* only set when all ports finished *)
}.
End Verdict.

(** [{ ...result, allPortsBlocked: false }] *)
Definition verdict_of_winner (result : Probe.t) : Verdict.t :=
  {| Verdict.success := Probe.success result;
     Verdict.responseCode := Probe.responseCode result;
     Verdict.message := Probe.message result;
     Verdict.port := Probe.port result;
     Verdict.allPortsBlocked := false;
     Verdict.lastError := None |}.

(** The variables the [then] callbacks share, and the promise they settle. *)
Record RaceState := {
  pending : Z;
  resolved : bool;
  results : list Probe.t;
  settled : option Verdict.t;
}.

Definition ports : list N := [25; 587; 465]%N.

Definition race_start : RaceState :=
  {| pending := Z.of_nat (length ports); resolved := false;
     results := []; settled := None |}.

(** [mainResolve(v)]: only the first call settles the promise. *)
Definition mainResolve (st : option Verdict.t) (v : Verdict.t)
    : option Verdict.t :=
  match st with
  | Some v0 => Some v0
  | None => Some v
  end.

Definition is_definitive (code : N) : bool :=
  ((550 <=? code) && (code <? 600))%N.

(** The callback run when one probe resolves with [result]. *)
Definition on_probe (st : RaceState) (result : Probe.t) : RaceState :=
  if resolved st then st
  else
    let results := results st ++ [result] in
    let pending := (pending st - 1)%Z in
    if Probe.success result then
      {| pending := pending; resolved := true; results := results;
         settled := mainResolve (settled st) (verdict_of_winner result) |}
    else if is_definitive (Probe.responseCode result) then
      {| pending := pending; resolved := true; results := results;
         settled := mainResolve (settled st) (verdict_of_winner result) |}
    else if (pending =? 0)%Z then
      (* [results] holds at least [result], so [results[0]] exists *)
      let bestResult :=
        match find (λ r, (0 <? Probe.responseCode r)%N) results with
        | Some r => r
        | None => default result (head results)
        end in
      let allBlocked :=
        forallb (λ r, (Probe.responseCode r =? 0)%N) results in
      {| pending := pending; resolved := resolved st; results := results;
         settled := mainResolve (settled st)
           {| Verdict.success := Probe.success bestResult;
              Verdict.responseCode := Probe.responseCode bestResult;
              Verdict.message :=
                if allBlocked then "All SMTP ports blocked"
                else Probe.message bestResult;
              Verdict.port := Probe.port bestResult;
              Verdict.allPortsBlocked := allBlocked;
              Verdict.lastError := Some bestResult |} |}
    else
      {| pending := pending; resolved := resolved st; results := results;
         settled := settled st |}.

(** [verifyWithSMTP], given the probe outcomes in the order they resolve;
    [None] when the promise is left unsettled. *)
Definition verifyWithSMTP (finished : list Probe.t) : option Verdict.t :=
  settled (foldl on_probe race_start finished).

(** ** [interpretSMTPCode] *)

Definition interpretSMTPCode (code : N) : string :=
  if (code =? 0)%N then "connection_error"
  else if ((250 <=? code) && (code <? 300))%N then "mailbox_exists"
  else if ((code =? 550) || (code =? 551) || (code =? 553))%N then
    "mailbox_does_not_exist"
  else if ((code =? 450) || (code =? 451) || (code =? 452))%N then
    "greylisted"
  else if (code =? 421)%N then "service_unavailable"
  else if ((code =? 500) || (code =? 501) || (code =? 502)
           || (code =? 503) || (code =? 504))%N then "smtp_error"
  else "unknown_response".

(** ** [suggestCorrection] *)

Record Suggestion := {
  suggested : string;
  distance : nat;
}.

(** The state of the fuzzy-matching loop. *)
Record Best := {
  bestMatch : option Suggestion;
  bestDistance : nat;
}.

(** One iteration of [for (const [typo, correct] of Object.entries(...))].
    The distance function is a parameter, so that one can say which
    results are obtained without consulting it. *)
Definition fuzzy_step (dist : string → string → nat)
    (localPart domain : string) (st : Best) (entry : string * string)
    : Best :=
  let '(typo, correct) := entry in
  let distance := dist domain typo in
  if (distance <=? bestDistance st)%nat && negb (String.eqb correct domain)
  then {| bestDistance := distance;
          bestMatch := Some {| suggested := localPart +:+ "@" +:+ correct;
                               distance := distance |} |}
  else st.

Definition fuzzy_scan (dist : string → string → nat)
    (table : list (string * string)) (localPart domain : string) : Best :=
  foldl (fuzzy_step dist localPart domain)
        {| bestMatch := None; bestDistance := 2 |} table.

(** [const [localPart, domain] = email.split("@")] for a string that
    contains [@]: the first two pieces. *)
Definition split_email (email : string) : option (string * string) :=
  match Str.split "@" email with
  | (localPart, domain :: _) => Some (localPart, domain)
  | (_, []) => None
  end.

Definition suggestCorrection_with (dist : string → string → nat)
    (email : JsValue) : option Suggestion :=
  match email with
  | JString email =>
      if negb (Str.truthy email) || negb (Str.includes_char "@" email)
      then None
      else
        match split_email email with
        | None => None            (* excluded by [includes("@")] *)
        | Some (localPart, domain) =>
            let entry := COMMON_TYPOS_get domain in
            if property_truthy entry then
              Some {| suggested := localPart +:+ "@" +:+ property_text entry;
                      distance := 0 |}
            else bestMatch (fuzzy_scan dist COMMON_TYPOS localPart domain)
        end
  | _ => None                     (* falsy, or not a string *)
  end.

Definition suggestCorrection : JsValue → option Suggestion :=
  suggestCorrection_with levenshteinDistance.

(** ** [getDidYouMean] *)

Definition getDidYouMean (email : JsValue) : option string :=
  match email with
  | JString s =>
      if negb (Str.truthy s) then None
      else suggested <$> suggestCorrection (JString (Str.trim s))
  | _ => None
  end.

(** ** [verifyEmail] *)

Record VerificationOptions := {
  checkMX : bool;
  checkSMTP : bool;
  timeout : Z;
  maxAttempts : Z;
}.

(** [options = {}] *)
Definition default_options : VerificationOptions :=
  {| checkMX := true; checkSMTP := true; timeout := 2500; maxAttempts := 2 |}.

Module Step.
Record t := {
  valid : option bool;            (* [true], [false] or [null] *)
  message : string;
}.
End Step.

Record Steps := {
  syntax : Step.t;
  mx : Step.t;
  smtp : Step.t;
}.

Record VerificationResult := {
  email : string;
  result : string;
  resultcode : Z;
  subresult : string;
  domain : string;
  mxRecords : list string;
  executiontime : Z;
  error : option string;
  timestamp : string;
  didyoumean : option string;
  smtpBlocked : bool;
  smtpChecked : bool;
  verificationMethod : string;
  disposable : bool;
  roleBased : bool;
  steps : Steps;
}.

(** What [await verifyWithSMTP(...)] meets.  [verifyWithSMTP] never
    rejects: its executor only starts the probes and registers callbacks.

    A [tryPort] promise resolves when its socket ends or fails, at the
    latest when its timer fires, so the three probes of a server resolve
    in some order: [Raced].  With a negative [timeout], however,
    [net.createConnection] throws inside the executor of each [tryPort]
    promise, before the timer is set: the three promises reject, no [then]
    callback of [verifyWithSMTP] runs, [mainResolve] is never called and
    the awaited promise stays pending: [Unsettled]. *)
Inductive SmtpRun :=
| Raced (first second third : Probe.t)
| Unsettled.

(** The collaborators of one call: the resolver, the network and the
    clock. *)
Record Env := {
  resolveMx : string → DnsAnswer;
  (** attempt index, address, mail exchanger, timeout: the outcomes of the
      three probes, in the order in which they resolve *)
  probes : nat → string → string → Z → Probe.t * Probe.t * Probe.t;
  startTime : Z;                  (* [Date.now()] on entry *)
  endTime : Z;                    (* [Date.now()] before returning *)
  isoTime : string;               (* [new Date().toISOString()] *)
}.

(** [verifyWithSMTP(address, mxServer, timeout)] as the server loop meets
    it at attempt [i]. *)
Definition smtpRun (env : Env) (i : nat) (address mxServer : string)
    (timeout : Z) : SmtpRun :=
  if (timeout <? 0)%Z then Unsettled
  else
    let '(first, second, third) := probes env i address mxServer timeout in
    Raced first second third.

(** [Math.round((Date.now() - startTime) / 1000)] *)
Definition elapsed_seconds (env : Env) : Z :=
  ((endTime env - startTime env + 500) / 1000)%Z.

(** Assignments to the result object. *)
Definition set_outcome (r : VerificationResult)
    (res : string) (code : Z) (sub : string) : VerificationResult :=
  {| email := email r; result := res; resultcode := code;
     subresult := sub; domain := domain r; mxRecords := mxRecords r;
     executiontime := executiontime r; error := error r;
     timestamp := timestamp r; didyoumean := didyoumean r;
     smtpBlocked := smtpBlocked r; smtpChecked := smtpChecked r;
     verificationMethod := verificationMethod r;
     disposable := disposable r; roleBased := roleBased r;
     steps := steps r |}.

Definition set_subresult (r : VerificationResult)
    (sub : string) : VerificationResult :=
  set_outcome r (result r) (resultcode r) sub.

Definition set_error (r : VerificationResult)
    (e : option string) : VerificationResult :=
  {| email := email r; result := result r; resultcode := resultcode r;
     subresult := subresult r; domain := domain r;
     mxRecords := mxRecords r; executiontime := executiontime r;
     error := e; timestamp := timestamp r; didyoumean := didyoumean r;
     smtpBlocked := smtpBlocked r; smtpChecked := smtpChecked r;
     verificationMethod := verificationMethod r;
     disposable := disposable r; roleBased := roleBased r;
     steps := steps r |}.

Definition set_verificationMethod (r : VerificationResult)
    (m : string) : VerificationResult :=
  {| email := email r; result := result r; resultcode := resultcode r;
     subresult := subresult r; domain := domain r;
     mxRecords := mxRecords r; executiontime := executiontime r;
     error := error r; timestamp := timestamp r;
     didyoumean := didyoumean r; smtpBlocked := smtpBlocked r;
     smtpChecked := smtpChecked r; verificationMethod := m;
     disposable := disposable r; roleBased := roleBased r;
     steps := steps r |}.

Definition set_steps (r : VerificationResult)
    (s : Steps) : VerificationResult :=
  {| email := email r; result := result r; resultcode := resultcode r;
     subresult := subresult r; domain := domain r;
     mxRecords := mxRecords r; executiontime := executiontime r;
     error := error r; timestamp := timestamp r;
     didyoumean := didyoumean r; smtpBlocked := smtpBlocked r;
     smtpChecked := smtpChecked r;
     verificationMethod := verificationMethod r;
     disposable := disposable r; roleBased := roleBased r; steps := s |}.

Definition set_steps_syntax (r : VerificationResult)
    (s : Step.t) : VerificationResult :=
  set_steps r {| syntax := s; mx := mx (steps r); smtp := smtp (steps r) |}.

Definition set_steps_mx (r : VerificationResult)
    (s : Step.t) : VerificationResult :=
  set_steps r {| syntax := syntax (steps r); mx := s; smtp := smtp (steps r) |}.

Definition set_steps_smtp (r : VerificationResult)
    (s : Step.t) : VerificationResult :=
  set_steps r {| syntax := syntax (steps r); mx := mx (steps r); smtp := s |}.

Definition set_executiontime (r : VerificationResult)
    (t : Z) : VerificationResult :=
  {| email := email r; result := result r; resultcode := resultcode r;
     subresult := subresult r; domain := domain r;
     mxRecords := mxRecords r; executiontime := t; error := error r;
     timestamp := timestamp r; didyoumean := didyoumean r;
     smtpBlocked := smtpBlocked r; smtpChecked := smtpChecked r;
     verificationMethod := verificationMethod r;
     disposable := disposable r; roleBased := roleBased r;
     steps := steps r |}.

(** [result.domain = ...; result.disposable = ...; result.roleBased = ...] *)
Definition set_domain (r : VerificationResult)
    (d : string) (disp role : bool) : VerificationResult :=
  {| email := email r; result := result r; resultcode := resultcode r;
     subresult := subresult r; domain := d; mxRecords := mxRecords r;
     executiontime := executiontime r; error := error r;
     timestamp := timestamp r; didyoumean := didyoumean r;
     smtpBlocked := smtpBlocked r; smtpChecked := smtpChecked r;
     verificationMethod := verificationMethod r;
     disposable := disp; roleBased := role; steps := steps r |}.

Definition set_didyoumean (r : VerificationResult)
    (s : option string) : VerificationResult :=
  {| email := email r; result := result r; resultcode := resultcode r;
     subresult := subresult r; domain := domain r;
     mxRecords := mxRecords r; executiontime := executiontime r;
     error := error r; timestamp := timestamp r; didyoumean := s;
     smtpBlocked := smtpBlocked r; smtpChecked := smtpChecked r;
     verificationMethod := verificationMethod r;
     disposable := disposable r; roleBased := roleBased r;
     steps := steps r |}.

Definition set_mxRecords (r : VerificationResult)
    (l : list string) : VerificationResult :=
  {| email := email r; result := result r; resultcode := resultcode r;
     subresult := subresult r; domain := domain r; mxRecords := l;
     executiontime := executiontime r; error := error r;
     timestamp := timestamp r; didyoumean := didyoumean r;
     smtpBlocked := smtpBlocked r; smtpChecked := smtpChecked r;
     verificationMethod := verificationMethod r;
     disposable := disposable r; roleBased := roleBased r;
     steps := steps r |}.

Definition set_smtpChecked (r : VerificationResult)
    (b : bool) : VerificationResult :=
  {| email := email r; result := result r; resultcode := resultcode r;
     subresult := subresult r; domain := domain r;
     mxRecords := mxRecords r; executiontime := executiontime r;
     error := error r; timestamp := timestamp r;
     didyoumean := didyoumean r; smtpBlocked := smtpBlocked r;
     smtpChecked := b; verificationMethod := verificationMethod r;
     disposable := disposable r; roleBased := roleBased r;
     steps := steps r |}.

Definition set_smtpBlocked (r : VerificationResult)
    (b : bool) : VerificationResult :=
  {| email := email r; result := result r; resultcode := resultcode r;
     subresult := subresult r; domain := domain r;
     mxRecords := mxRecords r; executiontime := executiontime r;
     error := error r; timestamp := timestamp r;
     didyoumean := didyoumean r; smtpBlocked := b;
     smtpChecked := smtpChecked r;
     verificationMethod := verificationMethod r;
     disposable := disposable r; roleBased := roleBased r;
     steps := steps r |}.

(** [email?.trim?.()], or the empty string when that is falsy; evaluated
    before the [try] block. *)
Definition optional_trim (email : JsValue) : Completion string :=
  match email with
  | JUndefined | JNull => Returns EmptyString
  | JBool _ | JNumber _ | JNaN => Returns EmptyString
  | JString s => Returns (Str.trim s)
  | JObject TrimMissing => Returns EmptyString
  | JObject TrimNotCallable => Throws "email?.trim is not a function"
  | JObject (TrimReturns s) => Returns s
  | JObject (TrimThrows msg) => Throws msg
  end.

(** The result object as first built. *)
Definition initial_result (env : Env) (trimmed : string)
    : VerificationResult :=
  {| email := trimmed; result := "unknown"; resultcode := 3;
     subresult := "unknown"; domain := EmptyString; mxRecords := [];
     executiontime := 0; error := None; timestamp := isoTime env;
     didyoumean := None; smtpBlocked := false; smtpChecked := false;
     verificationMethod := "unknown"; disposable := false;
     roleBased := false;
     steps :=
       {| syntax := {| Step.valid := Some false; Step.message := "Pending" |};
          mx := {| Step.valid := None; Step.message := "Skipped" |};
          smtp := {| Step.valid := None; Step.message := "Skipped" |} |} |}.

(** The local variables of the server loop, with the assignment to
    [result.verificationMethod] the loop makes before a [break]. *)
Record SmtpLoop := {
  smtpSuccess : bool;
  lastResponseCode : N;
  lastMessage : string;
  loopBlocked : bool;             (* the local [smtpBlocked] *)
  loopMethod : string;            (* [result.verificationMethod] *)
}.

(** [for (let i = ...; i < Math.min(maxAttempts, mxRecords.length); i++)],
    with [servers] the exchangers still to try and [i] the index of the
    first of them. *)
Fixpoint smtp_loop (env : Env) (address : string) (timeout : Z)
    (i : nat) (servers : list string) (st : SmtpLoop)
    : Completion SmtpLoop :=
  match servers with
  | [] => Returns st
  | mxServer :: rest =>
      match smtpRun env i address mxServer timeout with
      | Unsettled => Pending
      | Raced p1 p2 p3 =>
          match verifyWithSMTP [p1; p2; p3] with
          | None => Pending
          | Some smtpResult =>
              let code := Verdict.responseCode smtpResult in
              let st :=
                {| smtpSuccess := smtpSuccess st;
                   lastResponseCode := code;
                   lastMessage := Verdict.message smtpResult;
                   loopBlocked :=
                     if Verdict.allPortsBlocked smtpResult then true
                     else loopBlocked st;
                   loopMethod := loopMethod st |} in
              if Verdict.success smtpResult then
                Returns {| smtpSuccess := true;
                        lastResponseCode := lastResponseCode st;
                        lastMessage := lastMessage st;
                        loopBlocked := loopBlocked st;
                        loopMethod := "smtp_verification" |}
              else if is_definitive code then
                Returns {| smtpSuccess := smtpSuccess st;
                        lastResponseCode := lastResponseCode st;
                        lastMessage := lastMessage st;
                        loopBlocked := loopBlocked st;
                        loopMethod := "smtp_verification" |}
              else smtp_loop env address timeout (S i) rest st
          end
      end
  end.

(** The exchangers the loop may visit: the first
    [Math.min(maxAttempts, mxRecords.length)] of them. *)
Definition servers_to_try (maxAttempts : Z) (mxRecords : list string)
    : list string :=
  take (Z.to_nat (Z.min maxAttempts (Z.of_nat (length mxRecords)))) mxRecords.

(** The statements after the loop, up to the end of the SMTP branch. *)
Definition classify_smtp (r : VerificationResult) (st : SmtpLoop)
    : VerificationResult :=
  let code := lastResponseCode st in
  let r := set_verificationMethod r (loopMethod st) in
  let r := set_subresult r (interpretSMTPCode code) in
  let r := set_smtpBlocked r (loopBlocked st) in
  let r :=
    if smtpSuccess st then
      set_steps_smtp (set_outcome r "valid" 1 (subresult r))
        {| Step.valid := Some true; Step.message := "Mailbox exists" |}
    else if loopBlocked st then
      set_steps_smtp
        (set_error
           (set_verificationMethod
              (set_outcome r "valid" 1 "smtp_blocked_but_mx_valid")
              "dns_lookup_fallback")
           (Some "SMTP ports blocked (all ports timeout) - Verified via DNS MX records"))
        {| Step.valid := None;
           Step.message := "Blocked/Timeout (Fallback to DNS)" |}
    else if ((450 <=? code) && (code <? 500))%N then
      set_steps_smtp (set_outcome r "unknown" 3 (subresult r))
        {| Step.valid := Some false;
           Step.message := "Greylisted/Throttled (" +:+ Str.of_N code +:+ ")" |}
    else if ((550 <=? code) && (code <? 600))%N then
      set_steps_smtp (set_outcome r "invalid" 6 (subresult r))
        {| Step.valid := Some false;
           Step.message :=
             "Mailbox not found / Rejected (" +:+ Str.of_N code +:+ ")" |}
    else
      set_steps_smtp (set_outcome r "unknown" 3 (subresult r))
        {| Step.valid := Some false;
           Step.message := "Unknown response (" +:+ Str.of_N code +:+ ")" |} in
  if negb (smtpSuccess st) && Str.truthy (lastMessage st)
  then set_error r (Some (lastMessage st))
  else r.

(** [result.executiontime = Math.round(...)] *)
Definition stamp (env : Env) (r : VerificationResult) : VerificationResult :=
  set_executiontime r (elapsed_seconds env).

(** How the [try] block ends: at a [return], or at a [throw] that leaves
    the result object as assigned so far. *)
Inductive TryExit :=
| TryReturn (r : VerificationResult)
| TryThrow (r : VerificationResult) (msg : string)
| TryHang.

(** Step 3 of the body; [inl] leaves the [try] block, [inr] goes on. *)
Definition mx_step (env : Env) (options : VerificationOptions)
    (domain : string) (r : VerificationResult)
    : TryExit + VerificationResult :=
  if checkMX options then
    match getMXRecords (resolveMx env) domain with
    | Returns mxRecords =>
        if (length mxRecords =? 0)%nat then
          inl (TryReturn
                 (stamp env
                    (set_steps_mx
                       (set_verificationMethod
                          (set_error
                             (set_outcome r "invalid" 6 "no_mx_records")
                             (Some "No MX records found for domain"))
                          "dns_lookup")
                       {| Step.valid := Some false;
                          Step.message := "No MX records found" |})))
        else
          inr (set_steps_mx (set_mxRecords r mxRecords)
                 {| Step.valid := Some true;
                    Step.message :=
                      "Found " +:+ Str.of_nat (length mxRecords)
                      +:+ " MX records" |})
    | Throws msg =>
        inl (TryReturn
               (stamp env
                  (set_steps_mx
                     (set_verificationMethod
                        (set_error
                           (set_outcome r "invalid" 6 "dns_lookup_failed")
                           (Some msg))
                        "dns_lookup")
                     {| Step.valid := Some false; Step.message := msg |})))
    | Pending => inl TryHang
    end
  else inr r.

(** Step 4 of the body. *)
Definition smtp_step (env : Env) (options : VerificationOptions)
    (address : string) (r : VerificationResult) : TryExit :=
  if checkSMTP options && (0 <? length (mxRecords r))%nat then
    let r := set_smtpChecked r true in
    match smtp_loop env address (timeout options) 0
            (servers_to_try (maxAttempts options) (mxRecords r))
            {| smtpSuccess := false; lastResponseCode := 0;
               lastMessage := EmptyString; loopBlocked := false;
               loopMethod := verificationMethod r |} with
    | Returns st => TryReturn (stamp env (classify_smtp r st))
    | Throws msg => TryThrow r msg
    | Pending => TryHang
    end
  else if negb (checkSMTP options) then
    TryReturn
      (stamp env
         (set_steps_smtp
            (set_verificationMethod
               (set_smtpChecked
                  (set_outcome r "valid" 1 "syntax_and_mx_valid") false)
               "dns_lookup")
            {| Step.valid := None; Step.message := "Skipped by config" |}))
  else TryReturn (stamp env r).

(** The [try] block. *)
Definition verify_try (env : Env) (email : JsValue)
    (options : VerificationOptions) (r : VerificationResult) : TryExit :=
  match validateEmailSyntax email with
  | Invalid error =>
      TryReturn
        (stamp env
           (set_steps_syntax
              (set_verificationMethod
                 (set_error (set_outcome r "invalid" 6 "invalid_syntax")
                            (Some error))
                 "syntax_validation")
              {| Step.valid := Some false; Step.message := error |}))
  | Valid =>
      let r := set_steps_syntax r
                 {| Step.valid := Some true;
                    Step.message := "Format is valid" |} in
      match email with
      | JString s =>
          let trimmed := Str.trim s in
          match split_email trimmed with
          | Some (localPart, domain) =>
              let r := set_domain r domain
                         (set_has DISPOSABLE_DOMAINS (Str.toLowerCase domain))
                         (set_has ROLE_ACCOUNTS (Str.toLowerCase localPart)) in
              let typo :=
                match suggestCorrection (JString trimmed) with
                | Some suggestion =>
                    if negb (String.eqb (suggested suggestion) trimmed)
                    then Some (suggested suggestion) else None
                | None => None
                end in
              match typo with
              | Some correction =>
                  TryReturn
                    (stamp env
                       (set_verificationMethod
                          (set_outcome (set_didyoumean r (Some correction))
                             "invalid" 6 "typo_detected")
                          "typo_detection"))
              | None =>
                  match mx_step env options domain r with
                  | inl exit => exit
                  | inr r => smtp_step env options trimmed r
                  end
              end
          | None =>
              (* never reached: a valid address has one [@], so [domain]
                 is defined; otherwise [domain.toLowerCase()] throws *)
              TryThrow r
                "Cannot read properties of undefined (reading 'toLowerCase')"
          end
      | _ =>
          (* never reached: only strings pass validation; otherwise
             [email.trim()] throws *)
          TryThrow r "email.trim is not a function"
      end
  end.

(** The [catch] block. *)
Definition verify_catch (env : Env) (r : VerificationResult) (msg : string)
    : VerificationResult :=
  stamp env (set_error (set_outcome r "unknown" 3 "verification_error")
                       (Some msg)).

Definition verifyEmail (env : Env) (email : JsValue)
    (options : VerificationOptions) : Completion VerificationResult :=
  match optional_trim email with
  | Returns trimmed =>
      match verify_try env email options (initial_result env trimmed) with
      | TryReturn r => Returns r
      | TryThrow r msg => Returns (verify_catch env r msg)
      | TryHang => Pending
      end
  | Throws msg => Throws msg
  | Pending => Pending
  end.

(** * Specification-side definitions

    The notions the properties below are stated with.  None of them is
    part of the program. *)

Local Open Scope nat_scope.

(** ** Edit distance *)

(** The Levenshtein recurrence (insertion, deletion and substitution at
    cost 1), on the characters read from the end of each prefix. *)
Fixpoint lev (x : list ascii) : list ascii → nat :=
  fix lev_x (y : list ascii) : nat :=
    match x, y with
    | [], _ => length y
    | _, [] => length x
    | a :: x', b :: y' =>
        min3 (lev x' y + 1) (lev_x y' + 1)
             (lev x' y' + (if bool_decide (Some a = Some b) then 0 else 1))
    end.

(** Matrices of a fixed shape. *)
Definition shaped (rows cols : nat) (m : Matrix) : Prop :=
  length m = rows ∧ Forall (λ row, length row = cols) m.

(** What [matrix[j][i]] must hold in the end: the distance between the
    first [i] characters of [str1] and the first [j] characters of
    [str2]. *)
Definition tabulated (str1 str2 : string) (j i : nat) : nat :=
  lev (rev (take i (list_ascii_of_string str1)))
      (rev (take j (list_ascii_of_string str2))).

(** Filled so far: row 0, column 0, the rows below [j0] and the first
    [i0] cells of row [j0]. *)
Definition filled (str1 str2 : string) (j0 i0 : nat) (m : Matrix) : Prop :=
  shaped (S (String.length str2)) (S (String.length str1)) m
  ∧ ∀ j i, j ≤ String.length str2 → i ≤ String.length str1 →
      j = 0 ∨ i = 0 ∨ j < j0 ∨ (j = j0 ∧ i < i0) →
      mget m j i = tabulated str1 str2 j i.

(** ** The port race *)

(** The outcome the reduction prefers, in the words of the design: the
    first finished outcome with a nonzero response code, else the first
    finished outcome. *)
Definition preferred (finished : list Probe.t) : option Probe.t :=
  match find (λ o, negb (Probe.responseCode o =? 0)%N) finished with
  | Some o => Some o
  | None => head finished
  end.

(** ** The fuzzy scan *)

(** A table entry is a candidate when its distance is within the
    threshold and its correction differs from the input domain. *)
Definition candidate (dist : string → string → nat) (domain : string)
    (entry : string * string) : Prop :=
  dist domain entry.1 ≤ 2 ∧ entry.2 ≠ domain.

(** [entry] sits in [table] between [before] and [after], is a candidate,
    no candidate is nearer, and every candidate after it is farther: the
    last candidate of minimal distance in table order. *)
Definition last_nearest (dist : string → string → nat) (domain : string)
    (table before : list (string * string)) (entry : string * string)
    (after : list (string * string)) : Prop :=
  table = before ++ entry :: after
  ∧ candidate dist domain entry
  ∧ (∀ e, e ∈ before → candidate dist domain e →
       dist domain entry.1 ≤ dist domain e.1)
  ∧ (∀ e, e ∈ after → candidate dist domain e →
       dist domain entry.1 < dist domain e.1).

(** The scan in the words of the design: keep the candidate of minimal
    distance, the first one met on ties. *)
Definition scan_first_nearest (dist : string → string → nat)
    (table : list (string * string)) (localPart domain : string)
    : option Suggestion :=
  foldl (λ best entry,
           let d := dist domain entry.1 in
           if (d <=? 2) && negb (String.eqb entry.2 domain)
              && match best with
                 | None => true
                 | Some b => d <? distance b
                 end
           then Some {| suggested := localPart +:+ "@" +:+ entry.2;
                        distance := d |}
           else best)
        None table.

(** What the loop of [suggestCorrection] has established after the
    entries of [seen]. *)
Definition scan_invariant (dist : string → string → nat)
    (localPart domain : string) (seen : list (string * string))
    (st : Best) : Prop :=
  bestDistance st ≤ 2
  ∧ match bestMatch st with
    | None =>
        bestDistance st = 2
        ∧ ∀ e, e ∈ seen → ¬ candidate dist domain e
    | Some sg =>
        ∃ before entry after,
          last_nearest dist domain seen before entry after
          ∧ sg = {| suggested := localPart +:+ "@" +:+ entry.2;
                    distance := dist domain entry.1 |}
          ∧ bestDistance st = dist domain entry.1
    end.

(** ** Results *)

(** A result that reports no typo. *)
Definition no_typo (r : VerificationResult) : Prop :=
  didyoumean r = None ∧ subresult r ≠ "typo_detected".

(** A populated result: stamped, and with a code that goes with the
    verdict. *)
Definition populated (env : Env) (r : VerificationResult) : Prop :=
  timestamp r = isoTime env
  ∧ executiontime r = elapsed_seconds env
  ∧ ((result r = "valid" ∧ resultcode r = 1%Z)
     ∨ (result r = "unknown" ∧ resultcode r = 3%Z)
     ∨ (result r = "invalid" ∧ resultcode r = 6%Z)).

(** The public classification of a settled call. *)
Definition classification (c : Completion VerificationResult)
    : option (string * Z * string) :=
  match c with
  | Returns r => Some (result r, resultcode r, subresult r)
  | _ => None
  end.

(** ** The server loop *)

(** The verdicts the server loop obtains, in order: it stops after a
    success or a code in 550..599, when the exchangers are exhausted, or
    at a race that stays unsettled. *)
Fixpoint verdicts_obtained (env : Env) (address : string) (tmo : Z)
    (i : nat) (servers : list string) : list Verdict.t :=
  match servers with
  | [] => []
  | mxServer :: rest =>
      match smtpRun env i address mxServer tmo with
      | Unsettled => []
      | Raced p1 p2 p3 =>
          match verifyWithSMTP [p1; p2; p3] with
          | None => []
          | Some v =>
              v :: (if Verdict.success v
                       || is_definitive (Verdict.responseCode v)
                    then []
                    else verdicts_obtained env address tmo (S i) rest)
          end
      end
  end.

(** The loop variables after a run that obtained [vs] and ended with the
    verdict [v]. *)
Definition loop_state_after (st : SmtpLoop) (vs : list Verdict.t)
    (v : Verdict.t) : SmtpLoop :=
  {| smtpSuccess := if Verdict.success v then true else smtpSuccess st;
     lastResponseCode := Verdict.responseCode v;
     lastMessage := Verdict.message v;
     loopBlocked := loopBlocked st || existsb Verdict.allPortsBlocked vs;
     loopMethod :=
       if Verdict.success v || is_definitive (Verdict.responseCode v)
       then "smtp_verification" else loopMethod st |}.

(** ** Networks used in the examples *)

(** A probe that timed out, and a probe that read a reply line. *)
Definition timeout_on (port : N) : Probe.t :=
  {| Probe.success := false; Probe.responseCode := 0;
     Probe.message := "Port " +:+ Str.of_N port +:+ ": timeout";
     Probe.port := port |}.

Definition reply_on (port code : N) (line : string) : Probe.t :=
  {| Probe.success := (250 <=? code)%N && (code <? 300)%N;
     Probe.responseCode := code; Probe.message := line; Probe.port := port |}.

(** No exchanger at all, and a network that is never asked. *)
Definition quiet_env : Env :=
  {| resolveMx := λ _, DnsRecords [];
     probes := λ _ _ _ _, (timeout_on 25, timeout_on 587, timeout_on 465);
     startTime := 0; endTime := 0; isoTime := "1970-01-01T00:00:00.000Z" |}.

(** One exchanger, silent on every port. *)
Definition silent_env : Env :=
  {| resolveMx := λ _, DnsRecords [ {| exchange := "mx1.example.com";
                                       priority := 10 |} ];
     probes := λ _ _ _ _, (timeout_on 465, timeout_on 25, timeout_on 587);
     startTime := 0; endTime := 2500;
     isoTime := "2026-02-11T10:30:00.000Z" |}.

(** The options of the quick checks of the test suite. *)
Definition syntax_only : VerificationOptions :=
  {| checkMX := false; checkSMTP := false;
     timeout := 2500; maxAttempts := 2 |}.

(** One exchanger, which rejects the recipient on port 25 while the other
    two ports stay silent. *)
Definition rejecting_env : Env :=
  {| resolveMx := λ _, DnsRecords [ {| exchange := "mx1.example.com";
                                       priority := 10 |} ];
     probes := λ _ _ _ _,
       (reply_on 25 550 "550 5.1.1 User unknown",
        timeout_on 587, timeout_on 465);
     startTime := 0; endTime := 1200;
     isoTime := "2026-02-11T10:30:00.000Z" |}.

(** One exchanger, which answers 552 on port 25. *)
Definition mailbox_full_env : Env :=
  {| resolveMx := λ _, DnsRecords [ {| exchange := "mx1.example.com";
                                       priority := 10 |} ];
     probes := λ _ _ _ _,
       (reply_on 25 552 "552 5.2.2 Mailbox full",
        timeout_on 587, timeout_on 465);
     startTime := 0; endTime := 1200;
     isoTime := "2026-02-11T10:30:00.000Z" |}.

(** Two exchangers: every port of the first stays silent, the second
    rejects the recipient on port 25. *)
Definition blocked_then_rejecting_env : Env :=
  {| resolveMx := λ _, DnsRecords [ {| exchange := "mx2.example.com";
                                       priority := 20 |};
                                    {| exchange := "mx1.example.com";
                                       priority := 10 |} ];
     probes := λ i _ _ _,
       match i with
       | 0 => (timeout_on 25, timeout_on 587, timeout_on 465)
       | _ => (reply_on 25 550 "550 5.1.1 User unknown",
               timeout_on 587, timeout_on 465)
       end;
     startTime := 0; endTime := 2600;
     isoTime := "2026-02-11T10:30:00.000Z" |}.

(** ** The dialogue of [tryPort] *)

(** The response codes a probe can report: none, the 250 of an accepted
    recipient, or a 4xx/5xx reply. *)
Definition reply_code (n : N) : Prop :=
  (n = 0 ∨ n = 250 ∨ 400 <= n < 600)%N.

(** A probe outcome as [tryPort] builds them. *)
Definition probe_ok (port : N) (o : Probe.t) : Prop :=
  Probe.port o = port
  ∧ reply_code (Probe.responseCode o)
  ∧ (Probe.success o = true ↔ Probe.responseCode o = 250%N).

(** The events whose handler calls [resolve]. *)
Definition settling (e : SocketEvent) : bool :=
  match e with
  | OnData _ => false
  | _ => true
  end.

(** The lines a dialogue may send. *)
Definition commands (email : string) : list string :=
  [EHLO; MAIL_FROM; RCPT_TO email; QUIT].

(** [data] is a reply with code 250 that mentions [RCPT TO]. *)
Definition echoes_rcpt (data : string) : Prop :=
  Text.parseInt (Text.take 3 (Str.trim data)) = Some 250%Z
  ∧ Text.includes "RCPT TO" (Str.trim data) = true.

(** What each settling handler resolves an unsettled promise to. *)
Definition end_probe (port : N) (st : Session.t) : Probe.t :=
  {| Probe.success :=
       ((250 <=? Session.responseCode st)
        && (Session.responseCode st <? 300))%N;
     Probe.responseCode := Session.responseCode st;
     Probe.message := Session.responseMessage st;
     Probe.port := port |}.

Definition silent_probe (port : N) (cause : string) : Probe.t :=
  {| Probe.success := false; Probe.responseCode := 0;
     Probe.message := "Port " +:+ Str.of_N port +:+ ": " +:+ cause;
     Probe.port := port |}.

(** What the first settling event [e] resolves the promise to, after the
    data events [before]. *)
Definition first_outcome (email : string) (port : N)
    (before : list SocketEvent) (e : SocketEvent) : Probe.t :=
  match e with
  | OnEnd | OnData _ => end_probe port (session email port before)
  | OnError msg => silent_probe port msg
  | OnTimer => silent_probe port "timeout"
  end.

(** The data events of a run. *)
Definition data_events (events : list SocketEvent) : list SocketEvent :=
  filter (λ e, settling e = false) events.

(** ** The port race, continued *)

(** An outcome that ends the race at once. *)
Definition winner (o : Probe.t) : bool :=
  Probe.success o || is_definitive (Probe.responseCode o).

(** ** Mail exchangers *)

(** Exchangers in the order of preference: lowest priority value first. *)
Definition by_preference (records : list MxRecord) : Prop :=
  StronglySorted (λ a b, (priority a ≤ priority b)%Z) records.

(** The records of one priority value, in the order they are listed. *)
Definition of_priority (p : Z) (records : list MxRecord) : list MxRecord :=
  filter (λ r, priority r = p) records.

(** ** The address grammar *)

(** The language of a regular expression. *)
Inductive matches : Regex.t → list ascii → Prop :=
| matches_eps : matches Regex.Eps []
| matches_class p c : p c = true → matches (Regex.Class p) [c]
| matches_seq r1 r2 s1 s2 :
    matches r1 s1 → matches r2 s2 → matches (Regex.Seq r1 r2) (s1 ++ s2)
| matches_alt_l r1 r2 s : matches r1 s → matches (Regex.Alt r1 r2) s
| matches_alt_r r1 r2 s : matches r2 s → matches (Regex.Alt r1 r2) s
| matches_star_nil r : matches (Regex.Star r) []
| matches_star_cons r s1 s2 :
    matches r s1 → matches (Regex.Star r) s2 →
    matches (Regex.Star r) (s1 ++ s2)
| matches_upto_nil n r : matches (Regex.UpTo n r) []
| matches_upto_cons n r s1 s2 :
    matches r s1 → matches (Regex.UpTo n r) s2 →
    matches (Regex.UpTo (S n) r) (s1 ++ s2).

(** A label of a domain name: 1 to 63 letters, digits and hyphens, with
    no hyphen at either end. *)
Definition label (l : list ascii) : Prop :=
  1 ≤ length l ≤ 63
  ∧ Forall (λ c, alnum_hyphen c = true) l
  ∧ (∀ c, head l = Some c → alnum c = true)
  ∧ (∀ c, last l = Some c → alnum c = true).

(** Labels joined by dots. *)
Fixpoint dotted (labels : list (list ascii)) : list ascii :=
  match labels with
  | [] => []
  | l :: rest =>
      match rest with
      | [] => l
      | _ :: _ => l ++ "."%char :: dotted rest
      end
  end.

(** The labels after the first, each behind its dot. *)
Definition behind_dots (labels : list (list ascii)) : list ascii :=
  concat (map (λ l, "."%char :: l) labels).

(** The addresses the validator accepts, once trimmed: a local part of 1
    to 64 characters of the local alphabet, without a dot at either end
    and without two dots in a row, an [@], and at least two labels joined
    by dots; at most 254 characters in all. *)
Definition accepted (t : list ascii) : Prop :=
  ∃ localPart labels,
    t = localPart ++ "@"%char :: dotted labels
    ∧ length t ≤ 254
    ∧ 1 ≤ length localPart ≤ 64
    ∧ Forall (λ c, local_char c = true) localPart
    ∧ head localPart ≠ Some "."%char
    ∧ last localPart ≠ Some "."%char
    ∧ (∀ u v, localPart ≠ u ++ "."%char :: "."%char :: v)
    ∧ 2 ≤ length labels
    ∧ Forall label labels.

(** A string of white space only. *)
Definition blank (pad : string) : Prop :=
  Forall (λ c, Str.is_space c = true) (list_ascii_of_string pad).

(** ** The typo table *)


(** ** Calls of [verifyEmail] *)

(** Two environments with the same clock readings. *)
Definition same_clock (env1 env2 : Env) : Prop :=
  startTime env1 = startTime env2
  ∧ endTime env1 = endTime env2
  ∧ isoTime env1 = isoTime env2.

(** Two environments that answer alike wherever the options allow a
    question: the resolver when [checkMX] is set, and the probes of the
    first [maxAttempts] attempts when [checkSMTP] is set as well. *)
Definition same_answers (options : VerificationOptions) (env1 env2 : Env)
    : Prop :=
  same_clock env1 env2
  ∧ (checkMX options = true → ∀ d, resolveMx env1 d = resolveMx env2 d)
  ∧ (checkMX options = true → checkSMTP options = true →
     ∀ i address mxServer tmo,
       (Z.of_nat i < maxAttempts options)%Z →
       probes env1 i address mxServer tmo
       = probes env2 i address mxServer tmo).

(** The result object as the typo check leaves it when it finds nothing to
    report. *)
Definition untouched (r : VerificationResult) : Prop :=
  result r = "unknown" ∧ resultcode r = 3%Z ∧ subresult r = "unknown"
  ∧ mxRecords r = [] ∧ error r = None ∧ didyoumean r = None
  ∧ smtpBlocked r = false ∧ smtpChecked r = false
  ∧ verificationMethod r = "unknown"
  ∧ mx (steps r) = {| Step.valid := None; Step.message := "Skipped" |}
  ∧ smtp (steps r) = {| Step.valid := None; Step.message := "Skipped" |}.

(** An environment whose probes are [tryPort] dialogues. *)
Definition wired (env : Env) : Prop :=
  ∀ i address mxServer tmo p1 p2 p3,
    (0 ≤ tmo)%Z →
    probes env i address mxServer tmo = (p1, p2, p3) →
    Forall (λ p, ∃ port events,
                   tryPort address mxServer port tmo events = Resolved p)
           [p1; p2; p3].

(** The pairs of [result] and [subresult] a caller can meet. *)
Definition outcomes : list (string * string) :=
  [ ("valid", "mailbox_exists");
    ("valid", "smtp_blocked_but_mx_valid");
    ("valid", "syntax_and_mx_valid");
    ("invalid", "invalid_syntax");
    ("invalid", "typo_detected");
    ("invalid", "no_mx_records");
    ("invalid", "dns_lookup_failed");
    ("invalid", "mailbox_does_not_exist");
    ("invalid", "unknown_response");
    ("unknown", "unknown");
    ("unknown", "greylisted");
    ("unknown", "service_unavailable");
    ("unknown", "smtp_error");
    ("unknown", "connection_error");
    ("unknown", "unknown_response");
    ("unknown", "verification_error") ].

(** What the server loop has established about its variables when the
    probes are [tryPort] dialogues. *)
Definition loop_invariant (st : SmtpLoop) : Prop :=
  reply_code (lastResponseCode st)
  ∧ (smtpSuccess st = true ↔ lastResponseCode st = 250%N).

(** ** More networks *)

(** An environment whose resolver fails. *)
Definition unresolvable_env : Env :=
  {| resolveMx := λ _, DnsFailure "queryMx ENOTFOUND example.invalid";
     probes := λ _ _ _ _, (timeout_on 25, timeout_on 587, timeout_on 465);
     startTime := 0; endTime := 40; isoTime := "2026-02-11T10:30:00.000Z" |}.

(** One exchanger whose three ports are probed by [tryPort]: port 25
    rejects the recipient, port 587 times out, port 465 refuses the
    connection. *)
Definition probing_env : Env :=
  {| resolveMx := λ _, DnsRecords [ {| exchange := "mx1.example.com";
                                       priority := 10 |} ];
     probes := λ _ address mxServer tmo,
       match tryPort address mxServer 25 tmo
               [OnData "220 mx1 ESMTP"; OnData "250-mx1 EHLO ok";
                OnData "250 2.1.0 MAIL FROM ok";
                OnData "550 5.1.1 User unknown"; OnData "221 Bye"; OnEnd],
             tryPort address mxServer 587 tmo [OnTimer],
             tryPort address mxServer 465 tmo
               [OnError "connect ECONNREFUSED"]
       with
       | Resolved p1, Resolved p2, Resolved p3 => (p1, p2, p3)
       | _, _, _ => (timeout_on 25, timeout_on 587, timeout_on 465)
       end;
     startTime := 0; endTime := 1200;
     isoTime := "2026-02-11T10:30:00.000Z" |}.

(** ** Proof steps *)

(** Turn boolean tests on numbers into arithmetic. *)
Ltac bool_arith :=
  repeat match goal with
  | H : _ = true |- _ =>
      rewrite ?orb_true_iff, ?andb_true_iff, ?N.eqb_eq, ?N.leb_le,
        ?N.ltb_lt in H;
      revert H
  | H : _ = false |- _ =>
      rewrite ?orb_false_iff, ?andb_false_iff, ?N.eqb_neq, ?N.leb_gt,
        ?N.ltb_ge in H;
      revert H
  end;
  intros.

(** Find a pair in [outcomes]. *)
Ltac in_outcomes :=
  unfold outcomes;
  repeat (apply elem_of_cons; first [by left | right]).

(** * Properties *)

(** ** The cases of the test suite *)

Example lev_gmail_gmial : levenshteinDistance "gmail" "gmial" = 2.
Proof. vm_compute. reflexivity. Qed.

Example lev_empty_gmail : levenshteinDistance EmptyString "gmail" = 5.
Proof. vm_compute. reflexivity. Qed.

Example lev_yahooo : levenshteinDistance "yahooo" "yahoo" = 1.
Proof. vm_compute. reflexivity. Qed.

Example regex_labels :
  map (Regex.test STRICT_EMAIL_REGEX)
    [ "user@example"; "user+tag@example.com"; "user@-example.com";
      "user@example-.com"; "user@exa_mple.com"; "user@a..b"; "@example.com";
      "user@"; "us er@example.com";
      "u@" +:+ string_of_list_ascii (replicate 63 "a"%char);
      "u@" +:+ string_of_list_ascii (replicate 64 "a"%char) ]
  = [ true; true; false; false; false; false; false; false; false;
      true; false ].
Proof. vm_compute. reflexivity. Qed.

Example syntax_simple :
  validateEmailSyntax (JString "user@example.com")
  = Valid.
Proof. vm_compute. reflexivity. Qed.

Example syntax_subdomain :
  is_valid (validateEmailSyntax (JString "user.name@mail.example.co.uk")) = true.
Proof. vm_compute. reflexivity. Qed.

Example syntax_two_ats :
  validateEmailSyntax (JString "user@@example.com")
  = Invalid "Email must contain exactly one @ symbol (found 2)".
Proof. vm_compute. reflexivity. Qed.

Example syntax_double_dot :
  validateEmailSyntax (JString "user..name@example.com")
  = Invalid "Local part cannot contain consecutive dots".
Proof. vm_compute. reflexivity. Qed.

Example syntax_leading_dot :
  validateEmailSyntax (JString ".user@example.com")
  = Invalid "Local part cannot start or end with a dot".
Proof. vm_compute. reflexivity. Qed.

Example syntax_no_tld :
  validateEmailSyntax (JString "user@example")
  = Invalid "Domain must contain at least one dot".
Proof. vm_compute. reflexivity. Qed.

Example syntax_space :
  validateEmailSyntax (JString "user name@example.com")
  = Invalid "Email format is invalid".
Proof. vm_compute. reflexivity. Qed.

Example syntax_number :
  validateEmailSyntax (JNumber 12345)
  = Invalid "Email must be a string".
Proof. vm_compute. reflexivity. Qed.

Example syntax_overlong :
  validateEmailSyntax
    (JString (string_of_list_ascii (replicate 250 "a"%char)
              +:+ "@example.com"))
  = Invalid "Email exceeds maximum length (254 characters)".
Proof. vm_compute. reflexivity. Qed.

Example syntax_long_local_part :
  validateEmailSyntax
    (JString (string_of_list_ascii (replicate 65 "a"%char)
              +:+ "@example.com"))
  = Invalid "Local part exceeds maximum length (64 characters)".
Proof. vm_compute. reflexivity. Qed.

Example syntax_trimmed :
  is_valid (validateEmailSyntax (JString "  user@example.com  ")) = true.
Proof. vm_compute. reflexivity. Qed.

Example suggest_gmial :
  suggestCorrection (JString "user@gmial.com")
  = Some {| suggested := "user@gmail.com"; distance := 0 |}.
Proof. vm_compute. reflexivity. Qed.

Example suggest_yahooo :
  suggested <$> suggestCorrection (JString "user@yahooo.com")
  = Some "user@yahoo.com".
Proof. vm_compute. reflexivity. Qed.

Example suggest_gmail : suggestCorrection (JString "user@gmail.com") = None.
Proof. vm_compute. reflexivity. Qed.

Example suggest_null : suggestCorrection JNull = None.
Proof. reflexivity. Qed.

Example suggest_fuzzy :
  suggestCorrection (JString "user@hotmal.com")
  = Some {| suggested := "user@hotmail.com"; distance := 1 |}.
Proof. vm_compute. reflexivity. Qed.

Example interpret_codes :
  map interpretSMTPCode [250; 251; 550; 551; 553; 450; 451; 452; 421; 500;
                         0; 999]%N
  = [ "mailbox_exists"; "mailbox_exists"; "mailbox_does_not_exist";
      "mailbox_does_not_exist"; "mailbox_does_not_exist"; "greylisted";
      "greylisted"; "greylisted"; "service_unavailable"; "smtp_error";
      "connection_error"; "unknown_response" ].
Proof. reflexivity. Qed.

Example verify_not_an_email :
  classification (verifyEmail quiet_env (JString "not-an-email") syntax_only)
  = Some ("invalid", 6%Z, "invalid_syntax").
Proof. vm_compute. reflexivity. Qed.

Example verify_empty :
  classification (verifyEmail quiet_env (JString EmptyString) syntax_only)
  = Some ("invalid", 6%Z, "invalid_syntax").
Proof. vm_compute. reflexivity. Qed.

Example verify_null :
  classification (verifyEmail quiet_env JNull syntax_only)
  = Some ("invalid", 6%Z, "invalid_syntax").
Proof. vm_compute. reflexivity. Qed.

Example verify_two_ats :
  classification
    (verifyEmail quiet_env (JString "user@domain@example.com") syntax_only)
  = Some ("invalid", 6%Z, "invalid_syntax").
Proof. vm_compute. reflexivity. Qed.

Example verify_typo :
  ∃ r, verifyEmail quiet_env (JString "john.doe@yahooo.com") syntax_only
       = Returns r
       ∧ email r = "john.doe@yahooo.com"
       ∧ classification (Returns r) = Some ("invalid", 6%Z, "typo_detected")
       ∧ didyoumean r = Some "john.doe@yahoo.com".
Proof. eexists. split; [vm_compute; reflexivity|]. by split_and!. Qed.

Example verify_valid_syntax_only :
  ∃ r, verifyEmail quiet_env (JString "valid.user@example.com") syntax_only
       = Returns r
       ∧ classification (Returns r)
         = Some ("valid", 1%Z, "syntax_and_mx_valid")
       ∧ domain r = "example.com"
       ∧ didyoumean r = None.
Proof. eexists. split; [vm_compute; reflexivity|]. by split_and!. Qed.

Example race_first_success :
  Verdict.success
  <$> verifyWithSMTP [reply_on 587 250 "250 2.1.5 Ok"; timeout_on 25;
                      timeout_on 465]
  = Some true.
Proof. reflexivity. Qed.

Example verify_negative_timeout :
  verifyEmail silent_env (JString "user@example.com")
    {| checkMX := true; checkSMTP := true; timeout := -1; maxAttempts := 2 |}
  = Pending.
Proof. vm_compute. reflexivity. Qed.

Example verify_all_ports_silent :
  ∃ r, verifyEmail silent_env (JString "user@example.com") default_options
       = Returns r
       ∧ classification (Returns r)
         = Some ("valid", 1%Z, "smtp_blocked_but_mx_valid")
       ∧ smtpBlocked r = true
       ∧ error r = Some "All SMTP ports blocked".
Proof. eexists. split; [vm_compute; reflexivity|]. by split_and!. Qed.

(** ** Edit distance *)

Lemma lev_nil_l y : lev [] y = length y.
Proof. by destruct y. Qed.

Lemma lev_nil_r x : lev x [] = length x.
Proof. by destruct x. Qed.

Lemma lev_cons a x b y :
  lev (a :: x) (b :: y)
  = min3 (lev x (b :: y) + 1) (lev (a :: x) y + 1)
         (lev x y + (if bool_decide (Some a = Some b) then 0 else 1)).
Proof. reflexivity. Qed.

Lemma lev_sym x y : lev x y = lev y x.
Proof.
  revert y. induction x as [|a x IHx]; intros y.
  - by rewrite lev_nil_l, lev_nil_r.
  - induction y as [|b y IHy].
    + by rewrite lev_nil_l, lev_nil_r.
    + rewrite !lev_cons, IHy, !IHx. unfold min3.
      rewrite (Nat.min_comm (lev y (a :: x) + 1)).
      do 2 f_equal. repeat case_bool_decide; congruence.
Qed.

Lemma lev_diag x : lev x x = 0.
Proof.
  induction x as [|a x IHx]; [done|].
  rewrite lev_cons, IHx, bool_decide_eq_true_2 by done.
  unfold min3. lia.
Qed.

Lemma shaped_replicate rows cols :
  shaped rows cols (replicate rows (replicate cols 0)).
Proof.
  split; [by rewrite length_replicate|].
  apply Forall_replicate. by rewrite length_replicate.
Qed.

Lemma mget_replicate rows cols j i :
  mget (replicate rows (replicate cols 0)) j i = 0.
Proof.
  unfold mget.
  destruct (replicate rows (replicate cols 0) !! j) as [row|] eqn:Hj;
    simpl; [|done].
  apply lookup_replicate_1 in Hj as [-> _].
  destruct (replicate cols 0 !! i) as [v|] eqn:Hi; simpl; [|done].
  by apply lookup_replicate_1 in Hi as [-> _].
Qed.

Lemma shaped_mset rows cols m j i v :
  shaped rows cols m → shaped rows cols (mset m j i v).
Proof.
  intros [Hlen Hrows]. unfold mset.
  destruct (m !! j) as [row|] eqn:Hj; [|done].
  split; [by rewrite length_insert|].
  apply Forall_insert; [done|]. rewrite length_insert.
  eapply Forall_lookup_1 in Hrows; [|exact Hj]. done.
Qed.

Lemma mget_mset rows cols m j i v j' i' :
  shaped rows cols m → j < rows → i < cols →
  mget (mset m j i v) j' i'
  = if bool_decide (j' = j ∧ i' = i) then v else mget m j' i'.
Proof.
  intros [Hlen Hrows] Hj Hi. unfold mset, mget.
  destruct (lookup_lt_is_Some_2 m j) as [row Hrow]; [lia|].
  rewrite Hrow.
  assert (length row = cols) as Hrl.
  { eapply Forall_lookup_1 in Hrows; [|exact Hrow]. done. }
  destruct (decide (j' = j)) as [->|Hne].
  - rewrite list_lookup_insert_eq by lia. simpl. rewrite Hrow. simpl.
    destruct (decide (i' = i)) as [->|Hni].
    + rewrite list_lookup_insert_eq by lia.
      by rewrite bool_decide_eq_true_2.
    + rewrite list_lookup_insert_ne by done.
      rewrite bool_decide_eq_false_2; [done|]. intros [_ ?]. done.
  - rewrite list_lookup_insert_ne by done.
    rewrite bool_decide_eq_false_2; [done|]. intros [? _]. done.
Qed.

(** The loop rule for [for_range]. *)
Lemma for_range_ind (P : nat → Matrix → Prop) body from count m :
  P from m →
  (∀ k m', from ≤ k < from + count → P k m' → P (S k) (body m' k)) →
  P (from + count) (for_range from count body m).
Proof.
  unfold for_range. revert from m.
  induction count as [|count IH]; intros from m H0 Hstep; simpl.
  - by rewrite Nat.add_0_r.
  - replace (from + S count) with (S from + count) by lia.
    apply IH.
    + apply Hstep; [lia|done].
    + intros k m' Hk. apply Hstep. lia.
Qed.

Lemma get_list_ascii s i :
  String.get i s = list_ascii_of_string s !! i.
Proof.
  revert i. induction s as [|c s IH]; intros [|i]; simpl; try done.
Qed.

Lemma length_list_ascii s :
  String.length s = length (list_ascii_of_string s).
Proof. induction s; simpl; congruence. Qed.

Section Tabulation.
Variables str1 str2 : string.

Local Abbreviation len1 := (String.length str1).
Local Abbreviation len2 := (String.length str2).
Local Abbreviation cell := (tabulated str1 str2).

Lemma cell_row0 (i : nat) : i ≤ len1 → cell 0 i = i.
Proof.
  intros Hi. unfold tabulated. rewrite take_0. simpl. rewrite lev_nil_r.
  rewrite length_rev, length_take, <- length_list_ascii. lia.
Qed.

Lemma cell_col0 (j : nat) : j ≤ len2 → cell j 0 = j.
Proof.
  intros Hj. unfold tabulated. rewrite take_0. simpl. rewrite lev_nil_l.
  rewrite length_rev, length_take, <- length_list_ascii. lia.
Qed.

Lemma cell_step (j i : nat) :
  1 ≤ j ≤ len2 → 1 ≤ i ≤ len1 →
  cell j i
  = min3 (cell j (i - 1) + 1) (cell (j - 1) i + 1)
      (cell (j - 1) (i - 1)
       + (if bool_decide (String.get (i - 1) str1 = String.get (j - 1) str2)
          then 0 else 1)).
Proof.
  intros Hj Hi.
  destruct j as [|j]; [lia|]. destruct i as [|i]; [lia|].
  replace (S i - 1) with i by lia. replace (S j - 1) with j by lia.
  destruct (lookup_lt_is_Some_2 (list_ascii_of_string str1) i) as [x Hx].
  { rewrite <- length_list_ascii. lia. }
  destruct (lookup_lt_is_Some_2 (list_ascii_of_string str2) j) as [y Hy].
  { rewrite <- length_list_ascii. lia. }
  rewrite !get_list_ascii, Hx, Hy. unfold tabulated.
  rewrite (take_S_r _ _ x), (take_S_r _ _ y) by done.
  by rewrite !rev_unit, lev_cons.
Qed.

Lemma first_row_loop :
  let m := for_range 0 (S len1) (λ m i, mset m 0 i i)
             (replicate (S len2) (replicate (S len1) 0)) in
  shaped (S len2) (S len1) m ∧ ∀ i, i ≤ len1 → mget m 0 i = i.
Proof.
  pose proof (for_range_ind
    (λ k m, shaped (S len2) (S len1) m ∧ ∀ i, i < k → mget m 0 i = i)
    (λ m i, mset m 0 i i) 0 (S len1)
    (replicate (S len2) (replicate (S len1) 0))) as H.
  simpl in H. destruct H as [Hs Hv].
  - split; [apply shaped_replicate|]. intros i Hi. lia.
  - intros k m [Hk1 Hk2] [Hs Hv]. split; [by apply shaped_mset|].
    intros i Hi. rewrite (mget_mset (S len2) (S len1)) by (done || lia).
    case_bool_decide as Hd; [lia|]. apply Hv. lia.
  - split; [done|]. intros i Hi. apply Hv. lia.
Qed.

Lemma first_column_loop m :
  shaped (S len2) (S len1) m → (∀ i, i ≤ len1 → mget m 0 i = i) →
  filled str1 str2 1 0 (for_range 0 (S len2) (λ m j, mset m j 0 j) m).
Proof.
  intros Hs0 Hrow.
  pose proof (for_range_ind
    (λ k m, shaped (S len2) (S len1) m
            ∧ (∀ i, i ≤ len1 → mget m 0 i = i)
            ∧ ∀ j, j < k → mget m j 0 = j)
    (λ m j, mset m j 0 j) 0 (S len2) m) as H.
  simpl in H. destruct H as (Hs & Hr & Hc).
  - split_and!; [done..|]. intros j Hj. lia.
  - intros k m' [Hk1 Hk2] (Hs & Hr & Hc).
    split_and!; [by apply shaped_mset|..].
    + intros i Hi. rewrite (mget_mset (S len2) (S len1)) by (done || lia).
      case_bool_decide as Hd; [|by apply Hr].
      destruct Hd as [<- ->]. done.
    + intros j Hj. rewrite (mget_mset (S len2) (S len1)) by (done || lia).
      case_bool_decide as Hd; [lia|]. apply Hc. lia.
  - split; [done|]. intros j i Hj Hi Hcase.
    destruct (decide (j = 0)) as [->|Hj0].
    + rewrite cell_row0 by done. by apply Hr.
    + assert (i = 0) as -> by lia.
      rewrite cell_col0 by done. apply Hc. lia.
Qed.

Lemma inner_loop m (j : nat) :
  1 ≤ j ≤ len2 → filled str1 str2 j 0 m →
  filled str1 str2 (S j) 0
    (for_range 1 len1 (λ m i,
       let indicator :=
         if bool_decide (String.get (i - 1) str1 = String.get (j - 1) str2)
         then 0 else 1 in
       mset m j i
         (min3 (mget m j (i - 1) + 1) (mget m (j - 1) i + 1)
               (mget m (j - 1) (i - 1) + indicator))) m).
Proof.
  intros Hj Hm.
  match goal with |- filled _ _ _ _ (for_range _ _ ?body _) =>
    pose proof (for_range_ind (λ k m, filled str1 str2 j k m) body 1 len1 m)
      as H
  end.
  destruct H as [Hs Hv].
  - destruct Hm as [Hs Hv]. split; [done|].
    intros j' i Hj' Hi Hcase. apply Hv; [done..|]. lia.
  - intros k m' Hk [Hs Hv]. split; [by apply shaped_mset|].
    intros j' i Hj' Hi Hcase. simpl.
    rewrite (mget_mset (S len2) (S len1)) by (done || lia).
    case_bool_decide as Hd.
    + destruct Hd as [-> ->].
      rewrite !Hv by lia. symmetry. apply cell_step; lia.
    + apply Hv; [done..|]. lia.
  - split; [done|]. intros j' i Hj' Hi Hcase. apply Hv; [done..|]. lia.
Qed.

Lemma levenshteinDistance_cell :
  levenshteinDistance str1 str2 = cell len2 len1.
Proof.
  unfold levenshteinDistance.
  destruct first_row_loop as [Hs Hrow].
  pose proof (first_column_loop _ Hs Hrow) as Hcol.
  match goal with |- mget (for_range 1 _ ?body ?m0) _ _ = _ =>
    pose proof (for_range_ind (λ k m, filled str1 str2 k 0 m) body 1 len2 m0
                  Hcol) as H
  end.
  destruct H as [_ Hv].
  - intros k m' Hk Hm'. apply inner_loop; [lia|done].
  - apply Hv; [done..|]. lia.
Qed.

End Tabulation.

Lemma rev_take_all (s : string) :
  rev (take (String.length s) (list_ascii_of_string s))
  = rev (list_ascii_of_string s).
Proof. by rewrite take_ge by (by rewrite length_list_ascii). Qed.

(** The tabulated value is the recurrence on the whole strings. *)
Lemma levenshteinDistance_lev str1 str2 :
  levenshteinDistance str1 str2
  = lev (rev (list_ascii_of_string str1)) (rev (list_ascii_of_string str2)).
Proof.
  rewrite levenshteinDistance_cell. unfold tabulated.
  by rewrite !rev_take_all.
Qed.

(** C9: the edit distance of a string to itself is 0, the edit distance is
    symmetric, and the edit distance from the empty string to [s] is the
    length of [s]. *)
Theorem levenshteinDistance_laws :
  (∀ s, levenshteinDistance s s = 0)
  ∧ (∀ a b, levenshteinDistance a b = levenshteinDistance b a)
  ∧ (∀ s, levenshteinDistance EmptyString s = String.length s).
Proof.
  split_and!.
  - intros s. by rewrite levenshteinDistance_lev, lev_diag.
  - intros a b. by rewrite !levenshteinDistance_lev, lev_sym.
  - intros s. rewrite levenshteinDistance_lev. simpl.
    by rewrite lev_nil_l, length_rev, length_list_ascii.
Qed.

(** ** Strings *)

Lemma count_app c s t : Str.count c (s +:+ t) = Str.count c s + Str.count c t.
Proof. induction s as [|d s IH]; simpl; [done|]. rewrite IH. lia. Qed.

Lemma count_trimStart c s :
  Str.is_space c = false → Str.count c (Str.trimStart s) = Str.count c s.
Proof.
  intros Hc. induction s as [|d s IH]; simpl; [done|].
  destruct (Str.is_space d) eqn:Hd; [|done].
  rewrite IH. destruct (Ascii.eqb_spec d c) as [->|]; [congruence|done].
Qed.

Lemma trimEnd_empty_count c s :
  Str.is_space c = false → Str.trimEnd s = EmptyString → Str.count c s = 0.
Proof.
  intros Hc. induction s as [|d s IH]; simpl; [done|].
  destruct (Str.trimEnd s) eqn:Hs; [|done].
  destruct (Str.is_space d) eqn:Hd; [|done]. intros _.
  rewrite IH by done.
  destruct (Ascii.eqb_spec d c) as [->|]; [congruence|done].
Qed.

Lemma count_trimEnd c s :
  Str.is_space c = false → Str.count c (Str.trimEnd s) = Str.count c s.
Proof.
  intros Hc. induction s as [|d s IH]; simpl; [done|].
  destruct (Str.trimEnd s) as [|e t] eqn:Hs.
  - rewrite (trimEnd_empty_count c s) by done.
    destruct (Str.is_space d) eqn:Hd; simpl; [|done].
    destruct (Ascii.eqb_spec d c) as [->|]; [congruence|done].
  - cbn [Str.count]. cbn [Str.count] in IH. by rewrite IH.
Qed.

Lemma count_trim c s :
  Str.is_space c = false → Str.count c (Str.trim s) = Str.count c s.
Proof.
  intros Hc. unfold Str.trim. by rewrite count_trimEnd, count_trimStart.
Qed.

Lemma is_space_at : Str.is_space "@" = false.
Proof. reflexivity. Qed.

Lemma trimStart_app_at s t :
  Str.trimStart (s +:+ String "@" t) = Str.trimStart s +:+ String "@" t.
Proof.
  induction s as [|d s IH]; simpl; [done|].
  by destruct (Str.is_space d).
Qed.

Lemma trimEnd_app s t :
  Str.trimEnd t ≠ EmptyString → Str.trimEnd (s +:+ t) = s +:+ Str.trimEnd t.
Proof.
  intros Ht. induction s as [|d s IH]; simpl; [done|].
  rewrite IH.
  change (String d s +:+ Str.trimEnd t) with (String d (s +:+ Str.trimEnd t)).
  destruct (s +:+ Str.trimEnd t) eqn:Hs; [|done].
  destruct s; [done|discriminate].
Qed.

(** [split] and [count] *)
Lemma split_length c s : length (Str.split c s).2 = Str.count c s.
Proof.
  induction s as [|d s IH]; simpl; [done|].
  destruct (Str.split c s) as [hd tl]. simpl in IH.
  destruct (Ascii.eqb d c); simpl; lia.
Qed.

Lemma split_no_sep c s : Str.count c s = 0 → Str.split c s = (s, []).
Proof.
  induction s as [|d s IH]; simpl; [done|].
  destruct (Ascii.eqb d c); [lia|]. intros H. by rewrite IH.
Qed.

Lemma split_app c s t :
  Str.count c s = 0 →
  Str.split c (s +:+ String c t)
  = (s, (Str.split c t).1 :: (Str.split c t).2).
Proof.
  induction s as [|d s IH]; simpl.
  - intros _. rewrite Ascii.eqb_refl. by destruct (Str.split c t).
  - destruct (Ascii.eqb d c) eqn:Hd; [lia|]. intros H.
    by rewrite IH.
Qed.

(** A string is rebuilt from its first two pieces when it has one
    separator. *)
Lemma split_one c s :
  Str.count c s = 1 →
  ∃ hd tl, Str.split c s = (hd, [tl]) ∧ s = hd +:+ String c tl
           ∧ Str.count c hd = 0 ∧ Str.count c tl = 0.
Proof.
  induction s as [|d s IH]; simpl; [done|].
  destruct (Ascii.eqb_spec d c) as [->|Hne]; intros H.
  - exists EmptyString, s. rewrite split_no_sep by lia. split_and!; try done. lia.
  - destruct IH as (hd & tl & Hs & -> & Hhd & Htl); [lia|].
    exists (String d hd), tl. rewrite Hs. simpl.
    destruct (Ascii.eqb_spec d c); [done|]. done.
Qed.

Lemma truthy_includes c s : Str.includes_char c s = true → Str.truthy s = true.
Proof. by destruct s. Qed.

(** ** Syntax validation: the [@] count (C8) *)

Lemma validate_at_count s :
  Str.count "@" s ≠ 1 → is_valid (validateEmailSyntax (JString s)) = false.
Proof.
  intros Hc. unfold validateEmailSyntax. cbn [js_truthy].
  destruct (Str.truthy s); [|done]. simpl negb. cbv iota.
  destruct (254 <? _); [done|].
  rewrite count_trim by done.
  destruct (Nat.eqb_spec (Str.count "@" s) 1); [done|]. done.
Qed.

(** C8, as amended: a string whose number of [@] characters is not 1 is
    rejected; when it is not empty and its trimmed length is at most 254,
    the error is the exactly-one-[@] message with the count found. *)
Theorem validateEmailSyntax_at_count s :
  Str.count "@" s ≠ 1 →
  is_valid (validateEmailSyntax (JString s)) = false
  ∧ (s ≠ EmptyString → String.length (Str.trim s) ≤ 254 →
     validateEmailSyntax (JString s)
     = Invalid (at_count_message (Str.count "@" s))).
Proof.
  intros Hc. split; [by apply validate_at_count|].
  intros Hne Hlen. unfold validateEmailSyntax. cbn [js_truthy].
  destruct s as [|d s]; [done|]. cbn [Str.truthy negb].
  cbv iota.
  destruct (Nat.ltb_spec 254 (String.length (Str.trim (String d s)))); [lia|].
  rewrite count_trim by done.
  destruct (Nat.eqb_spec (Str.count "@" (String d s)) 1); [done|]. done.
Qed.

Lemma validateEmailSyntax_at_count_witness :
  Str.count "@" "user@@example.com" ≠ 1
  ∧ is_valid (validateEmailSyntax (JString "user@@example.com")) = false
  ∧ validateEmailSyntax (JString "user@@example.com")
    = Invalid "Email must contain exactly one @ symbol (found 2)".
Proof.
  assert (Str.count "@" "user@@example.com" ≠ 1) as H by (vm_compute; lia).
  destruct (validateEmailSyntax_at_count "user@@example.com" H) as [H1 H2].
  split_and!; [done..|].
  apply H2; [done|vm_compute; lia].
Defined.

(** The empty string has no [@], and its error is the emptiness message,
    not the exactly-one-[@] message. *)
Lemma validateEmailSyntax_empty_string :
  Str.count "@" EmptyString = 0
  ∧ validateEmailSyntax (JString EmptyString) = Invalid "Email is empty"
  ∧ validateEmailSyntax (JString EmptyString) ≠ Invalid (at_count_message 0).
Proof. split_and!; [done..|]. vm_compute. discriminate. Qed.

(** ** The typo table: exact matches (C7, C10) *)

Lemma assoc_lookup key table v :
  assoc key table = Some v → (key, v) ∈ table.
Proof.
  induction table as [|[k w] table IH]; simpl; [done|].
  destruct (String.eqb_spec k key) as [->|].
  - intros [= ->]. apply list_elem_of_here.
  - intros H. apply list_elem_of_further. by apply IH.
Qed.

Lemma COMMON_TYPOS_truthy :
  Forall (λ entry, Str.truthy entry.2 = true) COMMON_TYPOS.
Proof. repeat constructor. Qed.

Lemma COMMON_TYPOS_get_own domain correct :
  assoc domain COMMON_TYPOS = Some correct →
  COMMON_TYPOS_get domain = OwnString correct
  ∧ Str.truthy correct = true.
Proof.
  intros H. unfold COMMON_TYPOS_get. rewrite H. split; [done|].
  apply assoc_lookup in H.
  by apply (proj1 (Forall_forall _ _) COMMON_TYPOS_truthy) in H.
Qed.

(** The exact-match branch, whatever the distance function. *)
Lemma suggest_exact dist email localPart domain rest correct :
  Str.split "@" email = (localPart, domain :: rest) →
  assoc domain COMMON_TYPOS = Some correct →
  suggestCorrection_with dist (JString email)
  = Some {| suggested := localPart +:+ "@" +:+ correct; distance := 0 |}.
Proof.
  intros Hsplit Hown. unfold suggestCorrection_with.
  assert (Str.count "@" email = S (length rest)) as Hcount.
  { rewrite <- split_length, Hsplit. done. }
  assert (Str.includes_char "@" email = true) as Hinc.
  { unfold Str.includes_char. by rewrite Hcount. }
  rewrite Hinc, (truthy_includes _ _ Hinc). cbn [negb orb].
  unfold split_email. rewrite Hsplit.
  destruct (COMMON_TYPOS_get_own _ _ Hown) as [-> Ht].
  cbn [property_truthy property_text]. by rewrite Ht.
Qed.

(** C7: when the domain of the address is a key of the typo table,
    [suggestCorrection] returns the local part joined with the mapped
    domain at distance 0, and the answer is the same whatever the distance
    function (the scan is not consulted); [getDidYouMean] maps
    [user@gmial.com] to [user@gmail.com] and [user@gmail.com] to [null]. *)
Theorem suggestCorrection_exact_match :
  (∀ email localPart domain rest correct,
     Str.split "@" email = (localPart, domain :: rest) →
     assoc domain COMMON_TYPOS = Some correct →
     suggestCorrection (JString email)
     = Some {| suggested := localPart +:+ "@" +:+ correct; distance := 0 |}
     ∧ ∀ dist,
         suggestCorrection_with dist (JString email)
         = suggestCorrection (JString email))
  ∧ getDidYouMean (JString "user@gmial.com") = Some "user@gmail.com"
  ∧ getDidYouMean (JString "user@gmail.com") = None.
Proof.
  split_and!.
  - intros email localPart domain rest correct Hsplit Hown.
    unfold suggestCorrection.
    split; [by eapply suggest_exact|].
    intros dist. by erewrite !suggest_exact.
  - vm_compute. reflexivity.
  - vm_compute. reflexivity.
Qed.

Lemma suggestCorrection_exact_match_witness :
  Str.split "@" "user@gmial.com" = ("user", ["gmial.com"])
  ∧ assoc "gmial.com" COMMON_TYPOS = Some "gmail.com"
  ∧ suggestCorrection (JString "user@gmial.com")
    = Some {| suggested := "user@gmail.com"; distance := 0 |}.
Proof.
  split_and!; [reflexivity..|].
  destruct suggestCorrection_exact_match as [H _].
  apply (H "user@gmial.com" "user" "gmial.com" [] "gmail.com");
    reflexivity.
Defined.

(** The self-mapped entry. *)
Lemma trim_aol L :
  Str.trim (L +:+ "@aol.com") = Str.trimStart L +:+ "@aol.com".
Proof.
  unfold Str.trim. rewrite trimStart_app_at.
  by rewrite trimEnd_app.
Qed.

Lemma suggest_aol L :
  Str.count "@" L = 0 →
  suggestCorrection (JString (L +:+ "@aol.com"))
  = Some {| suggested := L +:+ "@aol.com"; distance := 0 |}.
Proof.
  intros HL. unfold suggestCorrection.
  apply (suggest_exact _ _ L "aol.com" [] "aol.com"); [|done].
  by rewrite split_app.
Qed.

Lemma getDidYouMean_aol L :
  Str.count "@" L = 0 → Str.trimStart L = L →
  getDidYouMean (JString (L +:+ "@aol.com")) = Some (L +:+ "@aol.com").
Proof.
  intros HL Htrim. unfold getDidYouMean.
  assert (Str.truthy (L +:+ "@aol.com") = true) as -> by by destruct L.
  cbn [negb]. rewrite trim_aol, Htrim, suggest_aol by done. done.
Qed.

(** ** The port race (C4) *)

Lemma N_pos_nonzero (n : N) : (0 <? n)%N = negb (n =? 0)%N.
Proof. destruct n; reflexivity. Qed.

Lemma verifyWithSMTP_settles p1 p2 p3 : is_Some (verifyWithSMTP [p1; p2; p3]).
Proof.
  unfold verifyWithSMTP. cbn [foldl]. unfold on_probe at 3.
  cbn [resolved race_start results pending settled].
  destruct (Probe.success p1); [|destruct (is_definitive _)].
  1,2: by cbn; eauto.
  cbn. unfold on_probe at 2. cbn.
  destruct (Probe.success p2); [|destruct (is_definitive _)].
  1,2: by cbn; eauto.
  unfold on_probe. cbn.
  destruct (Probe.success p3); [|destruct (is_definitive _)]; cbn; eauto.
Qed.

(** C4, as amended: when the three probes of a server finish and none of
    them succeeded or came back with a code in 550..599, the verdict is
    built from the first finished outcome with a nonzero response code if
    there is one, else from the first finished outcome: it carries that
    outcome's success flag, code and port, and the outcome itself in
    [lastError]; its message is the outcome's when some port answered, and
    "All SMTP ports blocked" when every port was silent; and
    [allPortsBlocked] is true exactly when every finished outcome has
    response code 0. *)
Theorem verifyWithSMTP_no_winner (finished : list Probe.t) :
  length finished = length ports →
  Forall (λ o, Probe.success o = false
               ∧ is_definitive (Probe.responseCode o) = false) finished →
  ∃ best v,
    preferred finished = Some best
    ∧ verifyWithSMTP finished = Some v
    ∧ Verdict.lastError v = Some best
    ∧ Verdict.success v = Probe.success best
    ∧ Verdict.responseCode v = Probe.responseCode best
    ∧ Verdict.port v = Probe.port best
    ∧ Verdict.message v
      = (if Verdict.allPortsBlocked v then "All SMTP ports blocked"
         else Probe.message best)
    ∧ (Verdict.allPortsBlocked v = true
       ↔ ∀ o, o ∈ finished → Probe.responseCode o = 0%N).
Proof.
  intros Hlen Hall.
  destruct finished as [|p1 [|p2 [|p3 [|]]]]; try discriminate Hlen.
  apply Forall_cons in Hall as [[Hs1 Hd1] Hall].
  apply Forall_cons in Hall as [[Hs2 Hd2] Hall].
  apply Forall_cons in Hall as [[Hs3 Hd3] _].
  unfold verifyWithSMTP. cbn [foldl].
  unfold on_probe at 3. simpl. rewrite Hs1, Hd1.
  unfold on_probe at 2. simpl. rewrite Hs2, Hd2.
  unfold on_probe. simpl. rewrite Hs3, Hd3.
  unfold preferred. simpl.
  rewrite !N_pos_nonzero.
  assert (∀ o, o ∈ [p1; p2; p3] ↔ o = p1 ∨ o = p2 ∨ o = p3) as Hin.
  { intros o. rewrite !elem_of_cons, elem_of_nil. tauto. }
  destruct (N.eqb_spec (Probe.responseCode p1) 0) as [E1|E1];
    destruct (N.eqb_spec (Probe.responseCode p2) 0) as [E2|E2];
    destruct (N.eqb_spec (Probe.responseCode p3) 0) as [E3|E3];
    cbn [negb andb];
    eexists _, _; (split_and!; [reflexivity..|]);
    cbn [Verdict.allPortsBlocked];
    (split; [intros Hb o Ho; apply Hin in Ho as [-> | [-> | ->]];
                done || discriminate Hb
            |intros Ho; try reflexivity; exfalso]).
  all: first [ apply E1, Ho, Hin; by left
             | apply E2, Ho, Hin; by right; left
             | apply E3, Ho, Hin; by right; right ].
Qed.

Lemma verifyWithSMTP_no_winner_witness :
  ∃ v, verifyWithSMTP
         [timeout_on 587; reply_on 25 451 "451 try later"; timeout_on 465]
       = Some v
       ∧ Verdict.responseCode v = 451%N
       ∧ Verdict.allPortsBlocked v = false.
Proof.
  destruct (verifyWithSMTP_no_winner
              [timeout_on 587; reply_on 25 451 "451 try later"; timeout_on 465])
    as (best & v & Hbest & Hv & _ & _ & Hcode & _ & _ & Hblocked).
  - reflexivity.
  - repeat constructor.
  - exists v. split; [exact Hv|].
    injection Hbest as <-. split; [exact Hcode|].
    destruct (Verdict.allPortsBlocked v); [|reflexivity].
    assert (Probe.responseCode (reply_on 25 451 "451 try later") = 0%N)
      as Habs.
    { apply Hblocked; [reflexivity|].
      apply elem_of_cons. right. apply elem_of_cons. by left. }
    discriminate Habs.
Defined.

(** C4, as written, fails where every port is silent: no outcome succeeded
    or is definitive, the preferred outcome is the first one, and the
    verdict agrees with it in success flag, code and port, but not in its
    message, which the racer replaces. *)
Lemma verifyWithSMTP_all_silent :
  let finished := [timeout_on 25; timeout_on 587; timeout_on 465] in
  Forall (λ o, Probe.success o = false
               ∧ is_definitive (Probe.responseCode o) = false) finished
  ∧ preferred finished = Some (timeout_on 25)
  ∧ Probe.message (timeout_on 25) = "Port 25: timeout"
  ∧ ∃ v, verifyWithSMTP finished = Some v
         ∧ Verdict.success v = Probe.success (timeout_on 25)
         ∧ Verdict.responseCode v = Probe.responseCode (timeout_on 25)
         ∧ Verdict.port v = Probe.port (timeout_on 25)
         ∧ Verdict.allPortsBlocked v = true
         ∧ Verdict.message v = "All SMTP ports blocked"
         ∧ Verdict.message v ≠ Probe.message (timeout_on 25).
Proof.
  cbn zeta. split_and!; [by repeat constructor|reflexivity..|].
  eexists. split; [vm_compute; reflexivity|]. by split_and!.
Qed.

(** ** The body of [verifyEmail] *)

(** With a timeout that is not negative every race settles. *)
Lemma smtpRun_raced env i address mxServer tmo :
  (0 ≤ tmo)%Z →
  ∃ p1 p2 p3, smtpRun env i address mxServer tmo = Raced p1 p2 p3.
Proof.
  intros Htmo. unfold smtpRun.
  destruct (Z.ltb_spec tmo 0); [lia|].
  destruct (probes env i address mxServer tmo) as [[p1 p2] p3]. eauto.
Qed.

(** With a negative timeout no race settles. *)
Lemma smtpRun_unsettled env i address mxServer tmo :
  (tmo < 0)%Z → smtpRun env i address mxServer tmo = Unsettled.
Proof. intros Htmo. unfold smtpRun. by destruct (Z.ltb_spec tmo 0); [|lia]. Qed.

Lemma smtp_loop_settles env address tmo servers i st :
  (0 ≤ tmo)%Z → smtp_loop env address tmo i servers st ≠ Pending.
Proof.
  intros Htmo.
  revert i st. induction servers as [|mxServer rest IH]; intros i st; [done|].
  cbn [smtp_loop].
  destruct (smtpRun_raced env i address mxServer tmo Htmo)
    as (p1 & p2 & p3 & ->).
  destruct (verifyWithSMTP_settles p1 p2 p3) as [v ->].
  destruct (Verdict.success v); [done|].
  destruct (is_definitive _); [done|]. apply IH.
Qed.

(** The server loop ends or hangs; it never throws. *)
Lemma smtp_loop_no_throw env address tmo servers i st msg :
  smtp_loop env address tmo i servers st ≠ Throws msg.
Proof.
  revert i st. induction servers as [|mxServer rest IH]; intros i st; [done|].
  cbn [smtp_loop].
  destruct (smtpRun env i address mxServer tmo) as [p1 p2 p3|]; [|done].
  destruct (verifyWithSMTP _) as [v|]; [|done].
  destruct (Verdict.success v); [done|].
  destruct (is_definitive _); [done|]. apply IH.
Qed.

Lemma validate_Valid_inv email :
  validateEmailSyntax email = Valid →
  ∃ s, email = JString s ∧ Str.count "@" (Str.trim s) = 1.
Proof.
  unfold validateEmailSyntax. destruct (negb (js_truthy email)); [done|].
  destruct email; try done. intros H. eexists; split; [done|].
  destruct (254 <? _); [done|].
  destruct (Nat.eqb_spec (Str.count "@" (Str.trim s)) 1); done.
Qed.

Lemma split_email_one s :
  Str.count "@" s = 1 →
  ∃ localPart domain,
    split_email s = Some (localPart, domain)
    ∧ s = localPart +:+ String "@" domain.
Proof.
  intros (hd & tl & Hs & -> & _)%split_one.
  exists hd, tl. unfold split_email. by rewrite Hs.
Qed.

Lemma interpretSMTPCode_not_typo code :
  interpretSMTPCode code ≠ "typo_detected".
Proof. unfold interpretSMTPCode. repeat case_match; discriminate. Qed.

Lemma classify_smtp_no_typo r st :
  didyoumean r = None → no_typo (classify_smtp r st).
Proof.
  intros Hd. pose proof (interpretSMTPCode_not_typo (lastResponseCode st)).
  unfold classify_smtp, no_typo.
  repeat case_match; cbn; split; done.
Qed.

Lemma after_typo_check env options domain address r :
  no_typo r →
  match
    match mx_step env options domain r with
    | inl exit => exit
    | inr r' => smtp_step env options address r'
    end
  with
  | TryReturn r' => no_typo r'
  | TryThrow r' _ => didyoumean r' = None
  | TryHang => (timeout options < 0)%Z
  end.
Proof.
  intros [Hd Hs]. unfold mx_step, getMXRecords.
  assert (∀ r', didyoumean r' = None → subresult r' ≠ "typo_detected" →
    match smtp_step env options address r' with
    | TryReturn r'' => no_typo r''
    | TryThrow r'' _ => didyoumean r'' = None
    | TryHang => (timeout options < 0)%Z
    end) as Hsmtp.
  { intros r' Hd' Hs'. unfold smtp_step.
    destruct (checkSMTP options && _).
    - destruct (smtp_loop _ _ _ _ _ _) eqn:Hloop.
      + cbn. by apply classify_smtp_no_typo.
      + done.
      + destruct (Z.lt_ge_cases (timeout options) 0) as [Hneg|Hpos];
          [done|]. by apply smtp_loop_settles in Hloop.
    - destruct (negb _); cbn; split; done. }
  destruct (checkMX options); [|by apply Hsmtp].
  destruct (resolveMx env domain) as [records| |msg].
  - destruct (length records =? 0) eqn:Hlen.
    + cbn. split; done.
    + destruct (length (map _ _) =? 0); [cbn; split; done|].
      by apply Hsmtp.
  - cbn. split; done.
  - cbn. split; done.
Qed.

(** ** The self-mapped entry of the typo table (C10) *)

Lemma verifyEmail_aol_no_typo env L options :
  match verifyEmail env (JString (L +:+ "@aol.com")) options with
  | Returns r => no_typo r
  | Throws _ => False
  | Pending => (timeout options < 0)%Z
  end.
Proof.
  unfold verifyEmail. cbn [optional_trim]. unfold verify_try.
  destruct (validateEmailSyntax _) as [|msg] eqn:Hv.
  - apply validate_Valid_inv in Hv as (s & [= <-] & Hcount).
    rewrite trim_aol in Hcount |- *.
    assert (Str.count "@" (Str.trimStart L) = 0) as HL.
    { rewrite count_app in Hcount. cbn in Hcount. lia. }
    assert (split_email (Str.trimStart L +:+ "@aol.com")
            = Some (Str.trimStart L, "aol.com")) as ->.
    { unfold split_email. by rewrite split_app. }
    rewrite suggest_aol by done. cbn [suggested].
    rewrite String.eqb_refl. cbn [negb].
    match goal with
    | |- context [mx_step ?e ?o ?d ?r] =>
        pose proof (after_typo_check e o d
                      (Str.trimStart L +:+ "@aol.com") r) as Hexit
    end.
    destruct (match mx_step _ _ _ _ with inl _ => _ | inr _ => _ end)
      as [r|r msg|].
    + apply Hexit. split; done.
    + split; cbn; [|done]. apply Hexit. split; done.
    + apply Hexit. split; done.
  - split; done.
Qed.

(** C10: for every local part [L] (a string without [@] that trimming
    leaves alone), [getDidYouMean] maps [L@aol.com] to itself, a non-null
    string.  As for [verifyEmail], whatever [L], the options and the
    network: the call never rejects; a result it returns is not
    [typo_detected] and has [didyoumean] null; and it does return a result
    when the [timeout] option is not negative (with a negative one the
    call can stay pending in the SMTP stage, past the typo check). *)
Theorem aol_self_mapping :
  (∀ L, Str.count "@" L = 0 → Str.trimStart L = L →
     getDidYouMean (JString (L +:+ "@aol.com")) = Some (L +:+ "@aol.com"))
  ∧ (∀ env L options,
       (∀ r, verifyEmail env (JString (L +:+ "@aol.com")) options = Returns r →
             subresult r ≠ "typo_detected" ∧ didyoumean r = None)
       ∧ (∀ msg, verifyEmail env (JString (L +:+ "@aol.com")) options
                 ≠ Throws msg)
       ∧ ((0 ≤ timeout options)%Z →
          ∃ r, verifyEmail env (JString (L +:+ "@aol.com")) options
               = Returns r)).
Proof.
  split.
  - apply getDidYouMean_aol.
  - intros env L options.
    pose proof (verifyEmail_aol_no_typo env L options) as H.
    destruct (verifyEmail env (JString (L +:+ "@aol.com")) options)
      as [r|msg|]; split_and!; try done.
    + intros r' [= <-]. by destruct H.
    + by exists r.
    + intros Htmo. lia.
Qed.

Lemma aol_self_mapping_witness :
  Str.count "@" "bob" = 0 ∧ Str.trimStart "bob" = "bob"
  ∧ getDidYouMean (JString "bob@aol.com") = Some "bob@aol.com"
  ∧ (0 ≤ timeout default_options)%Z
  ∧ ∃ r, verifyEmail silent_env (JString "bob@aol.com") default_options
         = Returns r
         ∧ subresult r ≠ "typo_detected" ∧ didyoumean r = None.
Proof.
  split; [reflexivity|]. split; [reflexivity|]. split; [|split].
  - destruct aol_self_mapping as [H _].
    apply (H "bob"); reflexivity.
  - vm_compute. discriminate.
  - destruct aol_self_mapping as [_ H].
    destruct (H silent_env "bob" default_options) as (Hno & _ & Hret).
    destruct Hret as [r Hr]; [vm_compute; discriminate|].
    exists r. split; [exact Hr|]. by apply Hno.
Defined.

(** ** The SMTP check without the MX check (C5) *)

(** C5: for an address that passes syntax validation and for which the
    typo corrector has nothing different to suggest, [verifyEmail] with
    [checkMX = false] and [checkSMTP = true] enters neither the SMTP branch
    ([smtpChecked] stays false, the SMTP step stays "Skipped") nor the
    [checkSMTP = false] branch, and returns the initial classification
    [unknown] / 3 / [unknown]. *)
Theorem verifyEmail_smtp_without_mx env s options :
  validateEmailSyntax (JString s) = Valid →
  (∀ suggestion,
     suggestCorrection (JString (Str.trim s)) = Some suggestion →
     suggested suggestion = Str.trim s) →
  checkMX options = false →
  checkSMTP options = true →
  ∃ r, verifyEmail env (JString s) options = Returns r
       ∧ result r = "unknown" ∧ resultcode r = 3%Z
       ∧ subresult r = "unknown"
       ∧ smtpChecked r = false
       ∧ verificationMethod r = "unknown"
       ∧ smtp (steps r) = {| Step.valid := None; Step.message := "Skipped" |}.
Proof.
  intros Hv Htypo Hmx Hsmtp.
  unfold verifyEmail. cbn [optional_trim]. unfold verify_try. rewrite Hv.
  apply validate_Valid_inv in Hv as (s' & [= <-] & Hcount).
  destruct (split_email_one _ Hcount) as (localPart & domain & -> & _).
  destruct (suggestCorrection _) as [suggestion|] eqn:Hsug.
  - rewrite (Htypo _ eq_refl), String.eqb_refl. cbn [negb].
    unfold mx_step, smtp_step. rewrite Hmx, Hsmtp. cbn.
    eexists. split_and!; reflexivity.
  - unfold mx_step, smtp_step. rewrite Hmx, Hsmtp. cbn.
    eexists. split_and!; reflexivity.
Qed.

Lemma verifyEmail_smtp_without_mx_witness :
  ∃ r, verifyEmail quiet_env (JString "user@example.com")
         {| checkMX := false; checkSMTP := true;
            timeout := 2500; maxAttempts := 2 |} = Returns r
       ∧ result r = "unknown" ∧ resultcode r = 3%Z
       ∧ subresult r = "unknown".
Proof.
  destruct (verifyEmail_smtp_without_mx quiet_env "user@example.com"
              {| checkMX := false; checkSMTP := true;
                 timeout := 2500; maxAttempts := 2 |})
    as (r & Hr & H1 & H2 & H3 & _).
  - vm_compute. reflexivity.
  - intros suggestion H. vm_compute in H. discriminate H.
  - reflexivity.
  - reflexivity.
  - exists r. split_and!; assumption.
Defined.

(** ** The fuzzy scan (C6) *)

Section Scan.
Variable dist : string → string → nat.
Variables localPart domain : string.

Lemma fuzzy_step_invariant seen st entry :
  scan_invariant dist localPart domain seen st →
  scan_invariant dist localPart domain (seen ++ [entry])
    (fuzzy_step dist localPart domain st entry).
Proof.
  intros [Hle Hst]. destruct entry as [typo correct].
  unfold fuzzy_step, scan_invariant.
  destruct (Nat.leb_spec (dist domain typo) (bestDistance st)) as [Hd|Hd];
    destruct (String.eqb_spec correct domain) as [Heq|Hne]; cbn [andb negb].
  - (* skipped: the correction is the input domain *)
    split; [done|]. destruct (bestMatch st) as [sg|].
    + destruct Hst as (before & e & after & (-> & Hc & Hb & Ha) & -> & Hbd).
      exists before, e, (after ++ [(typo, correct)]).
      unfold last_nearest. split_and!; try done.
      * rewrite <- app_assoc. reflexivity.
      * intros e' [He'|He']%elem_of_app Hc'; [by apply Ha|].
        apply list_elem_of_singleton in He' as ->.
        destruct Hc' as [_ Hc']. done.
    + destruct Hst as [Hbd Hnone]. split; [done|].
      intros e' [He'|He']%elem_of_app; [by apply Hnone|].
      apply list_elem_of_singleton in He' as ->. intros [_ Hc']. done.
  - (* taken *)
    split; [cbn; lia|]. cbn [bestMatch bestDistance].
    exists seen, (typo, correct), [].
    unfold last_nearest. split_and!; try done.
    + split; [cbn; lia|done].
    + intros e' He' Hc'. cbn [fst].
      destruct (bestMatch st) as [sg|].
      * destruct Hst as (before & e & after & (-> & Hc & Hb & Ha) & -> & Hbd).
        apply elem_of_app in He' as [He'|He'].
        { specialize (Hb _ He' Hc'). lia. }
        apply elem_of_cons in He' as [->|He']; [lia|].
        specialize (Ha _ He' Hc'). lia.
      * destruct Hst as [_ Hnone]. by destruct (Hnone _ He').
    + intros e' He'. by apply elem_of_nil in He'.
  - (* skipped: farther, and the correction is the input domain *)
    split; [done|]. destruct (bestMatch st) as [sg|].
    + destruct Hst as (before & e & after & (-> & Hc & Hb & Ha) & -> & Hbd).
      exists before, e, (after ++ [(typo, correct)]).
      unfold last_nearest. split_and!; try done.
      * rewrite <- app_assoc. reflexivity.
      * intros e' [He'|He']%elem_of_app Hc'; [by apply Ha|].
        apply list_elem_of_singleton in He' as ->.
        destruct Hc' as [_ Hc']. done.
    + destruct Hst as [Hbd Hnone]. split; [done|].
      intros e' [He'|He']%elem_of_app; [by apply Hnone|].
      apply list_elem_of_singleton in He' as ->. intros [_ Hc']. done.
  - (* skipped: farther than the best so far *)
    split; [done|]. destruct (bestMatch st) as [sg|].
    + destruct Hst as (before & e & after & (-> & Hc & Hb & Ha) & -> & Hbd).
      exists before, e, (after ++ [(typo, correct)]).
      unfold last_nearest. split_and!; try done.
      * rewrite <- app_assoc. reflexivity.
      * intros e' [He'|He']%elem_of_app Hc'; [by apply Ha|].
        apply list_elem_of_singleton in He' as ->. cbn [fst]. lia.
    + destruct Hst as [Hbd Hnone]. split; [done|].
      intros e' [He'|He']%elem_of_app; [by apply Hnone|].
      apply list_elem_of_singleton in He' as ->.
      intros [Hc' _]. cbn [fst] in Hc'. lia.
Qed.

Lemma fuzzy_scan_invariant table :
  scan_invariant dist localPart domain table
    (fuzzy_scan dist table localPart domain).
Proof.
  unfold fuzzy_scan. induction table as [|entry table IH] using rev_ind.
  - split; [done|]. split; [done|]. intros e He. by apply elem_of_nil in He.
  - rewrite foldl_app. cbn [foldl]. by apply fuzzy_step_invariant.
Qed.

(** The outcome of the scan. *)
Lemma fuzzy_scan_result table :
  match bestMatch (fuzzy_scan dist table localPart domain) with
  | None => ∀ e, e ∈ table → ¬ candidate dist domain e
  | Some sg =>
      ∃ before entry after,
        last_nearest dist domain table before entry after
        ∧ sg = {| suggested := localPart +:+ "@" +:+ entry.2;
                  distance := dist domain entry.1 |}
  end.
Proof.
  destruct (fuzzy_scan_invariant table) as [_ H].
  destruct (bestMatch _) as [sg|].
  - destruct H as (before & entry & after & Hl & -> & _). eauto.
  - by destruct H.
Qed.

End Scan.

(** C6, as amended: for an address whose domain is no property of the
    typo table ([COMMON_TYPOS[domain]] is undefined), [suggestCorrection]
    returns [null] when no entry is a candidate (distance at most 2 and a
    correction different from the domain), and otherwise the suggestion
    built from the candidate of minimal distance; when several candidates
    share the minimal distance, it is the last of them in table order. *)
Theorem suggestCorrection_fuzzy email localPart domain :
  split_email email = Some (localPart, domain) →
  COMMON_TYPOS_get domain = Undefined →
  match suggestCorrection (JString email) with
  | None =>
      ∀ e, e ∈ COMMON_TYPOS → ¬ candidate levenshteinDistance domain e
  | Some sg =>
      ∃ before entry after,
        last_nearest levenshteinDistance domain COMMON_TYPOS
          before entry after
        ∧ sg = {| suggested := localPart +:+ "@" +:+ entry.2;
                  distance := levenshteinDistance domain entry.1 |}
  end.
Proof.
  intros Hsplit Hget. unfold suggestCorrection, suggestCorrection_with.
  assert (Str.includes_char "@" email = true) as Hinc.
  { unfold split_email in Hsplit. unfold Str.includes_char.
    rewrite <- split_length.
    by destruct (Str.split "@" email) as [hd [|tl rest]]. }
  rewrite Hinc, (truthy_includes _ _ Hinc). cbn [negb orb].
  rewrite Hsplit, Hget. cbn [property_truthy].
  apply fuzzy_scan_result.
Qed.

Lemma suggestCorrection_fuzzy_witness :
  split_email "user@hotmal.com" = Some ("user", "hotmal.com")
  ∧ COMMON_TYPOS_get "hotmal.com" = Undefined
  ∧ match suggestCorrection (JString "user@hotmal.com") with
    | None =>
        ∀ e, e ∈ COMMON_TYPOS
             → ¬ candidate levenshteinDistance "hotmal.com" e
    | Some sg =>
        ∃ before entry after,
          last_nearest levenshteinDistance "hotmal.com" COMMON_TYPOS
            before entry after
          ∧ sg = {| suggested := "user" +:+ "@" +:+ entry.2;
                    distance := levenshteinDistance "hotmal.com" entry.1 |}
    end.
Proof.
  split_and!; [reflexivity..|].
  apply (suggestCorrection_fuzzy "user@hotmal.com" "user" "hotmal.com");
    reflexivity.
Defined.

(** For [xml.com], no key of the table, the entries [gmil.com] and
    [aol.com] tie at the minimal distance 2: the first of them would give
    [u@gmail.com], the code answers [u@aol.com].  For [constructor], no key
    of the table either, the scan finds no candidate, yet the code answers
    from the exact-match branch with distance 0. *)
Lemma suggestCorrection_tie_and_inherited :
  COMMON_TYPOS_get "xml.com" = Undefined
  ∧ map (λ e, levenshteinDistance "xml.com" e.1) COMMON_TYPOS
    = [3; 3; 2; 4; 4; 3; 6; 4; 6; 5; 6; 4; 5; 7; 5; 7; 5; 6; 9; 2]
  ∧ scan_first_nearest levenshteinDistance COMMON_TYPOS "u" "xml.com"
    = Some {| suggested := "u@gmail.com"; distance := 2 |}
  ∧ suggestCorrection (JString "u@xml.com")
    = Some {| suggested := "u@aol.com"; distance := 2 |}
  ∧ assoc "constructor" COMMON_TYPOS = None
  ∧ scan_first_nearest levenshteinDistance COMMON_TYPOS "u" "constructor"
    = None
  ∧ distance <$> suggestCorrection (JString "u@constructor") = Some 0.
Proof. split_and!; vm_compute; reflexivity. Qed.

(** ** The server loop and the classifier (C2, C3) *)

Lemma SmtpLoop_eta st :
  st = {| smtpSuccess := smtpSuccess st;
          lastResponseCode := lastResponseCode st;
          lastMessage := lastMessage st;
          loopBlocked := loopBlocked st;
          loopMethod := loopMethod st |}.
Proof. by destruct st. Qed.

Lemma smtp_loop_done env address tmo servers i st st' :
  smtp_loop env address tmo i servers st = Returns st' →
  match last (verdicts_obtained env address tmo i servers) with
  | None => st' = st
  | Some v =>
      st' = loop_state_after st
              (verdicts_obtained env address tmo i servers) v
  end.
Proof.
  revert i st. induction servers as [|mxServer rest IH]; intros i st.
  { cbn. by intros [= ->]. }
  cbn [smtp_loop verdicts_obtained].
  destruct (smtpRun env i address mxServer tmo) as [p1 p2 p3|]; [|done].
  destruct (verifyWithSMTP [p1; p2; p3]) as [v|]; [|done].
  destruct (Verdict.success v) eqn:Hs.
  { intros [= <-]. cbn. unfold loop_state_after. rewrite Hs. cbn.
    by destruct (Verdict.allPortsBlocked v), (loopBlocked st). }
  destruct (is_definitive (Verdict.responseCode v)) eqn:Hd.
  { intros [= <-]. cbn. unfold loop_state_after. rewrite Hs, Hd. cbn.
    by destruct (Verdict.allPortsBlocked v), (loopBlocked st). }
  cbn [orb]. intros Hloop. specialize (IH _ _ Hloop). cbn in IH.
  destruct (verdicts_obtained env address tmo (S i) rest) as [|v' vs'] eqn:Hvs.
  - cbn in IH. subst st'. cbn. unfold loop_state_after.
    rewrite Hs, Hd. cbn.
    by destruct (Verdict.allPortsBlocked v), (loopBlocked st).
  - rewrite last_cons. destruct (last (v' :: vs')) as [w|] eqn:Hlast.
    + subst st'. unfold loop_state_after. cbn. f_equal.
      by destruct (Verdict.allPortsBlocked v), (loopBlocked st).
    + by apply last_None in Hlast.
Qed.

Lemma smtp_loop_hung env address tmo servers i st v :
  smtp_loop env address tmo i servers st = Pending →
  last (verdicts_obtained env address tmo i servers) = Some v →
  Verdict.success v = false
  ∧ is_definitive (Verdict.responseCode v) = false.
Proof.
  revert i st. induction servers as [|mxServer rest IH]; intros i st; [done|].
  cbn [smtp_loop verdicts_obtained].
  destruct (smtpRun env i address mxServer tmo) as [p1 p2 p3|]; [|done].
  destruct (verifyWithSMTP [p1; p2; p3]) as [w|]; [|done].
  destruct (Verdict.success w) eqn:Hs; [done|].
  destruct (is_definitive (Verdict.responseCode w)) eqn:Hd; [done|].
  cbn [orb]. intros Hloop Hlast. rewrite last_cons in Hlast.
  destruct (last (verdicts_obtained env address tmo (S i) rest))
    as [w'|] eqn:Hl.
  - injection Hlast as ->. by eapply IH.
  - by injection Hlast as ->.
Qed.

(** What the classifier makes of the loop variables. *)
Lemma classify_smtp_rejected r st :
  smtpSuccess st = false → loopBlocked st = false →
  (550 <= lastResponseCode st <= 553)%N →
  result (classify_smtp r st) = "invalid"
  ∧ resultcode (classify_smtp r st) = 6%Z
  ∧ subresult (classify_smtp r st)
    = (if (lastResponseCode st =? 552)%N then "unknown_response"
       else "mailbox_does_not_exist").
Proof.
  intros Hs Hb Hcode. unfold classify_smtp. rewrite Hs, Hb.
  assert (lastResponseCode st = 550 ∨ lastResponseCode st = 551
          ∨ lastResponseCode st = 552 ∨ lastResponseCode st = 553)%N
    as [-> | [-> | [-> | ->]]] by lia;
    cbn; by destruct (Str.truthy (lastMessage st)).
Qed.

Lemma classify_smtp_fallback r st :
  subresult (classify_smtp r st) = "smtp_blocked_but_mx_valid"
  ↔ smtpSuccess st = false ∧ loopBlocked st = true.
Proof.
  unfold classify_smtp.
  assert (interpretSMTPCode (lastResponseCode st)
          ≠ "smtp_blocked_but_mx_valid") as Hne.
  { unfold interpretSMTPCode. repeat case_match; discriminate. }
  destruct (smtpSuccess st), (loopBlocked st);
    repeat case_match; cbn; split; try done; intros [??]; done.
Qed.

(** The classification the [catch] block assigns. *)
Lemma verify_catch_classification env r msg :
  result (verify_catch env r msg) = "unknown"
  ∧ resultcode (verify_catch env r msg) = 3%Z
  ∧ subresult (verify_catch env r msg) = "verification_error"
  ∧ error (verify_catch env r msg) = Some msg.
Proof. done. Qed.

(** A call of [verifyEmail] that reaches the server loop. *)
Section SmtpBranch.
Variables (env : Env) (s : string) (options : VerificationOptions).
Variables (localPart domain : string) (servers : list string).

Hypothesis syntax_ok : validateEmailSyntax (JString s) = Valid.
Hypothesis pieces : split_email (Str.trim s) = Some (localPart, domain).
Hypothesis no_typo_found :
  ∀ suggestion,
    suggestCorrection (JString (Str.trim s)) = Some suggestion →
    suggested suggestion = Str.trim s.
Hypothesis mx_checked : checkMX options = true.
Hypothesis smtp_checked : checkSMTP options = true.
Hypothesis mx_found : getMXRecords (resolveMx env) domain = Returns servers.
Hypothesis mx_not_empty : servers ≠ [].

(** The verdicts the call obtains from the servers it tries. *)
Let obtained : list Verdict.t :=
  verdicts_obtained env (Str.trim s) (timeout options) 0
    (servers_to_try (maxAttempts options) servers).

Lemma verifyEmail_smtp_branch :
  ∃ r1 st0,
    smtpSuccess st0 = false ∧ loopBlocked st0 = false
    ∧ verifyEmail env (JString s) options
      = match smtp_loop env (Str.trim s) (timeout options) 0
                (servers_to_try (maxAttempts options) servers) st0 with
        | Returns st => Returns (stamp env (classify_smtp r1 st))
        | Throws msg => Returns (verify_catch env r1 msg)
        | Pending => Pending
        end.
Proof using All.
  unfold verifyEmail. cbn [optional_trim]. unfold verify_try.
  rewrite syntax_ok, pieces.
  assert (match suggestCorrection (JString (Str.trim s)) with
          | Some suggestion =>
              if negb (String.eqb (suggested suggestion) (Str.trim s))
              then Some (suggested suggestion) else None
          | None => None
          end = None) as ->.
  { destruct (suggestCorrection _) as [sg|] eqn:Hsg; [|done].
    by rewrite (no_typo_found _ eq_refl), String.eqb_refl. }
  unfold mx_step. rewrite mx_checked, mx_found.
  destruct servers as [|mx1 rest]; [done|]. cbn [length Nat.eqb].
  unfold smtp_step. rewrite smtp_checked. cbn [mxRecords set_smtpChecked
    set_steps_mx set_steps set_mxRecords length Nat.ltb Nat.leb andb].
  match goal with
  | |- context [smtp_loop _ _ _ _ _ ?st0] =>
      match goal with
      | |- context [classify_smtp ?r1 _] => exists r1, st0
      end
  end.
  split_and!; [reflexivity..|].
  by destruct (smtp_loop _ _ _ _ _ _).
Qed.

(** C2, as amended: in a call that reaches the server loop, when no verdict
    obtained reports all ports blocked and the last verdict is a failure
    with a response code in 550..553, [verifyEmail] returns [invalid] / 6;
    the subresult is [mailbox_does_not_exist] for 550, 551 and 553, and
    [unknown_response] for 552. *)
Theorem verifyEmail_mailbox_rejected (vs : list Verdict.t) (v : Verdict.t) :
  obtained = vs ++ [v] →
  Verdict.success v = false →
  (∀ w, w ∈ obtained → Verdict.allPortsBlocked w = false) →
  (550 <= Verdict.responseCode v <= 553)%N →
  ∃ r, verifyEmail env (JString s) options = Returns r
       ∧ result r = "invalid"
       ∧ resultcode r = 6%Z
       ∧ subresult r
         = (if (Verdict.responseCode v =? 552)%N then "unknown_response"
            else "mailbox_does_not_exist").
Proof using All.
  intros Hobtained Hfail Hopen Hcode.
  destruct verifyEmail_smtp_branch as (r1 & st0 & Hs0 & Hb0 & ->).
  assert (last obtained = Some v) as Hlast.
  { rewrite Hobtained. apply last_snoc. }
  assert (is_definitive (Verdict.responseCode v) = true) as Hdef.
  { unfold is_definitive. apply andb_true_iff. split.
    - apply N.leb_le. lia.
    - apply N.ltb_lt. lia. }
  assert (existsb Verdict.allPortsBlocked obtained = false) as Hnone.
  { apply not_true_is_false. intros (w & Hw & Hbw)%existsb_exists.
    apply list_elem_of_In in Hw. rewrite (Hopen _ Hw) in Hbw. done. }
  destruct (smtp_loop _ _ _ _ _ _) as [st|msg|] eqn:Hloop.
  - apply smtp_loop_done in Hloop. fold obtained in Hloop.
    rewrite Hlast in Hloop. subst st.
    eexists. split; [reflexivity|].
    unfold stamp.
    apply (classify_smtp_rejected r1 (loop_state_after st0 obtained v)).
    + cbn. by rewrite Hfail.
    + cbn. by rewrite Hb0, Hnone.
    + done.
  - by apply smtp_loop_no_throw in Hloop.
  - destruct (smtp_loop_hung _ _ _ _ _ _ v Hloop Hlast) as [_ Hnd].
    congruence.
Qed.

(** What the code does: the blocked fallback is produced exactly when the
    last verdict is not a success and some verdict obtained, the last one
    or an earlier one, reports all ports blocked. *)
Lemma verifyEmail_fallback_iff (r : VerificationResult) (v : Verdict.t) :
  last obtained = Some v →
  verifyEmail env (JString s) options = Returns r →
  subresult r ≠ "verification_error" →
  subresult r = "smtp_blocked_but_mx_valid"
  ↔ Verdict.success v = false
    ∧ existsb Verdict.allPortsBlocked obtained = true.
Proof using All.
  intros Hlast.
  destruct verifyEmail_smtp_branch as (r1 & st0 & Hs0 & Hb0 & ->).
  destruct (smtp_loop _ _ _ _ _ _) as [st|msg|] eqn:Hloop; [| |done].
  - apply smtp_loop_done in Hloop. fold obtained in Hloop.
    rewrite Hlast in Hloop. subst st. intros [= <-] _.
    unfold stamp. change (subresult (set_executiontime ?x _))
      with (subresult x).
    rewrite classify_smtp_fallback. cbn. rewrite Hs0, Hb0. cbn.
    by destruct (Verdict.success v).
  - intros [= <-] Hne. by destruct Hne.
Qed.

End SmtpBranch.

Lemma verifyEmail_mailbox_rejected_witness :
  ∃ r, verifyEmail rejecting_env (JString "user@example.com") default_options
       = Returns r
       ∧ result r = "invalid" ∧ resultcode r = 6%Z
       ∧ subresult r = "mailbox_does_not_exist".
Proof.
  pose (v := verdict_of_winner (reply_on 25 550 "550 5.1.1 User unknown")).
  assert (verdicts_obtained rejecting_env (Str.trim "user@example.com")
            (timeout default_options) 0
            (servers_to_try (maxAttempts default_options)
               ["mx1.example.com"]) = [] ++ [v]) as Hobtained
    by (vm_compute; reflexivity).
  apply verifyEmail_mailbox_rejected
    with (localPart := "user") (domain := "example.com")
         (servers := ["mx1.example.com"]) (vs := []) (v := v).
  - vm_compute. reflexivity.
  - vm_compute. reflexivity.
  - intros suggestion H. vm_compute in H. discriminate H.
  - reflexivity.
  - reflexivity.
  - vm_compute. reflexivity.
  - discriminate.
  - exact Hobtained.
  - reflexivity.
  - intros w Hw. rewrite Hobtained in Hw.
    apply list_elem_of_singleton in Hw. rewrite Hw. reflexivity.
  - vm_compute. split; discriminate.
Defined.

Lemma verifyEmail_code_552 :
  verdicts_obtained mailbox_full_env "user@example.com" 2500 0
    ["mx1.example.com"]
  = [ {| Verdict.success := false; Verdict.responseCode := 552;
         Verdict.message := "552 5.2.2 Mailbox full"; Verdict.port := 25;
         Verdict.allPortsBlocked := false; Verdict.lastError := None |} ]
  ∧ classification
      (verifyEmail mailbox_full_env (JString "user@example.com")
         default_options)
    = Some ("invalid", 6%Z, "unknown_response").
Proof. split; vm_compute; reflexivity. Qed.

(** C3, at the failing input: the first exchanger is silent on every port,
    the second rejects the recipient with 550.  The last verdict obtained
    has [allPortsBlocked = false], yet the call ends in the blocked
    fallback ([valid] / 1 / [smtp_blocked_but_mx_valid],
    [dns_lookup_fallback], SMTP step [null]) while its error field carries
    the rejection. *)
Theorem verifyEmail_blocked_then_rejected :
  verdicts_obtained blocked_then_rejecting_env "user@example.com" 2500 0
    ["mx1.example.com"; "mx2.example.com"]
  = [ {| Verdict.success := false; Verdict.responseCode := 0;
         Verdict.message := "All SMTP ports blocked"; Verdict.port := 25;
         Verdict.allPortsBlocked := true;
         Verdict.lastError := Some (timeout_on 25) |};
      {| Verdict.success := false; Verdict.responseCode := 550;
         Verdict.message := "550 5.1.1 User unknown"; Verdict.port := 25;
         Verdict.allPortsBlocked := false; Verdict.lastError := None |} ]
  ∧ ∃ r,
      verifyEmail blocked_then_rejecting_env (JString "user@example.com")
        default_options = Returns r
      ∧ mxRecords r = ["mx1.example.com"; "mx2.example.com"]
      ∧ result r = "valid" ∧ resultcode r = 1%Z
      ∧ subresult r = "smtp_blocked_but_mx_valid"
      ∧ verificationMethod r = "dns_lookup_fallback"
      ∧ Step.valid (smtp (steps r)) = None
      ∧ error r = Some "550 5.1.1 User unknown".
Proof.
  split; [vm_compute; reflexivity|].
  eexists. split; [vm_compute; reflexivity|].
  split_and!; reflexivity.
Qed.

(** ** Values that are not strings (C1) *)

(** C1, at the failing input: for an object whose [trim] property is not
    a function, [verifyEmail] throws (its promise rejects) instead of
    returning a result, although [validateEmailSyntax] rejects the same
    value as "not a string". *)
Theorem verifyEmail_uncallable_trim env options :
  verifyEmail env (JObject TrimNotCallable) options
  = Throws "email?.trim is not a function"
  ∧ validateEmailSyntax (JObject TrimNotCallable)
    = Invalid "Email must be a string".
Proof. split; reflexivity. Qed.

Lemma classify_smtp_populated env r st :
  timestamp r = isoTime env → populated env (stamp env (classify_smtp r st)).
Proof.
  intros Ht. unfold classify_smtp, populated.
  repeat case_match; cbn; split_and!; try done; tauto.
Qed.

Lemma after_typo_check_populated env options domain address r :
  timestamp r = isoTime env →
  result r = "unknown" → resultcode r = 3%Z →
  match
    match mx_step env options domain r with
    | inl exit => exit
    | inr r' => smtp_step env options address r'
    end
  with
  | TryReturn r' => populated env r'
  | TryThrow r' _ => timestamp r' = isoTime env
  | TryHang => (timeout options < 0)%Z
  end.
Proof.
  intros Ht Hr Hc. unfold mx_step, getMXRecords.
  assert (∀ r', timestamp r' = isoTime env →
    result r' = "unknown" → resultcode r' = 3%Z →
    match smtp_step env options address r' with
    | TryReturn r'' => populated env r''
    | TryThrow r'' _ => timestamp r'' = isoTime env
    | TryHang => (timeout options < 0)%Z
    end) as Hsmtp.
  { intros r' Ht' Hr' Hc'. unfold smtp_step.
    destruct (checkSMTP options && _).
    - destruct (smtp_loop _ _ _ _ _ _) eqn:Hloop.
      + by apply classify_smtp_populated.
      + done.
      + destruct (Z.lt_ge_cases (timeout options) 0) as [Hneg|Hpos];
          [done|]. by apply smtp_loop_settles in Hloop.
    - destruct (negb _); cbn; unfold populated; cbn; split_and!;
        try done; tauto. }
  destruct (checkMX options); [|by apply Hsmtp].
  destruct (resolveMx env domain) as [records| |msg].
  - destruct (length records =? 0) eqn:Hlen.
    + unfold populated; cbn. split_and!; try done; tauto.
    + destruct (length (map _ _) =? 0);
        [unfold populated; cbn; split_and!; try done; tauto|].
      by apply Hsmtp.
  - unfold populated; cbn. split_and!; try done; tauto.
  - unfold populated; cbn. split_and!; try done; tauto.
Qed.

(** With a timeout that is not negative, every value other than an object
    whose [trim] property cannot be called, or throws, gets a populated
    result. *)
Lemma verifyEmail_returns env email options :
  (0 ≤ timeout options)%Z →
  (∀ msg, optional_trim email ≠ Throws msg) →
  ∃ r, verifyEmail env email options = Returns r ∧ populated env r.
Proof.
  intros Htmo Htrim. unfold verifyEmail.
  destruct (optional_trim email) as [trimmed|msg|] eqn:Ht.
  2: by destruct (Htrim msg).
  2: by destruct email as [| | | | | |[]].
  unfold verify_try.
  destruct (validateEmailSyntax email) as [|msg] eqn:Hv.
  - apply validate_Valid_inv in Hv as (s & -> & Hcount).
    destruct (split_email_one _ Hcount) as (localPart & domain & -> & _).
    destruct (match suggestCorrection _ with Some _ => _ | None => _ end).
    + eexists. split; [done|]. unfold populated; cbn. tauto.
    + match goal with
      | |- context [mx_step ?e ?o ?d ?r] =>
          pose proof (after_typo_check_populated e o d (Str.trim s) r)
            as Hexit
      end.
      destruct (match mx_step _ _ _ _ with inl _ => _ | inr _ => _ end)
        as [r|r msg|].
      * exists r. split; [done|]. by apply Hexit.
      * eexists. split; [done|]. unfold populated; cbn.
        split_and!; [by apply Hexit|done|tauto].
      * specialize (Hexit eq_refl eq_refl eq_refl). lia.
  - eexists. split; [done|]. unfold populated; cbn. tauto.
Qed.

(** ** The dialogue of [tryPort] *)

Lemma session_snoc email port events e :
  session email port (events ++ [e])
  = on_event email port (session email port events) e.
Proof. unfold session. by rewrite foldl_app. Qed.

Lemma session_app email port events more :
  session email port (events ++ more)
  = foldl (on_event email port) (session email port events) more.
Proof. unfold session. by rewrite foldl_app. Qed.

(** Handlers never change a settled promise. *)
Lemma on_event_settled email port st e o :
  Session.outcome st = Some o →
  Session.outcome (on_event email port st e) = Some o.
Proof.
  intros Ho. destruct e as [data| |msg|]; cbn.
  - unfold on_data. repeat case_match; cbn; done.
  - by rewrite Ho.
  - by rewrite Ho.
  - unfold on_timer. case_match; cbn; [done|]. by rewrite Ho.
Qed.

Lemma foldl_settled email port st events o :
  Session.outcome st = Some o →
  Session.outcome (foldl (on_event email port) st events) = Some o.
Proof.
  revert st. induction events as [|e events IH]; intros st Ho; [done|].
  cbn. apply IH. by apply on_event_settled.
Qed.

(** Data events settle nothing and leave the timer armed. *)
Lemma session_data_only email port events :
  Forall (λ e, settling e = false) events →
  Session.outcome (session email port events) = None
  ∧ Session.timerCleared (session email port events) = false.
Proof.
  induction events as [|e events IH] using rev_ind; [done|].
  intros [Hev He]%Forall_app. rewrite Forall_singleton in He.
  destruct (IH Hev) as [Ho Ht]. rewrite session_snoc.
  destruct e as [data| | |]; try discriminate He. cbn.
  unfold on_data. repeat case_match; cbn; done.
Qed.

Lemma on_data_code email st data :
  reply_code (Session.responseCode st) →
  reply_code (Session.responseCode (on_data email st data)).
Proof.
  intros Hst. unfold on_data.
  destruct (Text.parseInt _) as [code|]; [|done].
  destruct (Z.eqb_spec code 220); [done|].
  destruct (Z.eqb_spec code 250) as [->|].
  { repeat case_match; cbn; try done. right. by left. }
  destruct (400 <=? code)%Z eqn:H1; [|cbn; case_match; done].
  destruct (code <? 600)%Z eqn:H2; [|cbn; case_match; done].
  cbn. right. right. unfold reply_code. lia.
Qed.

Lemma on_end_outcome port st :
  Session.outcome (on_end port st)
  = Some (default (end_probe port st) (Session.outcome st)).
Proof. unfold on_end, resolve. cbn. by destruct (Session.outcome st). Qed.

Lemma on_error_outcome port st msg :
  Session.outcome (on_error port st msg)
  = Some (default (silent_probe port msg) (Session.outcome st)).
Proof. unfold on_error, resolve. cbn. by destruct (Session.outcome st). Qed.

Lemma on_timer_outcome port st :
  Session.timerCleared st = false →
  Session.outcome (on_timer port st)
  = Some (default (silent_probe port "timeout") (Session.outcome st)).
Proof.
  intros Ht. unfold on_timer, resolve. rewrite Ht. cbn.
  by destruct (Session.outcome st).
Qed.

Lemma on_data_outcome email st data :
  Session.outcome (on_data email st data) = Session.outcome st.
Proof. unfold on_data. repeat case_match; done. Qed.

Lemma silent_probe_ok port cause : probe_ok port (silent_probe port cause).
Proof. split_and!; [done|by left|done]. Qed.

Lemma end_probe_ok port st :
  reply_code (Session.responseCode st) → probe_ok port (end_probe port st).
Proof.
  intros Hc. split_and!; [done..|]. cbn. unfold reply_code in Hc. split.
  - intros [H1 H2]%andb_true_iff.
    apply N.leb_le in H1. apply N.ltb_lt in H2. lia.
  - by intros ->.
Qed.

(** The invariant of the dialogue: the code recorded so far is 0, 250 or a
    4xx/5xx code, and a settled promise holds a well-formed outcome. *)
Lemma session_invariant email port events :
  reply_code (Session.responseCode (session email port events))
  ∧ ∀ o, Session.outcome (session email port events) = Some o →
         probe_ok port o.
Proof.
  induction events as [|e events [IHc IHo]] using rev_ind.
  { split; [by left|done]. }
  rewrite session_snoc.
  destruct e as [data| |msg|]; cbn [on_event].
  - split; [by apply on_data_code|].
    intros o. rewrite on_data_outcome. apply IHo.
  - split; [done|]. intros o. rewrite on_end_outcome.
    destruct (Session.outcome _) as [o0|]; intros [= <-].
    + by apply IHo.
    + by apply end_probe_ok.
  - split; [done|]. intros o. rewrite on_error_outcome.
    destruct (Session.outcome _) as [o0|]; intros [= <-].
    + by apply IHo.
    + apply silent_probe_ok.
  - destruct (Session.timerCleared (session email port events)) eqn:Ht.
    + unfold on_timer. rewrite Ht. done.
    + split; [unfold on_timer; by rewrite Ht|].
      intros o. rewrite on_timer_outcome by done.
      destruct (Session.outcome _) as [o0|]; intros [= <-].
      * by apply IHo.
      * apply silent_probe_ok.
Qed.

(** A resolved promise is a settled dialogue under a timeout that is not
    negative. *)
Lemma tryPort_resolved email mxServer port tmo events o :
  tryPort email mxServer port tmo events = Resolved o
  ↔ (0 ≤ tmo)%Z ∧ Session.outcome (session email port events) = Some o.
Proof.
  unfold tryPort. destruct (Z.ltb_spec tmo 0).
  - split; [done|]. intros [? _]. lia.
  - destruct (Session.outcome _) as [o'|]; split.
    + intros [= ->]. by split.
    + by intros [_ [= ->]].
    + done.
    + by intros [_ ?].
Qed.

Lemma probe_ok_resolved email mxServer port tmo events o :
  tryPort email mxServer port tmo events = Resolved o → probe_ok port o.
Proof.
  intros [_ Ho]%tryPort_resolved. by apply session_invariant in Ho.
Qed.

(** X1: whatever the socket delivers, an outcome [tryPort] resolves to
    carries the port probed and a response code that is 0, 250 or in
    400..599, and reports success exactly when that code is 250. *)
Theorem tryPort_outcome email mxServer port timeout events o :
  tryPort email mxServer port timeout events = Resolved o →
  probe_ok port o.
Proof. apply probe_ok_resolved. Qed.

Lemma tryPort_outcome_witness :
  probe_ok 25 {| Probe.success := true; Probe.responseCode := 250;
                 Probe.message := "250 2.1.5 RCPT TO ok";
                 Probe.port := 25 |}.
Proof.
  apply (tryPort_outcome "u@e.com" "mx1.e.com" 25 2500
           [OnData "220 mx ready"; OnData "250-mx Hello EHLO";
            OnData "250 2.1.0 MAIL FROM ok"; OnData "250 2.1.5 RCPT TO ok";
            OnData "221 bye"; OnEnd]).
  vm_compute. reflexivity.
Defined.

Lemma session_first_settling email port before e after :
  Forall (λ e, settling e = false) before →
  settling e = true →
  Session.outcome (session email port (before ++ e :: after))
  = Some (first_outcome email port before e).
Proof.
  intros Hbefore He.
  rewrite (session_app _ _ before (e :: after)). cbn [foldl].
  apply foldl_settled.
  destruct (session_data_only email port before Hbefore) as [Ho Ht].
  destruct e as [data| |msg|]; try discriminate He; cbn [on_event].
  - by rewrite on_end_outcome, Ho.
  - by rewrite on_error_outcome, Ho.
  - by rewrite on_timer_outcome, Ho.
Qed.

(** X2: with a timeout that is not negative, the first [end], [error] or
    timer event decides: after data events only, the promise resolves to
    what that event's handler builds, whatever comes later; and when that
    event is an error or the timer, the outcome has response code 0, even
    if a reply code had been read before. *)
Theorem tryPort_first_settling email mxServer port timeout before e after :
  (0 ≤ timeout)%Z →
  Forall (λ e, settling e = false) before →
  settling e = true →
  tryPort email mxServer port timeout (before ++ e :: after)
  = Resolved (first_outcome email port before e)
  ∧ (e ≠ OnEnd →
     Probe.responseCode (first_outcome email port before e) = 0%N).
Proof.
  intros Htmo Hbefore He. split.
  - apply tryPort_resolved. split; [done|].
    by apply session_first_settling.
  - by destruct e.
Qed.

Lemma tryPort_first_settling_witness :
  tryPort "u@e.com" "mx1.e.com" 587 2500
    ([OnData "220 mx ready"; OnData "250-mx EHLO"; OnData "250 MAIL FROM ok";
      OnData "250 RCPT TO ok"] ++ OnTimer :: [OnData "221 bye"; OnEnd])
  = Resolved {| Probe.success := false; Probe.responseCode := 0;
                Probe.message := "Port 587: timeout"; Probe.port := 587 |}.
Proof.
  apply (tryPort_first_settling "u@e.com" "mx1.e.com" 587 2500
           [OnData "220 mx ready"; OnData "250-mx EHLO";
            OnData "250 MAIL FROM ok"; OnData "250 RCPT TO ok"]
           OnTimer [OnData "221 bye"; OnEnd]).
  - lia.
  - repeat constructor.
  - reflexivity.
Defined.



Lemma on_data_accepts email st data :
  Session.responseCode (on_data email st data) = 250%N →
  Session.responseCode st = 250%N ∨ echoes_rcpt data.
Proof.
  unfold on_data, echoes_rcpt.
  destruct (Text.parseInt _) as [code|]; [|by left].
  destruct (Z.eqb_spec code 220); [by left|].
  destruct (Z.eqb_spec code 250) as [->|].
  { destruct (_ || _); [by left|].
    destruct (Text.includes "MAIL FROM" _); [by left|].
    destruct (Text.includes "RCPT TO" _); [by right|by left]. }
  destruct (400 <=? code)%Z eqn:H1; [|cbn; case_match; by left].
  destruct (code <? 600)%Z eqn:H2; [|cbn; case_match; by left].
  cbn. lia.
Qed.

Lemma session_accepts email port events :
  let st := session email port events in
  (Session.responseCode st = 250%N ∨
   (∃ o, Session.outcome st = Some o ∧ Probe.responseCode o = 250%N)) →
  ∃ data, OnData data ∈ events ∧ echoes_rcpt data.
Proof.
  induction events as [|e events IH] using rev_ind.
  { cbn. intros [?|(o & ? & _)]; done. }
  cbn zeta in *. rewrite session_snoc.
  assert (∀ P : Prop, (∃ data, OnData data ∈ events ∧ echoes_rcpt data)
          → ∃ data, OnData data ∈ events ++ [e] ∧ echoes_rcpt data) as Hmono.
  { intros _ (data & Hin & Hd). exists data. split; [|done].
    apply elem_of_app. by left. }
  destruct e as [data| |msg|]; cbn [on_event].
  - rewrite on_data_outcome. intros [Hc|Ho].
    + apply on_data_accepts in Hc as [Hc|Hd].
      * apply (Hmono True), IH. by left.
      * exists data. split; [|done]. apply elem_of_app. right.
        by apply list_elem_of_singleton.
    + apply (Hmono True), IH. by right.
  - rewrite on_end_outcome. intros [Hc|(o & [= <-] & Ho)].
    + apply (Hmono True), IH. by left.
    + apply (Hmono True), IH.
      destruct (Session.outcome _) as [o0|]; [right; eauto|by left].
  - rewrite on_error_outcome. intros [Hc|(o & [= <-] & Ho)].
    + apply (Hmono True), IH. by left.
    + apply (Hmono True), IH.
      destruct (Session.outcome _) as [o0|]; [right; eauto|done].
  - unfold on_timer.
    destruct (Session.timerCleared _); [intros H; by apply (Hmono True), IH|].
    cbn. intros [Hc|(o & Ho & Hcode)]; [apply (Hmono True), IH; by left|].
    apply (Hmono True), IH.
    destruct (Session.outcome _) as [o0|]; [right; injection Ho as ->; eauto|].
    by injection Ho as <-.
Qed.

(** X4: [tryPort] reports success only if the server sent a reply with
    code 250 whose text contains [RCPT TO]: a 250 to [RCPT TO] that does
    not repeat the command is not taken as an acceptance. *)
Theorem tryPort_success_needs_echo email mxServer port timeout events o :
  tryPort email mxServer port timeout events = Resolved o →
  Probe.success o = true →
  ∃ data, OnData data ∈ events ∧ echoes_rcpt data.
Proof.
  intros [_ Ho]%tryPort_resolved Hs.
  apply (session_accepts email port events). right.
  exists o. split; [done|].
  apply session_invariant in Ho as (_ & _ & Hiff). by apply Hiff.
Qed.

Lemma tryPort_success_needs_echo_witness :
  ∃ data,
    OnData data
    ∈ [OnData "220 mx ready"; OnData "250-mx Hello EHLO";
       OnData "250 2.1.0 MAIL FROM ok"; OnData "250 2.1.5 RCPT TO ok";
       OnData "221 bye"; OnEnd]
    ∧ echoes_rcpt data.
Proof.
  apply (tryPort_success_needs_echo "u@e.com" "mx1.e.com" 25 2500
           [OnData "220 mx ready"; OnData "250-mx Hello EHLO";
            OnData "250 2.1.0 MAIL FROM ok"; OnData "250 2.1.5 RCPT TO ok";
            OnData "221 bye"; OnEnd]
           {| Probe.success := true; Probe.responseCode := 250;
              Probe.message := "250 2.1.5 RCPT TO ok"; Probe.port := 25 |}).
  - vm_compute. reflexivity.
  - reflexivity.
Defined.

(** X5: whatever the server sends, the dialogue writes nothing but the
    four commands [EHLO], [MAIL FROM], [RCPT TO] for the address probed and
    [QUIT], and at most one line for each chunk of data received. *)
Theorem tryPort_writes email port events :
  Forall (λ line, line ∈ commands email)
         (Session.written (session email port events))
  ∧ length (Session.written (session email port events))
    ≤ length (data_events events).
Proof.
  induction events as [|e events [IHw IHl]] using rev_ind; [by split|].
  rewrite session_snoc. unfold data_events in *. rewrite filter_app, length_app.
  assert (EHLO ∈ commands email) as H1 by (apply elem_of_cons; by left).
  assert (MAIL_FROM ∈ commands email) as H2
    by (apply elem_of_cons; right; apply elem_of_cons; by left).
  assert (RCPT_TO email ∈ commands email) as H3
    by (do 2 (apply elem_of_cons; right); apply elem_of_cons; by left).
  assert (QUIT ∈ commands email) as H4
    by (do 3 (apply elem_of_cons; right); apply elem_of_cons; by left).
  destruct e as [data| |msg|]; cbn [on_event].
  - rewrite filter_cons_True by done. cbn [length].
    unfold on_data. repeat case_match; cbn [Session.written write
      record_reply set_flags]; rewrite ?length_app; cbn [length];
      (split; [|lia]); try done;
      apply Forall_app; (split; [done|]); by apply Forall_singleton.
  - rewrite filter_cons_False by done. cbn. split; [done|lia].
  - rewrite filter_cons_False by done. cbn. split; [done|lia].
  - rewrite filter_cons_False by done. unfold on_timer.
    case_match; cbn; (split; [done|lia]).
Qed.

(** ** The port race, continued *)

Lemma race_snoc finished p :
  foldl on_probe race_start (finished ++ [p])
  = on_probe (foldl on_probe race_start finished) p.
Proof. by rewrite foldl_app. Qed.

(** The race while no winner has come and a port is still out. *)
Lemma race_waiting finished :
  length finished < length ports →
  Forall (λ o, winner o = false) finished →
  foldl on_probe race_start finished
  = {| pending := Z.of_nat (length ports) - Z.of_nat (length finished);
       resolved := false; results := finished; settled := None |}.
Proof.
  induction finished as [|p finished IH] using rev_ind; [done|].
  rewrite length_app. cbn [length]. intros Hlen [Hf Hp]%Forall_app.
  rewrite Forall_singleton in Hp. apply orb_false_iff in Hp as [Hs Hd].
  rewrite race_snoc, IH by (done || lia).
  unfold on_probe. cbn [resolved results pending settled]. rewrite Hs, Hd.
  change (length ports) with 3 in *.
  destruct (Z.eqb_spec (Z.of_nat 3 - Z.of_nat (length finished) - 1) 0);
    [lia|].
  f_equal. lia.
Qed.

(** A settled promise stays as it is. *)
Lemma on_probe_settled st p v :
  settled st = Some v → settled (on_probe st p) = Some v.
Proof.
  intros Hv. unfold on_probe. repeat case_match; cbn; by rewrite ?Hv.
Qed.

Lemma race_settled st more v :
  settled st = Some v → settled (foldl on_probe st more) = Some v.
Proof.
  revert st. induction more as [|p more IH]; intros st Hv; [done|].
  cbn [foldl]. apply IH. by apply on_probe_settled.
Qed.

Lemma race_first_winner before w after :
  length before < length ports →
  Forall (λ o, winner o = false) before →
  winner w = true →
  verifyWithSMTP (before ++ w :: after) = Some (verdict_of_winner w).
Proof.
  intros Hlen Hbefore Hw. unfold verifyWithSMTP.
  rewrite foldl_app, race_waiting by done. cbn [foldl].
  apply race_settled.
  unfold on_probe. cbn [resolved results pending settled mainResolve].
  unfold winner in Hw.
  destruct (Probe.success w); [done|]. cbn in Hw. by rewrite Hw.
Qed.

Lemma first_winner_split (l : list Probe.t) :
  Forall (λ o, winner o = false) l
  ∨ ∃ before w after, l = before ++ w :: after
      ∧ Forall (λ o, winner o = false) before ∧ winner w = true.
Proof.
  induction l as [|p l IH]; [by left|].
  destruct (winner p) eqn:Hp.
  - right. by exists [], p, l.
  - destruct IH as [IH|(before & w & after & -> & Hb & Hw)].
    + left. by constructor.
    + right. exists (p :: before), w, after. split_and!; [done| |done].
      by constructor.
Qed.

Lemma race_all_answered finished :
  length ports ≤ length finished → is_Some (verifyWithSMTP finished).
Proof.
  intros Hge. destruct finished as [|p1 [|p2 [|p3 rest]]]; cbn in Hge; try lia.
  destruct (verifyWithSMTP_settles p1 p2 p3) as [v Hv].
  exists v. unfold verifyWithSMTP in *.
  change (p1 :: p2 :: p3 :: rest) with ([p1; p2; p3] ++ rest).
  rewrite foldl_app. by apply race_settled.
Qed.

(** X6: the first probe to resolve with a success or with a code in
    550..599 decides the race: the verdict is that outcome, with
    [allPortsBlocked] false, whatever the probes still out resolve to
    later. *)
Theorem verifyWithSMTP_first_winner before w after :
  length before < length ports →
  Forall (λ o, winner o = false) before →
  winner w = true →
  verifyWithSMTP (before ++ w :: after) = Some (verdict_of_winner w)
  ∧ Verdict.allPortsBlocked (verdict_of_winner w) = false.
Proof. intros. split; [by apply race_first_winner|done]. Qed.

Lemma verifyWithSMTP_first_winner_witness :
  verifyWithSMTP
    ([timeout_on 465] ++ reply_on 25 250 "250 2.1.5 Ok"
       :: [reply_on 587 550 "550 no such user"])
  = Some (verdict_of_winner (reply_on 25 250 "250 2.1.5 Ok")).
Proof.
  apply (verifyWithSMTP_first_winner [timeout_on 465]).
  - cbn. lia.
  - repeat constructor.
  - reflexivity.
Defined.

(** X7: the promise of [verifyWithSMTP] is unsettled exactly while fewer
    than three probes have resolved and none of them with a success or a
    code in 550..599; in particular it is never settled when no probe
    resolves. *)
Theorem verifyWithSMTP_unsettled finished :
  verifyWithSMTP finished = None
  ↔ length finished < length ports
    ∧ Forall (λ o, winner o = false) finished.
Proof.
  split; [|intros [Hlen Hno]; unfold verifyWithSMTP; by rewrite race_waiting].
  intros Hnone.
  destruct (decide (length finished < length ports)) as [Hlt|Hge].
  - split; [done|].
    destruct (first_winner_split finished)
      as [Hno|(before & w & after & -> & Hb & Hw)]; [done|].
    rewrite race_first_winner in Hnone; [done| |done|done].
    rewrite length_app in Hlt. cbn in *. lia.
  - destruct (race_all_answered finished) as [v Hv]; [lia|]. congruence.
Qed.

(** Where the verdict of a finished race comes from. *)
Lemma race_source p1 p2 p3 :
  ∃ v p, verifyWithSMTP [p1; p2; p3] = Some v
         ∧ p ∈ [p1; p2; p3]
         ∧ Verdict.success v = Probe.success p
         ∧ Verdict.responseCode v = Probe.responseCode p
         ∧ Verdict.port v = Probe.port p
         ∧ (Verdict.allPortsBlocked v = true
            ↔ Forall (λ o, winner o = false) [p1; p2; p3]
              ∧ Forall (λ o, Probe.responseCode o = 0%N) [p1; p2; p3]).
Proof.
  destruct (first_winner_split [p1; p2; p3])
    as [Hno|(before & w & after & Heq & Hb & Hw)].
  - pose proof Hno as Hno'.
    apply Forall_cons in Hno as [H1 Hno]. apply Forall_cons in Hno as [H2 Hno].
    apply Forall_cons in Hno as [H3 _].
    unfold verifyWithSMTP.
    change [p1; p2; p3] with ([p1; p2] ++ [p3]).
    rewrite race_snoc, race_waiting; [|cbn; lia|by repeat constructor].
    apply orb_false_iff in H3 as [Hs3 Hd3].
    unfold on_probe. cbn [resolved results pending settled mainResolve].
    rewrite Hs3, Hd3. cbn [length ports app Z.of_nat Z.eqb Z.sub Z.add
      Z.opp Z.pos_sub Pos.of_succ_nat Pos.succ Z.succ_double Z.pred_double
      Z.double Pos.pred_double].
    set (best := match find _ _ with Some r => r | None => _ end).
    assert (best ∈ [p1; p2; p3]) as Hin.
    { subst best. destruct (find _ _) as [r|] eqn:Hf.
      - apply find_some in Hf as [Hf _]. by apply list_elem_of_In.
      - cbn. apply elem_of_cons. by left. }
    eexists _, best. split; [reflexivity|]. split_and!; try done.
    cbn [Verdict.allPortsBlocked]. split.
    + intros Hall. split; [done|]. apply Forall_forall. intros o Ho.
      rewrite forallb_forall in Hall. apply N.eqb_eq, Hall.
      by apply list_elem_of_In.
    + intros [_ Hall]. apply forallb_forall. intros o Ho.
      rewrite Forall_forall in Hall. apply N.eqb_eq, Hall.
      by apply list_elem_of_In.
  - assert (length before < length ports) as Hlen.
    { apply (f_equal length) in Heq. rewrite length_app in Heq.
      cbn in *. lia. }
    rewrite Heq, race_first_winner by done.
    eexists _, w. split; [reflexivity|]. split_and!; try done.
    + apply elem_of_app. right. apply elem_of_cons. by left.
    + cbn. split; [done|]. intros [Hno _].
      apply Forall_app in Hno as [_ Hno]. apply Forall_cons in Hno as [Hno _].
      congruence.
Qed.

Lemma probe_ok_silent port p :
  probe_ok port p → Probe.responseCode p = 0%N → winner p = false.
Proof.
  intros (_ & _ & Hs) Hc. unfold winner. rewrite Hc.
  destruct (Probe.success p); [|done].
  destruct Hs as [Hs _]. rewrite Hc in Hs. by specialize (Hs eq_refl).
Qed.

(** The verdict of a race between three well-formed outcomes. *)
Lemma race_of_probes port1 port2 port3 p1 p2 p3 :
  probe_ok port1 p1 → probe_ok port2 p2 → probe_ok port3 p3 →
  ∃ v, verifyWithSMTP [p1; p2; p3] = Some v
       ∧ (Verdict.success v = true ↔ Verdict.responseCode v = 250%N)
       ∧ reply_code (Verdict.responseCode v)
       ∧ Verdict.port v ∈ [port1; port2; port3]
       ∧ (Verdict.allPortsBlocked v = true
          ↔ Forall (λ p, Probe.responseCode p = 0%N) [p1; p2; p3]).
Proof.
  intros H1 H2 H3.
  assert (Forall2 probe_ok [port1; port2; port3] [p1; p2; p3]) as Hok
    by (repeat (constructor; [done|]); constructor).
  destruct (race_source p1 p2 p3) as (v & p & Hv & Hin & Hs & Hc & Hp & Hb).
  exists v. split; [done|].
  assert (∃ port, port ∈ [port1; port2; port3] ∧ probe_ok port p)
    as (port & Hport & Hpok).
  { apply list_elem_of_lookup in Hin as [i Hi].
    destruct (Forall2_lookup_r _ _ _ _ _ Hok Hi) as (port & Hpt & Hpok).
    exists port. split; [|done]. by apply list_elem_of_lookup_2 in Hpt. }
  destruct Hpok as (Hpp & Hpc & Hps).
  rewrite Hs, Hc, Hp, Hpp. split_and!; [done..|].
  rewrite Hb. split; [by intros [_ ?]|]. intros Hall. split; [|done].
  apply Forall_forall. intros o Ho.
  apply list_elem_of_lookup in Ho as [i Hi].
  destruct (Forall2_lookup_r _ _ _ _ _ Hok Hi) as (port' & _ & Hok').
  apply (probe_ok_silent port'); [done|].
  rewrite Forall_forall in Hall. apply Hall.
  by apply list_elem_of_lookup_2 in Hi.
Qed.

(** X8: when the three probes of a race are [tryPort] dialogues that
    resolved, the race settles, and its verdict reports success exactly
    when its response code is 250, has a response code that is 0, 250 or
    in 400..599, names one of the ports probed, and has [allPortsBlocked]
    set exactly when all three outcomes have response code 0. *)
Theorem verifyWithSMTP_of_sessions email mxServer timeout
    port1 port2 port3 ev1 ev2 ev3 p1 p2 p3 :
  tryPort email mxServer port1 timeout ev1 = Resolved p1 →
  tryPort email mxServer port2 timeout ev2 = Resolved p2 →
  tryPort email mxServer port3 timeout ev3 = Resolved p3 →
  ∃ v, verifyWithSMTP [p1; p2; p3] = Some v
       ∧ (Verdict.success v = true ↔ Verdict.responseCode v = 250%N)
       ∧ reply_code (Verdict.responseCode v)
       ∧ Verdict.port v ∈ [port1; port2; port3]
       ∧ (Verdict.allPortsBlocked v = true
          ↔ Forall (λ p, Probe.responseCode p = 0%N) [p1; p2; p3]).
Proof.
  intros H1 H2 H3. apply probe_ok_resolved in H1, H2, H3.
  by apply race_of_probes.
Qed.

Lemma verifyWithSMTP_of_sessions_witness :
  ∃ v, verifyWithSMTP
         [silent_probe 465 "timeout";
          {| Probe.success := true; Probe.responseCode := 250;
             Probe.message := "250 2.1.5 RCPT TO ok"; Probe.port := 25 |};
          silent_probe 587 "connect ECONNREFUSED"] = Some v
       ∧ Verdict.port v ∈ [465; 25; 587]%N.
Proof.
  destruct (verifyWithSMTP_of_sessions "u@e.com" "mx1.e.com" 2500 465 25 587
              [OnTimer]
              [OnData "220 mx ready"; OnData "250-mx Hello EHLO";
               OnData "250 2.1.0 MAIL FROM ok"; OnData "250 2.1.5 RCPT TO ok";
               OnData "221 bye"; OnEnd]
              [OnError "connect ECONNREFUSED"]
              (silent_probe 465 "timeout")
              {| Probe.success := true; Probe.responseCode := 250;
                 Probe.message := "250 2.1.5 RCPT TO ok"; Probe.port := 25 |}
              (silent_probe 587 "connect ECONNREFUSED"))
    as (v & Hv & _ & _ & Hp & _);
    [vm_compute; reflexivity..|].
  exists v. by split.
Defined.

(** ** Mail exchangers *)

Lemma insert_by_priority_perm x sorted :
  insert_by_priority x sorted ≡ₚ x :: sorted.
Proof.
  induction sorted as [|y rest IH]; [done|]. cbn.
  destruct (priority x <=? priority y)%Z; [done|].
  rewrite IH. apply Permutation_swap.
Qed.

Lemma insert_by_priority_sorted x sorted :
  by_preference sorted → by_preference (insert_by_priority x sorted).
Proof.
  unfold by_preference. induction 1 as [|y rest Hrest IH Hy]; cbn.
  { repeat constructor. }
  destruct (Z.leb_spec (priority x) (priority y)).
  - constructor; [by constructor|]. constructor; [done|].
    eapply Forall_impl; [exact Hy|]. cbn. intros z Hz. lia.
  - constructor; [done|].
    rewrite insert_by_priority_perm. constructor; [lia|done].
Qed.

Lemma insert_by_priority_stable p x sorted :
  of_priority p (insert_by_priority x sorted)
  = of_priority p (x :: sorted).
Proof.
  unfold of_priority. induction sorted as [|y rest IH]; [done|]. cbn.
  destruct (Z.leb_spec (priority x) (priority y)); [done|].
  rewrite filter_cons, IH, !filter_cons.
  destruct (decide (priority y = p)), (decide (priority x = p)); try done.
  lia.
Qed.

Lemma sort_by_priority_perm records : sort_by_priority records ≡ₚ records.
Proof.
  induction records as [|x records IH]; [done|]. cbn.
  by rewrite insert_by_priority_perm, IH.
Qed.

Lemma sort_by_priority_sorted records :
  by_preference (sort_by_priority records).
Proof.
  induction records as [|x records IH]; [constructor|]. cbn.
  by apply insert_by_priority_sorted.
Qed.

Lemma sort_by_priority_stable p records :
  of_priority p (sort_by_priority records) = of_priority p records.
Proof.
  induction records as [|x records IH]; [done|].
  change (sort_by_priority (x :: records))
    with (insert_by_priority x (sort_by_priority records)).
  rewrite insert_by_priority_stable. unfold of_priority in *.
  by rewrite !filter_cons, IH.
Qed.

(** X9: the hosts [getMXRecords] returns are the exchangers of the
    resolver's records, every record once, in the order of non-decreasing
    priority value; records of equal priority keep the order in which the
    resolver listed them. *)
Theorem getMXRecords_sorted resolveMx domain records :
  resolveMx domain = DnsRecords records →
  ∃ sorted,
    getMXRecords resolveMx domain = Returns (map exchange sorted)
    ∧ sorted ≡ₚ records
    ∧ by_preference sorted
    ∧ ∀ p, of_priority p sorted = of_priority p records.
Proof.
  intros Hdns. exists (sort_by_priority records).
  split_and!.
  - unfold getMXRecords. rewrite Hdns. by destruct records.
  - apply sort_by_priority_perm.
  - apply sort_by_priority_sorted.
  - intros p. apply sort_by_priority_stable.
Qed.

Lemma getMXRecords_sorted_witness :
  ∃ sorted,
    getMXRecords
      (λ _, DnsRecords [ {| exchange := "c"; priority := 20 |};
                         {| exchange := "a"; priority := 10 |};
                         {| exchange := "b"; priority := 10 |} ]) "example.com"
    = Returns (map exchange sorted)
    ∧ by_preference sorted.
Proof.
  destruct (getMXRecords_sorted
              (λ _, DnsRecords [ {| exchange := "c"; priority := 20 |};
                                 {| exchange := "a"; priority := 10 |};
                                 {| exchange := "b"; priority := 10 |} ])
              "example.com" _ eq_refl) as (sorted & H1 & _ & H2 & _).
  by exists sorted.
Defined.

(** ** The address grammar *)

Lemma matches_fail s : ¬ matches Regex.Fail s.
Proof. inversion 1. Qed.

Lemma matches_eps_inv s : matches Regex.Eps s → s = [].
Proof. by inversion 1. Qed.

Lemma matches_seq_inv r1 r2 s :
  matches (Regex.Seq r1 r2) s
  → ∃ s1 s2, s = s1 ++ s2 ∧ matches r1 s1 ∧ matches r2 s2.
Proof. inversion 1; subst; eauto. Qed.

Lemma matches_alt_inv r1 r2 s :
  matches (Regex.Alt r1 r2) s → matches r1 s ∨ matches r2 s.
Proof. inversion 1; subst; eauto. Qed.

Lemma matches_class_inv p s :
  matches (Regex.Class p) s → ∃ c, s = [c] ∧ p c = true.
Proof. inversion 1; subst; eauto. Qed.

Lemma nullable_matches r : Regex.nullable r = true ↔ matches r [].
Proof.
  split.
  - induction r as [| |p|r1 IH1 r2 IH2|r1 IH1 r2 IH2|r IH|n r IH]; cbn;
      intros H; try done.
    + constructor.
    + apply andb_true_iff in H as [H1 H2].
      apply (matches_seq r1 r2 [] []); auto.
    + apply orb_true_iff in H as [H|H];
        [apply matches_alt_l|apply matches_alt_r]; auto.
    + constructor.
    + constructor.
  - intros H. remember [] as s eqn:Hs.
    induction H as [|p c Hc|r1 r2 s1 s2 H1 IH1 H2 IH2|r1 r2 s H IH|r1 r2 s H IH
                    |r|r s1 s2 H1 IH1 H2 IH2|n r|n r s1 s2 H1 IH1 H2 IH2];
      cbn; try done.
    + apply app_eq_nil in Hs as [-> ->]. by rewrite IH1, IH2.
    + by rewrite IH.
    + rewrite IH by done. apply orb_true_r.
Qed.

Lemma seq'_matches r1 r2 s :
  matches (Regex.seq' r1 r2) s ↔ matches (Regex.Seq r1 r2) s.
Proof.
  assert (∀ r, ¬ matches (Regex.Seq Regex.Fail r) s) as HF1.
  { intros r (? & ? & _ & H & _)%matches_seq_inv. by eapply matches_fail. }
  assert (∀ r, ¬ matches (Regex.Seq r Regex.Fail) s) as HF2.
  { intros r (? & ? & _ & _ & H)%matches_seq_inv. by eapply matches_fail. }
  assert (∀ r, matches r s ↔ matches (Regex.Seq Regex.Eps r) s) as HE.
  { intros r. split.
    - intros H. by apply (matches_seq Regex.Eps r [] s); [constructor|].
    - intros (s1 & s2 & -> & H1 & H2)%matches_seq_inv.
      apply matches_eps_inv in H1 as ->. done. }
  destruct r1, r2; cbn; try done;
    try (split; [by intros ?%matches_fail|by intros ?%HF1]);
    try (split; [by intros ?%matches_fail|by intros ?%HF2]);
    apply HE.
Qed.

Lemma alt'_matches r1 r2 s :
  matches (Regex.alt' r1 r2) s ↔ matches (Regex.Alt r1 r2) s.
Proof.
  assert (∀ r, matches r s ↔ matches (Regex.Alt Regex.Fail r) s) as HL.
  { intros r. split; [by apply matches_alt_r|].
    intros [H|H]%matches_alt_inv; [by apply matches_fail in H|done]. }
  assert (∀ r, matches r s ↔ matches (Regex.Alt r Regex.Fail) s) as HR.
  { intros r. split; [by apply matches_alt_l|].
    intros [H|H]%matches_alt_inv; [done|by apply matches_fail in H]. }
  destruct r1, r2; cbn; try done; try apply HL; try apply HR.
Qed.

Lemma matches_seq_cons r1 r2 c s :
  matches (Regex.Seq r1 r2) (c :: s)
  ↔ (∃ s1 s2, s = s1 ++ s2 ∧ matches r1 (c :: s1) ∧ matches r2 s2)
    ∨ (matches r1 [] ∧ matches r2 (c :: s)).
Proof.
  split.
  - intros (s1 & s2 & E & H1 & H2)%matches_seq_inv.
    destruct s1 as [|c' s1]; cbn in E; subst.
    + by right.
    + injection E as -> ->. left. by exists s1, s2.
  - intros [(s1 & s2 & -> & H1 & H2)|[H1 H2]].
    + by apply (matches_seq r1 r2 (c :: s1) s2).
    + by apply (matches_seq r1 r2 [] (c :: s)).
Qed.

Lemma matches_star_cons_inv r c s :
  matches (Regex.Star r) (c :: s)
  ↔ ∃ s1 s2, s = s1 ++ s2 ∧ matches r (c :: s1) ∧ matches (Regex.Star r) s2.
Proof.
  split.
  - intros H. remember (Regex.Star r) as r' eqn:Hr.
    remember (c :: s) as t eqn:Ht.
    induction H as [| | | | | |r0 s1 s2 H1 _ H2 IH2| |]; try done.
    injection Hr as ->.
    destruct s1 as [|c' s1]; cbn in Ht.
    + by apply IH2.
    + injection Ht as -> <-. by exists s1, s2.
  - intros (s1 & s2 & -> & H1 & H2).
    by apply (matches_star_cons r (c :: s1) s2).
Qed.

Lemma matches_upto_mono n r s :
  matches (Regex.UpTo n r) s → matches (Regex.UpTo (S n) r) s.
Proof.
  intros H. remember (Regex.UpTo n r) as r' eqn:Hr. revert n Hr.
  induction H as [| | | | | | |n0 r0|n0 r0 s1 s2 H1 _ H2 IH2]; try done;
    intros n [= <- <-].
  - constructor.
  - constructor; [done|]. by apply IH2.
Qed.

Lemma matches_upto_cons_inv n r c s :
  matches (Regex.UpTo n r) (c :: s)
  ↔ ∃ k s1 s2, n = S k ∧ s = s1 ++ s2 ∧ matches r (c :: s1)
               ∧ matches (Regex.UpTo k r) s2.
Proof.
  split.
  - intros H. remember (Regex.UpTo n r) as r' eqn:Hr.
    remember (c :: s) as t eqn:Ht. revert n Hr.
    induction H as [| | | | | | | |n0 r0 s1 s2 H1 _ H2 IH2]; try done;
      intros n [= <- <-].
    destruct s1 as [|c' s1]; cbn in Ht.
    + destruct (IH2 Ht n0 eq_refl) as (k & t1 & t2 & -> & -> & Ht1 & Ht2).
      exists (S k), t1, t2. split_and!; try done.
      by apply matches_upto_mono.
    + injection Ht as -> <-. by exists n0, s1, s2.
  - intros (k & s1 & s2 & -> & -> & H1 & H2).
    by apply (matches_upto_cons k r (c :: s1) s2).
Qed.

Lemma deriv_matches r c s :
  matches (Regex.deriv c r) s ↔ matches r (c :: s).
Proof.
  revert s.
  induction r as [| |p|r1 IH1 r2 IH2|r1 IH1 r2 IH2|r IH|n r IH]; intros s;
    cbn [Regex.deriv].
  - split; inversion 1.
  - split; inversion 1.
  - destruct (p c) eqn:Hp.
    + split.
      * intros ->%matches_eps_inv. by constructor.
      * intros (c' & [= <- ->] & _)%matches_class_inv. constructor.
    + split; [by intros ?%matches_fail|].
      intros (c' & [= <- _] & ?)%matches_class_inv. congruence.
  - rewrite alt'_matches, matches_seq_cons. split.
    + intros [H1|H1]%matches_alt_inv.
      * apply seq'_matches in H1.
        apply matches_seq_inv in H1 as (s1 & s2 & -> & H2 & H3).
        left. exists s1, s2. split_and!; [done| |done]. by apply IH1.
      * destruct (Regex.nullable r1) eqn:Hn;
          [|by apply matches_fail in H1].
        right. split; [by apply nullable_matches|by apply IH2].
    + intros [(s1 & s2 & -> & H1 & H2)|[H1 H2]].
      * apply matches_alt_l, seq'_matches. constructor; [|done].
        by apply IH1.
      * apply matches_alt_r. apply nullable_matches in H1. rewrite H1.
        by apply IH2.
  - rewrite alt'_matches. split.
    + intros [H|H]%matches_alt_inv;
        [apply matches_alt_l, IH1|apply matches_alt_r, IH2]; done.
    + intros [H|H]%matches_alt_inv;
        [apply matches_alt_l, IH1|apply matches_alt_r, IH2]; done.
  - rewrite seq'_matches, matches_star_cons_inv. split.
    + intros (s1 & s2 & -> & H1 & H2)%matches_seq_inv.
      exists s1, s2. split_and!; [done| |done]. by apply IH.
    + intros (s1 & s2 & -> & H1 & H2). constructor; [|done]. by apply IH.
  - rewrite matches_upto_cons_inv. destruct n as [|k].
    + split; [by intros ?%matches_fail|]. by intros (k & ? & ? & ? & _).
    + rewrite seq'_matches. split.
      * intros (s1 & s2 & -> & H1 & H2)%matches_seq_inv.
        exists k, s1, s2. split_and!; [done..| |done]. by apply IH.
      * intros (k' & s1 & s2 & [= <-] & -> & H1 & H2).
        constructor; [|done]. by apply IH.
Qed.

(** The matcher decides the language. *)
Lemma test_matches r s :
  Regex.test r s = true ↔ matches r (list_ascii_of_string s).
Proof.
  revert r. induction s as [|c s IH]; intros r; cbn.
  - apply nullable_matches.
  - by rewrite IH, deriv_matches.
Qed.

Lemma matches_star_class p s :
  matches (Regex.Star (Regex.Class p)) s ↔ Forall (λ c, p c = true) s.
Proof.
  induction s as [|c s IH].
  - split; [done|]. intros _. constructor.
  - rewrite matches_star_cons_inv, Forall_cons. split.
    + intros (s1 & s2 & -> & (c' & [= <- ->] & Hc)%matches_class_inv & H2).
      split; [done|]. by apply IH.
    + intros [Hc Hs]. exists [], s. split_and!; [done| |by apply IH].
      by constructor.
Qed.

Lemma matches_upto_class n p s :
  matches (Regex.UpTo n (Regex.Class p)) s
  ↔ length s ≤ n ∧ Forall (λ c, p c = true) s.
Proof.
  revert n. induction s as [|c s IH]; intros n.
  - split; [intros _; split; [cbn; lia|done]|]. intros _. constructor.
  - rewrite matches_upto_cons_inv, Forall_cons. split.
    + intros (k & s1 & s2 & -> & ->
              & (c' & [= <- ->] & Hc)%matches_class_inv & H2).
      apply IH in H2 as [Hl Hs]. simpl in Hl, Hs |- *.
      split_and!; [lia|done..].
    + intros [Hl [Hc Hs]]. cbn in Hl. destruct n as [|k]; [lia|].
      exists k, [], s. split_and!; [done..|by constructor|].
      apply IH. split; [lia|done].
Qed.

Lemma alnum_alnum_hyphen c : alnum c = true → alnum_hyphen c = true.
Proof. unfold alnum_hyphen. by intros ->. Qed.

Lemma matches_label l : matches label_regex l ↔ label l.
Proof.
  unfold label_regex, Regex.Opt, label. split.
  - intros (s1 & s2 & -> & (a & -> & Ha)%matches_class_inv & H2)%matches_seq_inv.
    apply matches_alt_inv in H2 as [H2| ->%matches_eps_inv].
    + apply matches_seq_inv in H2
        as (mid & s3 & -> & Hmid & (b & -> & Hb)%matches_class_inv).
      apply matches_upto_class in Hmid as [Hlen Hmid].
      split_and!.
      * cbn. rewrite length_app. cbn. lia.
      * cbn. rewrite length_app. cbn. lia.
      * constructor; [by apply alnum_alnum_hyphen|].
        apply Forall_app. split; [done|].
        apply Forall_singleton. by apply alnum_alnum_hyphen.
      * by intros c [= <-].
      * intros c. change ([a] ++ mid ++ [b]) with (a :: mid ++ [b]).
        rewrite app_comm_cons, last_snoc. by intros [= <-].
    + split_and!; [cbn; lia..| | |].
      * apply Forall_singleton. by apply alnum_alnum_hyphen.
      * by intros c [= <-].
      * by intros c [= <-].
  - intros ([Hlo Hhi] & Hall & Hhead & Hlast).
    destruct l as [|a rest]; [cbn in Hlo; lia|].
    apply (matches_seq _ _ [a] rest).
    { constructor. by apply Hhead. }
    destruct rest as [|x rest' _] using rev_ind.
    { apply matches_alt_r. constructor. }
    apply matches_alt_l. constructor.
    + apply matches_upto_class.
      cbn in Hhi. rewrite length_app in Hhi. cbn in Hhi. split; [lia|].
      apply Forall_cons in Hall as [_ Hall].
      by apply Forall_app in Hall as [Hall _].
    + constructor. apply Hlast. by rewrite app_comm_cons, last_snoc.
Qed.

Lemma one_of_single d c :
  Regex.one_of (String d EmptyString) c = true ↔ c = d.
Proof.
  unfold Regex.one_of, Str.count.
  destruct (Ascii.eqb_spec d c) as [->|Hne]; cbn; split; try done.
Qed.

Lemma dotted_cons l labels : dotted (l :: labels) = l ++ behind_dots labels.
Proof.
  revert l. induction labels as [|l' labels IH]; intros l.
  - cbn. by rewrite app_nil_r.
  - change (dotted (l :: l' :: labels))
      with (l ++ "."%char :: dotted (l' :: labels)).
    by rewrite IH.
Qed.

Lemma matches_behind_dots s :
  matches (Regex.Star (Regex.Seq (Regex.Class (Regex.one_of ".")) label_regex))
    s
  ↔ ∃ labels, s = behind_dots labels ∧ Forall label labels.
Proof.
  split.
  - intros H.
    remember (Regex.Star
                (Regex.Seq (Regex.Class (Regex.one_of ".")) label_regex))
      as r eqn:Hr.
    induction H as [| | | | | |r0 s1 s2 H1 _ H2 IH2| |]; try done.
    { by exists []. }
    injection Hr as ->.
    destruct (IH2 eq_refl) as (labels & -> & Hlabels).
    apply matches_seq_inv in H1
      as (d & l & -> & (c & -> & ->%one_of_single)%matches_class_inv & Hl).
    exists (l :: labels). split; [done|].
    constructor; [by apply matches_label|done].
  - intros (labels & -> & Hlabels).
    induction Hlabels as [|l labels Hl _ IH]; [constructor|].
    change (behind_dots (l :: labels))
      with (("."%char :: l) ++ behind_dots labels).
    constructor; [|done].
    apply (matches_seq _ _ ["."%char] l);
      [constructor; by apply one_of_single|].
    by apply matches_label.
Qed.


(** The language of [STRICT_EMAIL_REGEX]. *)
Lemma matches_STRICT_EMAIL_REGEX t :
  matches STRICT_EMAIL_REGEX t
  ↔ ∃ localPart labels,
      t = localPart ++ "@"%char :: dotted labels
      ∧ localPart ≠ []
      ∧ Forall (λ c, local_char c = true) localPart
      ∧ labels ≠ []
      ∧ Forall label labels.
Proof.
  unfold STRICT_EMAIL_REGEX, Regex.Plus. split.
  - intros (s1 & s2 & -> & H1 & H2)%matches_seq_inv.
    apply matches_seq_inv in H1
      as (s3 & s4 & -> & (c & -> & Hc)%matches_class_inv
          & Hs4%matches_star_class).
    apply matches_seq_inv in H2
      as (s5 & s6 & -> & (a & -> & ->%one_of_single)%matches_class_inv & H3).
    apply matches_seq_inv in H3
      as (l & s7 & -> & Hl%matches_label
          & (labels & -> & Hlabels)%matches_behind_dots).
    exists (c :: s4), (l :: labels). rewrite dotted_cons.
    split_and!; try done; by constructor.
  - intros (localPart & labels & -> & Hne & Hlocal & Hne' & Hlabels).
    destruct localPart as [|c localPart]; [done|].
    destruct labels as [|l labels]; [done|].
    apply Forall_cons in Hlocal as [Hc Hlocal].
    apply Forall_cons in Hlabels as [Hl Hlabels].
    rewrite dotted_cons. constructor.
    + apply (matches_seq _ _ [c] localPart); [by constructor|].
      by apply matches_star_class.
    + apply (matches_seq _ _ ["@"%char]).
      { constructor. by apply one_of_single. }
      constructor; [by apply matches_label|].
      apply matches_behind_dots. by exists labels.
Qed.

Lemma string_of_list_app l1 l2 :
  string_of_list_ascii (l1 ++ l2)
  = string_of_list_ascii l1 +:+ string_of_list_ascii l2.
Proof. induction l1 as [|c l1 IH]; [done|]. cbn. by rewrite IH. Qed.

Lemma count_zero c s : Str.count c s = 0 ↔ c ∉ list_ascii_of_string s.
Proof.
  induction s as [|d s IH]; cbn.
  - split; [intros _; apply not_elem_of_nil|done].
  - rewrite not_elem_of_cons, <- IH.
    destruct (Ascii.eqb_spec d c) as [->|Hne]; cbn.
    + split; [done|]. by intros [? _].
    + split; [|by intros [_ ?]]. intros H. split; [congruence|done].
Qed.

Lemma includes_char_list c s :
  Str.includes_char c s = true ↔ c ∈ list_ascii_of_string s.
Proof.
  unfold Str.includes_char. pose proof (count_zero c s) as H.
  destruct (Nat.eqb_spec (Str.count c s) 0) as [H0|H0]; cbn.
  - split; [done|]. intros Hin. by apply H in H0.
  - split; [|done]. intros _.
    destruct (decide (c ∈ list_ascii_of_string s)); [done|].
    exfalso. apply H0. by apply H.
Qed.

Lemma startsWith_head c s :
  Str.startsWith_char c s = true ↔ head (list_ascii_of_string s) = Some c.
Proof.
  destruct s as [|d s]; cbn; [done|].
  destruct (Ascii.eqb_spec d c) as [->|Hne]; split; try done.
  intros [= ?]. done.
Qed.

Lemma endsWith_last c s :
  Str.endsWith_char c s = true ↔ last (list_ascii_of_string s) = Some c.
Proof.
  induction s as [|d s IH]; [done|].
  destruct s as [|e s].
  - cbn. destruct (Ascii.eqb_spec d c) as [->|Hne]; split; try done.
    intros [= ?]. done.
  - change (Str.endsWith_char c (String d (String e s)))
      with (Str.endsWith_char c (String e s)).
    rewrite IH. done.
Qed.

Lemma includes_twice_list c s :
  Str.includes_twice c s = true
  ↔ ∃ u v, list_ascii_of_string s = u ++ c :: c :: v.
Proof.
  induction s as [|d s IH].
  { split; [done|]. intros (u & v & H). by destruct u. }
  destruct s as [|e s].
  { split; [done|]. intros (u & v & H). destruct u as [|? [|? ?]]; done. }
  change (Str.includes_twice c (String d (String e s)))
    with ((Ascii.eqb d c && Ascii.eqb e c)
          || Str.includes_twice c (String e s)).
  rewrite orb_true_iff, andb_true_iff, IH. split.
  - intros [[->%Ascii.eqb_eq ->%Ascii.eqb_eq]|(u & v & H)].
    + by exists [], (list_ascii_of_string s).
    + exists (d :: u), v.
      change (d :: list_ascii_of_string (String e s)
              = d :: (u ++ c :: c :: v)).
      by rewrite H.
  - intros (u & v & H). destruct u as [|x u].
    + cbn in H. injection H as -> -> _. left.
      by rewrite !Ascii.eqb_refl.
    + right. exists u, v.
      change (d :: list_ascii_of_string (String e s)
              = x :: (u ++ c :: c :: v)) in H.
      by injection H.
Qed.

Lemma local_char_not_at lp :
  Forall (λ c, local_char c = true) lp → "@"%char ∉ lp.
Proof.
  intros H Hin. rewrite Forall_forall in H. by apply H in Hin.
Qed.

Lemma label_without c l :
  alnum_hyphen c = false → label l → c ∉ l.
Proof.
  intros Hc (_ & Hall & _) Hin. rewrite Forall_forall in Hall.
  apply Hall in Hin. congruence.
Qed.

Lemma dotted_without c labels :
  alnum_hyphen c = false → c ≠ "."%char →
  Forall label labels → c ∉ dotted labels.
Proof.
  intros Hc Hdot. induction 1 as [|l labels Hl Hlabels IH].
  { apply not_elem_of_nil. }
  rewrite dotted_cons. rewrite dotted_cons in IH || idtac.
  rewrite not_elem_of_app. split; [by apply label_without|].
  clear IH Hl. induction Hlabels as [|l' labels Hl' _ IH].
  { apply not_elem_of_nil. }
  change (behind_dots (l' :: labels))
    with ("."%char :: l' ++ behind_dots labels).
  rewrite not_elem_of_cons, not_elem_of_app. split_and!; [done| |done].
  by apply label_without.
Qed.

Lemma dotted_has_dot labels :
  Forall label labels →
  "."%char ∈ dotted labels ↔ 2 ≤ length labels.
Proof.
  intros Hlabels. destruct Hlabels as [|l labels Hl Hlabels].
  { cbn. split; [by intros ?%elem_of_nil|lia]. }
  destruct labels as [|l' labels].
  - cbn. split; [|lia]. intros Hin. exfalso.
    by apply (label_without "."%char l).
  - split; [cbn; lia|]. intros _.
    change (dotted (l :: l' :: labels))
      with (l ++ "."%char :: dotted (l' :: labels)).
    apply elem_of_app. right. apply elem_of_cons. by left.
Qed.

(** How an address of the grammar splits at its [@]. *)
Lemma split_address t lp labels :
  list_ascii_of_string t = lp ++ "@"%char :: dotted labels →
  Forall (λ c, local_char c = true) lp →
  Forall label labels →
  Str.count "@" t = 1
  ∧ Str.split "@" t
    = (string_of_list_ascii lp, [string_of_list_ascii (dotted labels)]).
Proof.
  intros Ht Hlp Hlabels.
  assert (t = string_of_list_ascii lp
              +:+ String "@" (string_of_list_ascii (dotted labels))) as ->.
  { rewrite <- (string_of_list_ascii_of_string t), Ht.
    by rewrite string_of_list_app. }
  assert (Str.count "@" (string_of_list_ascii lp) = 0) as H1.
  { apply count_zero. rewrite list_ascii_of_string_of_list_ascii.
    by apply local_char_not_at. }
  assert (Str.count "@" (string_of_list_ascii (dotted labels)) = 0) as H2.
  { apply count_zero. rewrite list_ascii_of_string_of_list_ascii.
    by apply dotted_without. }
  split.
  - rewrite count_app, H1. cbn. by rewrite H2.
  - rewrite split_app by done. by rewrite split_no_sep.
Qed.

Lemma trim_truthy s : Str.trim s ≠ EmptyString → Str.truthy s = true.
Proof. by destruct s. Qed.

(** X10: the strings [validateEmailSyntax] accepts are exactly those
    whose trimmed text is a local part, an [@] and a domain, where the
    local part has 1 to 64 characters of the local alphabet, no dot at
    either end and no two dots in a row, the domain is made of at least
    two labels joined by dots, each label of 1 to 63 letters, digits and
    hyphens with no hyphen at either end, and the whole has at most 254
    characters. *)
Theorem validateEmailSyntax_accepts s :
  validateEmailSyntax (JString s) = Valid
  ↔ accepted (list_ascii_of_string (Str.trim s)).
Proof.
  unfold validateEmailSyntax, accepted. cbn [js_truthy].
  set (t := Str.trim s). split.
  - destruct (Str.truthy s); [|done]. cbn [negb].
    destruct (254 <? String.length t) eqn:Hlen; [done|].
    destruct (Str.count "@" t =? 1) eqn:Hcount; [|done]. cbn [negb].
    destruct (Regex.test STRICT_EMAIL_REGEX t) eqn:Htest; [|done].
    cbn [negb].
    apply test_matches, matches_STRICT_EMAIL_REGEX in Htest
      as (lp & labels & Ht & Hne & Hlp & Hne' & Hlabels).
    destruct (split_address t lp labels Ht Hlp Hlabels) as [_ ->].
    cbn [head default from_option id].
    destruct (64 <? _) eqn:Hlocal; [done|].
    destruct (Str.startsWith_char _ _) eqn:Hstart; [done|].
    destruct (Str.endsWith_char _ _) eqn:Hend; [done|]. cbn [orb].
    destruct (Str.includes_twice _ _) eqn:Htwice; [done|].
    destruct (Str.includes_char _ _) eqn:Hdot; [|done]. intros _.
    rewrite length_list_ascii, list_ascii_of_string_of_list_ascii in Hlocal.
    apply Nat.ltb_ge in Hlen, Hlocal.
    rewrite length_list_ascii in Hlen.
    exists lp, labels. split_and!; try done.
    + destruct lp; [done|cbn; lia].
    + intros H.
      assert (Str.startsWith_char "." (string_of_list_ascii lp) = true)
        as Hyes; [|congruence].
      apply startsWith_head. by rewrite list_ascii_of_string_of_list_ascii.
    + intros H.
      assert (Str.endsWith_char "." (string_of_list_ascii lp) = true)
        as Hyes; [|congruence].
      apply endsWith_last. by rewrite list_ascii_of_string_of_list_ascii.
    + intros u v H.
      assert (Str.includes_twice "." (string_of_list_ascii lp) = true)
        as Hyes; [|congruence].
      apply includes_twice_list. exists u, v.
      by rewrite list_ascii_of_string_of_list_ascii.
    + apply dotted_has_dot; [done|].
      apply includes_char_list in Hdot.
      by rewrite list_ascii_of_string_of_list_ascii in Hdot.
  - intros (lp & labels & Ht & Hlen & [Hlo Hhi] & Hlp & Hhead & Hlast
            & Htwice & Hcount & Hlabels).
    rewrite trim_truthy; [|intros H; fold t in H; rewrite H in Ht; by destruct lp].
    cbn [negb].
    destruct (split_address t lp labels Ht Hlp Hlabels) as [-> ->].
    rewrite length_list_ascii.
    destruct (Nat.ltb_spec 254 (length (list_ascii_of_string t))); [lia|].
    cbn [Nat.eqb negb].
    assert (Regex.test STRICT_EMAIL_REGEX t = true) as ->.
    { apply test_matches, matches_STRICT_EMAIL_REGEX.
      exists lp, labels. split_and!; try done.
      - destruct lp; [cbn in Hlo; lia|done].
      - destruct labels; [cbn in Hcount; lia|done]. }
    cbn [negb head default from_option id].
    rewrite length_list_ascii, list_ascii_of_string_of_list_ascii.
    destruct (Nat.ltb_spec 64 (length lp)); [lia|].
    destruct (Str.startsWith_char _ _) eqn:Hs.
    { apply startsWith_head in Hs.
      by rewrite list_ascii_of_string_of_list_ascii in Hs. }
    destruct (Str.endsWith_char _ _) eqn:He.
    { apply endsWith_last in He.
      by rewrite list_ascii_of_string_of_list_ascii in He. }
    cbn [orb].
    destruct (Str.includes_twice _ _) eqn:H2.
    { apply includes_twice_list in H2 as (u & v & H2).
      rewrite list_ascii_of_string_of_list_ascii in H2. by apply Htwice in H2. }
    destruct (Str.includes_char _ _) eqn:Hd; [done|].
    assert (Str.includes_char "." (string_of_list_ascii (dotted labels)) = true)
      as Hyes; [|congruence].
    apply includes_char_list. rewrite list_ascii_of_string_of_list_ascii.
    by apply dotted_has_dot.
Qed.

(** ** White space around an address *)

Lemma trimStart_blank pad s :
  blank pad → Str.trimStart (pad +:+ s) = Str.trimStart s.
Proof.
  unfold blank. induction pad as [|c pad IH]; [done|].
  change (String c pad +:+ s) with (String c (pad +:+ s)).
  change (list_ascii_of_string (String c pad))
    with (c :: list_ascii_of_string pad).
  intros [Hc Hpad]%Forall_cons. cbn [Str.trimStart]. rewrite Hc. by apply IH.
Qed.

Lemma trimEnd_blank pad : blank pad → Str.trimEnd pad = EmptyString.
Proof.
  unfold blank. induction pad as [|c pad IH]; [done|].
  change (list_ascii_of_string (String c pad))
    with (c :: list_ascii_of_string pad).
  intros [Hc Hpad]%Forall_cons. cbn [Str.trimEnd]. by rewrite IH, Hc.
Qed.

Lemma trimEnd_app_blank s pad :
  blank pad → Str.trimEnd (s +:+ pad) = Str.trimEnd s.
Proof.
  intros Hpad. induction s as [|c s IH]; [by apply trimEnd_blank|].
  change (String c s +:+ pad) with (String c (s +:+ pad)).
  cbn [Str.trimEnd]. by rewrite IH.
Qed.

Lemma trimStart_app s u :
  Str.trimStart s ≠ EmptyString →
  Str.trimStart (s +:+ u) = Str.trimStart s +:+ u.
Proof.
  induction s as [|c s IH]; [done|].
  change (String c s +:+ u) with (String c (s +:+ u)).
  cbn [Str.trimStart]. destruct (Str.is_space c); [apply IH|done].
Qed.

Lemma trimStart_app_blank s pad :
  blank pad → Str.trimStart s = EmptyString →
  Str.trimStart (s +:+ pad) = EmptyString.
Proof.
  intros Hpad. induction s as [|c s IH].
  - intros _. change (EmptyString +:+ pad) with pad.
    unfold blank in Hpad. induction pad as [|c pad IH]; [done|].
    change (list_ascii_of_string (String c pad))
      with (c :: list_ascii_of_string pad) in Hpad.
    apply Forall_cons in Hpad as [Hc Hpad]. cbn [Str.trimStart].
    rewrite Hc. by apply IH.
  - change (String c s +:+ pad) with (String c (s +:+ pad)).
    cbn [Str.trimStart]. destruct (Str.is_space c); [apply IH|done].
Qed.

Lemma trim_padded pad1 s pad2 :
  blank pad1 → blank pad2 →
  Str.trim (pad1 +:+ s +:+ pad2) = Str.trim s.
Proof.
  intros H1 H2. unfold Str.trim. rewrite trimStart_blank by done.
  destruct (decide (Str.trimStart s = EmptyString)) as [He|Hne].
  - by rewrite trimStart_app_blank, He.
  - by rewrite trimStart_app, trimEnd_app_blank.
Qed.

Lemma truthy_padded pad1 s pad2 :
  s ≠ EmptyString → Str.truthy (pad1 +:+ s +:+ pad2) = true.
Proof. intros Hs. destruct pad1; [|done]. by destruct s. Qed.

(** X11: white space around a non-empty address changes nothing: the
    verdict of [validateEmailSyntax], the suggestion of [getDidYouMean]
    and the whole outcome of [verifyEmail] are those of the address
    without the padding. *)
Theorem padding_ignored env options pad1 s pad2 :
  blank pad1 → blank pad2 → s ≠ EmptyString →
  validateEmailSyntax (JString (pad1 +:+ s +:+ pad2))
  = validateEmailSyntax (JString s)
  ∧ getDidYouMean (JString (pad1 +:+ s +:+ pad2)) = getDidYouMean (JString s)
  ∧ verifyEmail env (JString (pad1 +:+ s +:+ pad2)) options
    = verifyEmail env (JString s) options.
Proof.
  intros H1 H2 Hs.
  pose proof (trim_padded pad1 s pad2 H1 H2) as Htrim.
  pose proof (truthy_padded pad1 s pad2 Hs) as Htruthy.
  assert (Str.truthy s = true) as Hs' by by destruct s.
  assert (validateEmailSyntax (JString (pad1 +:+ s +:+ pad2))
          = validateEmailSyntax (JString s)) as Hval.
  { unfold validateEmailSyntax. cbn [js_truthy].
    by rewrite Htruthy, Hs', Htrim. }
  split_and!; [done| |].
  - unfold getDidYouMean. by rewrite Htruthy, Hs', Htrim.
  - unfold verifyEmail, verify_try. cbn [optional_trim].
    by rewrite Hval, Htrim.
Qed.

Lemma padding_ignored_witness :
  verifyEmail quiet_env (JString ("  " +:+ "user@gmial.com" +:+ " "))
    default_options
  = verifyEmail quiet_env (JString "user@gmial.com") default_options.
Proof.
  apply (padding_ignored quiet_env default_options "  " "user@gmial.com" " ").
  - repeat constructor.
  - repeat constructor.
  - done.
Defined.

(** ** Edit distance as a metric *)

Lemma lev_bounds x y :
  length x - length y ≤ lev x y
  ∧ length y - length x ≤ lev x y
  ∧ lev x y ≤ Nat.max (length x) (length y).
Proof.
  revert y. induction x as [|a x IHx]; intros y.
  { rewrite lev_nil_l. cbn. lia. }
  induction y as [|b y IHy].
  { rewrite lev_nil_r. cbn. lia. }
  rewrite lev_cons. unfold min3.
  pose proof (IHx (b :: y)). pose proof (IHx y).
  cbn [length] in *. case_bool_decide; lia.
Qed.

Lemma lev_zero x y : lev x y = 0 ↔ x = y.
Proof.
  split; [|intros ->; apply lev_diag].
  revert y. induction x as [|a x IHx]; intros y.
  { rewrite lev_nil_l. by destruct y. }
  destruct y as [|b y].
  { by rewrite lev_nil_r. }
  rewrite lev_cons. unfold min3. intros H.
  case_bool_decide as Hab; [|lia].
  injection Hab as ->. f_equal. apply IHx. lia.
Qed.

Lemma lev_triangle x y z : lev x z ≤ lev x y + lev y z.
Proof.
  remember (length x + length y + length z) as n eqn:Hn.
  revert x y z Hn. induction n as [n IH] using lt_wf_ind. intros x y z ->.
  destruct x as [|a x].
  { rewrite !lev_nil_l. pose proof (lev_bounds y z). lia. }
  destruct z as [|c z].
  { rewrite !lev_nil_r. pose proof (lev_bounds (a :: x) y). lia. }
  destruct y as [|b y].
  { rewrite lev_nil_l, lev_nil_r.
    pose proof (lev_bounds (a :: x) (c :: z)). lia. }
  assert (∀ x' y' z',
            length x' + length y' + length z'
            < length (a :: x) + length (b :: y) + length (c :: z) →
            lev x' z' ≤ lev x' y' + lev y' z') as IH'.
  { intros x' y' z' Hlt. by eapply IH. }
  pose proof (IH' x (b :: y) (c :: z)) as H1.
  pose proof (IH' (a :: x) (b :: y) z) as H2.
  pose proof (IH' (a :: x) y (c :: z)) as H3.
  pose proof (IH' (a :: x) y z) as H4.
  pose proof (IH' x y (c :: z)) as H5.
  pose proof (IH' x y z) as H6.
  cbn [length] in H1, H2, H3, H4, H5, H6.
  pose proof (lev_cons a x c z) as E1.
  pose proof (lev_cons a x b y) as E2.
  pose proof (lev_cons b y c z) as E3.
  unfold min3 in E1, E2, E3.
  repeat case_bool_decide; simplify_eq; lia.
Qed.

(** X12: [levenshteinDistance] separates distinct strings and satisfies
    the triangle inequality; with the symmetry of C9 it is a metric on
    strings. *)
Theorem levenshteinDistance_metric :
  (∀ a b, levenshteinDistance a b = 0 ↔ a = b)
  ∧ (∀ a b c,
       levenshteinDistance a c
       ≤ levenshteinDistance a b + levenshteinDistance b c).
Proof.
  split.
  - intros a b. rewrite levenshteinDistance_lev, lev_zero. split.
    + intros H%(f_equal (@rev ascii)). rewrite !rev_involutive in H.
      rewrite <- (string_of_list_ascii_of_string a),
        <- (string_of_list_ascii_of_string b). by rewrite H.
    + by intros ->.
  - intros a b c. rewrite !levenshteinDistance_lev. apply lev_triangle.
Qed.

(** X13: the distance between two strings is at least the difference
    of their lengths and at most the greater length. *)
Theorem levenshteinDistance_bounds a b :
  String.length a - String.length b ≤ levenshteinDistance a b
  ∧ String.length b - String.length a ≤ levenshteinDistance a b
  ∧ levenshteinDistance a b ≤ Nat.max (String.length a) (String.length b).
Proof.
  rewrite levenshteinDistance_lev, !length_list_ascii.
  pose proof (lev_bounds (rev (list_ascii_of_string a))
                (rev (list_ascii_of_string b))) as H.
  by rewrite !length_rev in H.
Qed.

(** ** The typo table, continued *)











Lemma count_truthy c s : Str.count c (Str.trim s) = 1 → Str.truthy s = true.
Proof. by destruct s. Qed.

(** X16: the typo report of [verifyEmail] is coherent: a result has
    subresult [typo_detected] exactly when its [didyoumean] is set; and
    when it is set, it is the suggestion [getDidYouMean] gives for the same
    input, it differs from the (trimmed) address, the result is
    [invalid] / 6 by [typo_detection], and neither the resolver nor a mail
    server was consulted. *)
Theorem verifyEmail_typo_report env input options r :
  verifyEmail env input options = Returns r →
  (subresult r = "typo_detected" ↔ didyoumean r ≠ None)
  ∧ ∀ d, didyoumean r = Some d →
         getDidYouMean input = Some d
         ∧ d ≠ email r
         ∧ result r = "invalid" ∧ resultcode r = 6%Z
         ∧ verificationMethod r = "typo_detection"
         ∧ mxRecords r = [] ∧ smtpChecked r = false.
Proof.
  unfold verifyEmail.
  destruct (optional_trim input) as [trimmed|msg|] eqn:Htrim; [|done..].
  unfold verify_try.
  destruct (validateEmailSyntax input) as [|msg] eqn:Hv.
  2:{ intros [= <-]. split; [split; done|done]. }
  apply validate_Valid_inv in Hv as (s & -> & Hcount).
  injection Htrim as <-.
  destruct (split_email_one _ Hcount) as (lp & dom & -> & Heq).
  assert (getDidYouMean (JString s)
          = suggested <$> suggestCorrection (JString (Str.trim s))) as Hg.
  { unfold getDidYouMean. by rewrite (count_truthy _ _ Hcount). }
  remember (getDidYouMean (JString s)) as g eqn:Eg. clear Eg.
  assert (∀ r0 : VerificationResult,
            didyoumean r0 = None → subresult r0 ≠ "typo_detected" →
            match
              match
                match mx_step env options dom r0 with
                | inl exit => exit
                | inr r' => smtp_step env options (Str.trim s) r'
                end
              with
              | TryReturn r' => Returns r'
              | TryThrow r' msg => Returns (verify_catch env r' msg)
              | TryHang => Pending
              end
            with
            | Returns r' => no_typo r'
            | _ => True
            end) as Hlater.
  { intros r0 H1 H2.
    pose proof (after_typo_check env options dom (Str.trim s) r0
                  (conj H1 H2)) as Hexit.
    destruct (match mx_step _ _ _ _ with inl _ => _ | inr _ => _ end);
      [done| |done].
    split; cbn; done. }
  assert (∀ r' : VerificationResult, no_typo r' →
            (subresult r' = "typo_detected" ↔ didyoumean r' ≠ None)
            ∧ ∀ d, didyoumean r' = Some d →
                   g = Some d
                   ∧ d ≠ email r'
                   ∧ result r' = "invalid" ∧ resultcode r' = 6%Z
                   ∧ verificationMethod r' = "typo_detection"
                   ∧ mxRecords r' = [] ∧ smtpChecked r' = false) as Hno.
  { intros r' [H1 H2]. rewrite H1. split; [split; done|done]. }
  destruct (suggestCorrection (JString (Str.trim s))) as [sg|].
  - destruct (String.eqb_spec (suggested sg) (Str.trim s)) as [He|Hne];
      cbn [negb].
    + match goal with
      | |- context [mx_step env options dom ?r0] =>
          specialize (Hlater r0 eq_refl ltac:(done))
      end.
      destruct (match mx_step _ _ _ _ with inl _ => _ | inr _ => _ end);
        intros [= <-]; by apply Hno.
    + intros [= <-]. split; [split; done|].
      intros d [= <-]. by split_and!.
  - match goal with
    | |- context [mx_step env options dom ?r0] =>
        specialize (Hlater r0 eq_refl ltac:(done))
    end.
    destruct (match mx_step _ _ _ _ with inl _ => _ | inr _ => _ end);
      intros [= <-]; by apply Hno.
Qed.

Lemma verifyEmail_typo_report_witness :
  getDidYouMean (JString "eve@yahooo.com") = Some "eve@yahoo.com".
Proof.
  pose proof (verifyEmail_typo_report quiet_env (JString "eve@yahooo.com")
                default_options) as H.
  specialize (H _ ltac:(vm_compute; reflexivity)) as [_ H].
  apply (H "eve@yahoo.com"). reflexivity.
Defined.



(** ** How a call of [verifyEmail] ends *)


Lemma smtpRun_raced_inv env i address mxServer tmo p1 p2 p3 :
  smtpRun env i address mxServer tmo = Raced p1 p2 p3 →
  (0 ≤ tmo)%Z ∧ probes env i address mxServer tmo = (p1, p2, p3).
Proof.
  unfold smtpRun. destruct (Z.ltb_spec tmo 0); [done|].
  destruct (probes env i address mxServer tmo) as [[q1 q2] q3].
  by intros [= -> -> ->].
Qed.


Lemma servers_to_try_length maxAttempts mxRecords :
  (Z.of_nat (length (servers_to_try maxAttempts mxRecords))
   ≤ Z.max 0 maxAttempts)%Z
  ∧ length (servers_to_try maxAttempts mxRecords) ≤ length mxRecords.
Proof. unfold servers_to_try. rewrite length_take. lia. Qed.





(** ** What the options switch off *)

Lemma stamp_ext env1 env2 r :
  same_clock env1 env2 → stamp env1 r = stamp env2 r.
Proof.
  intros (H1 & H2 & _). unfold stamp, elapsed_seconds. by rewrite H1, H2.
Qed.

Lemma smtp_loop_ext env1 env2 address tmo servers i st :
  (∀ j mxServer, i ≤ j < i + length servers →
     probes env1 j address mxServer tmo
     = probes env2 j address mxServer tmo) →
  smtp_loop env1 address tmo i servers st
  = smtp_loop env2 address tmo i servers st.
Proof.
  revert i st. induction servers as [|mxServer rest IH]; intros i st Hsame;
    [done|].
  cbn [smtp_loop]. unfold smtpRun. rewrite Hsame by (cbn; lia).
  destruct (tmo <? 0)%Z; [done|].
  destruct (probes env2 i address mxServer tmo) as [[p1 p2] p3].
  destruct (verifyWithSMTP _) as [v|]; [|done].
  destruct (Verdict.success v); [done|].
  destruct (is_definitive _); [done|].
  apply IH. intros j mx Hj. apply Hsame. cbn. lia.
Qed.

Lemma mx_step_ext options env1 env2 domain r :
  same_answers options env1 env2 →
  mx_step env1 options domain r = mx_step env2 options domain r.
Proof.
  intros (Hclock & Hdns & _). unfold mx_step.
  destruct (checkMX options); [|done].
  unfold getMXRecords. rewrite (Hdns eq_refl domain).
  destruct (resolveMx env2 domain) as [records| |msg];
    [destruct (length records =? 0)|..];
    repeat case_match; by rewrite ?(stamp_ext env1 env2).
Qed.

Lemma mx_step_unchecked env options domain r r' :
  checkMX options = false →
  mx_step env options domain r = inr r' → r' = r.
Proof. unfold mx_step. intros Hoff. rewrite Hoff. by intros [= <-]. Qed.

Lemma smtp_step_ext options env1 env2 address r :
  same_answers options env1 env2 →
  (checkMX options = false → mxRecords r = []) →
  smtp_step env1 options address r = smtp_step env2 options address r.
Proof.
  intros (Hclock & _ & Hsmtp) Hmx. unfold smtp_step.
  destruct (checkSMTP options) eqn:Hs;
    [|cbn [andb negb]; by rewrite (stamp_ext env1 env2)].
  destruct (checkMX options) eqn:Hc.
  - cbn [andb negb].
    destruct (0 <? _); [|by rewrite (stamp_ext env1 env2)].
    rewrite (smtp_loop_ext env1 env2);
      [destruct (smtp_loop _ _ _ _ _ _); by rewrite ?(stamp_ext env1 env2)|].
    intros j mx Hj. apply Hsmtp; [done..|].
    match type of Hj with
    | context [servers_to_try ?m ?l] =>
        pose proof (servers_to_try_length m l)
    end.
    lia.
  - rewrite Hmx by done. cbn [andb negb length Nat.ltb Nat.leb].
    by rewrite (stamp_ext env1 env2).
Qed.

(** X18: the options bound what [verifyEmail] asks of the outside: two
    environments with the same clock give the same outcome as soon as
    their resolvers agree, if [checkMX] is set, and the probes of their
    first [maxAttempts] attempts agree, if [checkMX] and [checkSMTP] are
    both set.  So without [checkMX] neither the resolver nor a mail server
    matters, without [checkSMTP] no mail server matters, and no attempt
    beyond [maxAttempts] matters. *)
Theorem verifyEmail_traffic env1 env2 input options :
  same_answers options env1 env2 →
  verifyEmail env1 input options = verifyEmail env2 input options.
Proof.
  intros Hsame. pose proof Hsame as (Hclock & _).
  unfold verifyEmail.
  destruct (optional_trim input) as [trimmed|msg|]; [|done..].
  assert (initial_result env1 trimmed = initial_result env2 trimmed) as ->.
  { unfold initial_result. by destruct Hclock as (_ & _ & ->). }
  assert (∀ r msg, verify_catch env1 r msg = verify_catch env2 r msg) as Hc.
  { intros r msg. unfold verify_catch. by apply stamp_ext. }
  enough (verify_try env1 input options (initial_result env2 trimmed)
          = verify_try env2 input options (initial_result env2 trimmed))
    as ->.
  { destruct (verify_try _ _ _ _); by rewrite ?Hc. }
  unfold verify_try.
  destruct (validateEmailSyntax input); [|by rewrite (stamp_ext env1 env2)].
  destruct input as [| | | | |s|]; try done.
  destruct (split_email _) as [[localPart domain]|]; [|done].
  destruct (match suggestCorrection _ with Some _ => _ | None => _ end);
    [by rewrite (stamp_ext env1 env2)|].
  rewrite (mx_step_ext options env1 env2) by done.
  destruct (mx_step env2 _ _ _) as [exit|r'] eqn:Hmx; [done|].
  apply smtp_step_ext; [done|].
  intros Hoff. by rewrite (mx_step_unchecked _ _ _ _ _ Hoff Hmx).
Qed.

Lemma verifyEmail_traffic_witness :
  verifyEmail rejecting_env (JString "user@example.com")
    {| checkMX := true; checkSMTP := false; timeout := 2500;
       maxAttempts := 2 |}
  = verifyEmail mailbox_full_env (JString "user@example.com")
      {| checkMX := true; checkSMTP := false; timeout := 2500;
         maxAttempts := 2 |}.
Proof.
  apply verifyEmail_traffic. unfold same_answers, same_clock.
  split_and!; try reflexivity. intros _ [=].
Defined.

(** ** Calls that pass the typo check *)

Section Exchangers.
Variables (env : Env) (s : string) (options : VerificationOptions).
Variables (localPart domain : string).

Hypothesis syntax_ok : validateEmailSyntax (JString s) = Valid.
Hypothesis pieces : split_email (Str.trim s) = Some (localPart, domain).
Hypothesis no_typo_found :
  ∀ suggestion,
    suggestCorrection (JString (Str.trim s)) = Some suggestion →
    suggested suggestion = Str.trim s.

Lemma verifyEmail_after_typo_check :
  ∃ r0, untouched r0
    ∧ verifyEmail env (JString s) options
      = match
          match mx_step env options domain r0 with
          | inl exit => exit
          | inr r' => smtp_step env options (Str.trim s) r'
          end
        with
        | TryReturn r => Returns r
        | TryThrow r msg => Returns (verify_catch env r msg)
        | TryHang => Pending
        end.
Proof using All.
  unfold verifyEmail. cbn [optional_trim]. unfold verify_try.
  rewrite syntax_ok, pieces.
  assert (match suggestCorrection (JString (Str.trim s)) with
          | Some suggestion =>
              if negb (String.eqb (suggested suggestion) (Str.trim s))
              then Some (suggested suggestion) else None
          | None => None
          end = None) as ->.
  { destruct (suggestCorrection _) as [sg|] eqn:Hsg; [|done].
    by rewrite (no_typo_found _ eq_refl), String.eqb_refl. }
  eexists. split; [|reflexivity]. by split_and!.
Qed.

(** X19: when the MX check is on and the resolver has no exchanger for
    the domain (it fails, or answers with nothing), an address that passed
    the syntax and typo checks is [invalid] / 6 by [dns_lookup], with
    subresult [dns_lookup_failed] and the resolver's message, or
    [no_mx_records]; the SMTP stage is not entered, whatever [checkSMTP]
    says. *)
Theorem verifyEmail_no_exchanger :
  checkMX options = true →
  (∀ records, resolveMx env domain = DnsRecords records → records = []) →
  ∃ r, verifyEmail env (JString s) options = Returns r
       ∧ result r = "invalid" ∧ resultcode r = 6%Z
       ∧ subresult r
         = match resolveMx env domain with
           | DnsFailure _ => "dns_lookup_failed"
           | _ => "no_mx_records"
           end
       ∧ error r
         = Some match resolveMx env domain with
                | DnsFailure msg =>
                    "DNS lookup failed for " +:+ domain +:+ ": " +:+ msg
                | _ => "No MX records found for domain"
                end
       ∧ verificationMethod r = "dns_lookup"
       ∧ mxRecords r = []
       ∧ smtpChecked r = false
       ∧ Step.valid (mx (steps r)) = Some false
       ∧ Step.valid (smtp (steps r)) = None.
Proof using All.
  intros Hmx Hnone.
  destruct verifyEmail_after_typo_check as (r0 & Hr0 & ->).
  destruct Hr0 as (_ & _ & _ & Hrec & _ & _ & _ & Hchk & _ & _ & Hsmtp).
  unfold mx_step, getMXRecords. rewrite Hmx.
  destruct (resolveMx env domain) as [records| |msg].
  - rewrite (Hnone records eq_refl). cbn. eexists. split; [done|].
    cbn. rewrite Hrec, Hchk, Hsmtp. by split_and!.
  - cbn. eexists. split; [done|].
    cbn. rewrite Hrec, Hchk, Hsmtp. by split_and!.
  - cbn. eexists. split; [done|].
    cbn. rewrite Hrec, Hchk, Hsmtp. by split_and!.
Qed.

(** X20: with [maxAttempts] zero or negative the SMTP stage contacts no
    server, yet it reports on one: the result is [unknown] / 3 with
    subresult [connection_error], [smtpChecked] true and the SMTP step
    "Unknown response (0)", whatever the timeout and the network. *)
Theorem verifyEmail_no_attempts (servers : list string) :
  checkMX options = true →
  checkSMTP options = true →
  getMXRecords (resolveMx env) domain = Returns servers →
  servers ≠ [] →
  (maxAttempts options ≤ 0)%Z →
  ∃ r, verifyEmail env (JString s) options = Returns r
       ∧ result r = "unknown" ∧ resultcode r = 3%Z
       ∧ subresult r = "connection_error"
       ∧ smtpChecked r = true
       ∧ smtpBlocked r = false
       ∧ mxRecords r = servers
       ∧ verificationMethod r = "unknown"
       ∧ error r = None
       ∧ smtp (steps r)
         = {| Step.valid := Some false;
              Step.message := "Unknown response (0)" |}.
Proof using All.
  intros Hmx Hsmtp Hfound Hne Hmax.
  destruct verifyEmail_after_typo_check as (r0 & Hr0 & ->).
  destruct Hr0 as (_ & _ & _ & _ & Herr & _ & _ & _ & Hmeth & _ & _).
  unfold mx_step. rewrite Hmx, Hfound.
  destruct servers as [|mx1 rest]; [done|]. cbn [length Nat.eqb].
  unfold smtp_step. rewrite Hsmtp. cbn [mxRecords set_smtpChecked
    set_steps_mx set_steps set_mxRecords length Nat.ltb Nat.leb andb].
  unfold servers_to_try.
  replace (Z.to_nat (Z.min (maxAttempts options)
                       (Z.of_nat (length (mx1 :: rest))))) with 0 by lia.
  cbn [take smtp_loop]. eexists. split; [done|].
  cbn. rewrite Herr, Hmeth. by split_and!.
Qed.

(** X22: with a negative [timeout], a call that enters the SMTP stage
    with an exchanger to try never settles: it neither returns a result
    nor rejects. *)
Theorem verifyEmail_negative_timeout (servers : list string) :
  checkMX options = true →
  checkSMTP options = true →
  getMXRecords (resolveMx env) domain = Returns servers →
  servers ≠ [] →
  (0 < maxAttempts options)%Z →
  (timeout options < 0)%Z →
  verifyEmail env (JString s) options = Pending.
Proof using All.
  intros Hmx Hsmtp Hfound Hne Hmax Hneg.
  destruct verifyEmail_after_typo_check as (r0 & Hr0 & ->).
  unfold mx_step. rewrite Hmx, Hfound.
  destruct servers as [|mx1 rest]; [done|]. cbn [length Nat.eqb].
  unfold smtp_step. rewrite Hsmtp. cbn [mxRecords set_smtpChecked
    set_steps_mx set_steps set_mxRecords length Nat.ltb Nat.leb andb].
  unfold servers_to_try.
  destruct (Z.to_nat (Z.min (maxAttempts options)
                        (Z.of_nat (length (mx1 :: rest))))) as [|n] eqn:Hn;
    [cbn [length] in Hn; lia|].
  cbn [take smtp_loop]. by rewrite smtpRun_unsettled.
Qed.

End Exchangers.

Lemma verifyEmail_no_exchanger_witness :
  ∃ r, verifyEmail unresolvable_env (JString "user@example.invalid")
         default_options = Returns r
       ∧ subresult r = "dns_lookup_failed"
       ∧ error r
         = Some "DNS lookup failed for example.invalid: queryMx ENOTFOUND example.invalid".
Proof.
  destruct (verifyEmail_no_exchanger unresolvable_env "user@example.invalid"
              default_options "user" "example.invalid")
    as (r & Hr & _ & _ & Hs & He & _).
  - vm_compute. reflexivity.
  - vm_compute. reflexivity.
  - vm_compute. intros sg [=].
  - reflexivity.
  - intros records [=].
  - exists r. by split_and!.
Defined.

Lemma verifyEmail_no_attempts_witness :
  ∃ r, verifyEmail rejecting_env (JString "user@example.com")
         {| checkMX := true; checkSMTP := true; timeout := 2500;
            maxAttempts := 0 |} = Returns r
       ∧ result r = "unknown"
       ∧ subresult r = "connection_error"
       ∧ smtpChecked r = true.
Proof.
  destruct (verifyEmail_no_attempts rejecting_env "user@example.com"
              {| checkMX := true; checkSMTP := true; timeout := 2500;
                 maxAttempts := 0 |} "user" "example.com")
    with (servers := ["mx1.example.com"])
    as (r & Hr & H1 & _ & H2 & H3 & _).
  - vm_compute. reflexivity.
  - vm_compute. reflexivity.
  - vm_compute. intros sg [=].
  - reflexivity.
  - reflexivity.
  - vm_compute. reflexivity.
  - done.
  - vm_compute. intros [=].
  - exists r. by split_and!.
Defined.

Lemma verifyEmail_negative_timeout_witness :
  verifyEmail rejecting_env (JString "user@example.com")
    {| checkMX := true; checkSMTP := true; timeout := -1;
       maxAttempts := 2 |} = Pending.
Proof.
  apply verifyEmail_negative_timeout
    with (localPart := "user") (domain := "example.com")
         (servers := ["mx1.example.com"]).
  - vm_compute. reflexivity.
  - vm_compute. reflexivity.
  - vm_compute. intros sg [=].
  - reflexivity.
  - reflexivity.
  - vm_compute. reflexivity.
  - done.
  - vm_compute. reflexivity.
  - vm_compute. reflexivity.
Defined.

(** ** The vocabulary of results *)

Lemma interpretSMTPCode_cases code :
  reply_code code →
  (code = 0%N ∧ interpretSMTPCode code = "connection_error")
  ∨ (code = 250%N ∧ interpretSMTPCode code = "mailbox_exists")
  ∨ ((450 <= code < 500)%N
     ∧ interpretSMTPCode code ∈ ["greylisted"; "unknown_response"])
  ∨ ((550 <= code < 600)%N
     ∧ interpretSMTPCode code ∈ ["mailbox_does_not_exist"; "unknown_response"])
  ∨ (((400 <= code < 450) ∨ (500 <= code < 550))%N
     ∧ interpretSMTPCode code
       ∈ ["service_unavailable"; "smtp_error"; "unknown_response"]).
Proof.
  intros [->|[->|Hc]]; [by left|right; by left|].
  do 2 right.
  assert ((450 <= code < 500) ∨ (550 <= code < 600)
          ∨ ((400 <= code < 450) ∨ (500 <= code < 550)))%N
    as [R|[R|R]] by lia;
    [left|right; left|right; right]; (split; [done|]);
    unfold interpretSMTPCode; repeat case_match; bool_arith;
    first [ lia | repeat (apply elem_of_cons; first [by left | right]) ].
Qed.

Lemma wired_verdict env i address mxServer tmo p1 p2 p3 v :
  wired env →
  smtpRun env i address mxServer tmo = Raced p1 p2 p3 →
  verifyWithSMTP [p1; p2; p3] = Some v →
  reply_code (Verdict.responseCode v)
  ∧ (Verdict.success v = true ↔ Verdict.responseCode v = 250%N).
Proof.
  intros Hw [Htmo Hrun]%smtpRun_raced_inv Hv.
  specialize (Hw _ _ _ _ _ _ _ Htmo Hrun).
  apply Forall_cons in Hw as [(port1 & ev1 & H1) Hw].
  apply Forall_cons in Hw as [(port2 & ev2 & H2) Hw].
  apply Forall_cons in Hw as [(port3 & ev3 & H3) _].
  apply probe_ok_resolved in H1, H2, H3.
  destruct (race_of_probes port1 port2 port3 p1 p2 p3 H1 H2 H3)
    as (v' & Hv' & Hs & Hc & _).
  rewrite Hv in Hv'. injection Hv' as <-. done.
Qed.

Lemma smtp_loop_wired env address tmo servers i st st' :
  wired env →
  smtpSuccess st = false → loop_invariant st →
  smtp_loop env address tmo i servers st = Returns st' →
  loop_invariant st'.
Proof.
  intros Hw. revert i st.
  induction servers as [|mxServer rest IH]; intros i st Hs Hinv.
  { by intros [= <-]. }
  cbn [smtp_loop].
  destruct (smtpRun env i address mxServer tmo) as [p1 p2 p3|] eqn:Hrun;
    [|done].
  destruct (verifyWithSMTP _) as [v|] eqn:Hv; [|done].
  destruct (wired_verdict _ _ _ _ _ _ _ _ _ Hw Hrun Hv) as [Hc Hiff].
  destruct (Verdict.success v) eqn:Hsv.
  { intros [= <-]. split; cbn; [done|]. split; [intros _|done].
    by apply Hiff. }
  assert (Verdict.responseCode v ≠ 250%N) as Hne.
  { intros H. apply Hiff in H. congruence. }
  destruct (is_definitive _).
  { intros [= <-]. split; cbn; [done|]. by rewrite Hs. }
  apply IH; [done|]. split; cbn; [done|]. by rewrite Hs.
Qed.

Lemma classify_smtp_outcome r st :
  loop_invariant st →
  (result (classify_smtp r st), subresult (classify_smtp r st)) ∈ outcomes.
Proof.
  intros [Hc Hiff].
  destruct (smtpSuccess st) eqn:Hs.
  { destruct Hiff as [Hcode _]. specialize (Hcode eq_refl).
    unfold classify_smtp. rewrite Hs, Hcode. cbn. in_outcomes. }
  assert (lastResponseCode st ≠ 250%N) as Hne.
  { intros H. apply Hiff in H. congruence. }
  unfold classify_smtp. rewrite Hs.
  destruct (loopBlocked st) eqn:Hb.
  { destruct (negb false && _); cbn; in_outcomes. }
  destruct (interpretSMTPCode_cases _ Hc)
    as [[H0 Hi]|[[H0 Hi]|[[H0 Hi]|[[H0 Hi]|[H0 Hi]]]]]; [| done | | |].
  - rewrite H0. destruct (negb false && _); cbn; in_outcomes.
  - destruct ((450 <=? _) && _)%N eqn:H1; [|bool_arith; lia].
    repeat (apply elem_of_cons in Hi as [Hi|Hi]);
      [..|by apply elem_of_nil in Hi];
      destruct (negb false && _); cbn -[interpretSMTPCode]; rewrite Hi;
      in_outcomes.
  - destruct ((450 <=? _) && _)%N eqn:H1; [bool_arith; lia|].
    destruct ((550 <=? _) && _)%N eqn:H2; [|bool_arith; lia].
    repeat (apply elem_of_cons in Hi as [Hi|Hi]);
      [..|by apply elem_of_nil in Hi];
      destruct (negb false && _); cbn -[interpretSMTPCode]; rewrite Hi;
      in_outcomes.
  - destruct ((450 <=? _) && _)%N eqn:H1; [bool_arith; lia|].
    destruct ((550 <=? _) && _)%N eqn:H2; [bool_arith; lia|].
    repeat (apply elem_of_cons in Hi as [Hi|Hi]);
      [..|by apply elem_of_nil in Hi];
      destruct (negb false && _); cbn -[interpretSMTPCode]; rewrite Hi;
      in_outcomes.
Qed.

Lemma smtp_step_outcome env options address r :
  wired env →
  result r = "unknown" → subresult r = "unknown" →
  match smtp_step env options address r with
  | TryReturn r' => (result r', subresult r') ∈ outcomes
  | _ => True
  end.
Proof.
  intros Hw Hr Hs. unfold smtp_step.
  destruct (checkSMTP options && _).
  - destruct (smtp_loop _ _ _ _ _ _) as [st| |] eqn:Hloop; [|done..].
    change (result (stamp env ?x)) with (result x).
    change (subresult (stamp env ?x)) with (subresult x).
    apply classify_smtp_outcome.
    eapply smtp_loop_wired; [done| | |exact Hloop]; [done|].
    split; cbn; [by left|done].
  - destruct (negb _); cbn; [in_outcomes|].
    rewrite Hr, Hs. in_outcomes.
Qed.

Lemma after_typo_check_outcome env options domain address r :
  wired env →
  result r = "unknown" → subresult r = "unknown" →
  match
    match mx_step env options domain r with
    | inl exit => exit
    | inr r' => smtp_step env options address r'
    end
  with
  | TryReturn r' => (result r', subresult r') ∈ outcomes
  | _ => True
  end.
Proof.
  intros Hw Hr Hs. unfold mx_step, getMXRecords.
  destruct (checkMX options); [|by apply smtp_step_outcome].
  destruct (resolveMx env domain) as [records| |msg].
  - destruct (length records =? 0).
    + cbn. in_outcomes.
    + destruct (length (map _ _) =? 0); [cbn; in_outcomes|].
      by apply smtp_step_outcome.
  - cbn. in_outcomes.
  - cbn. in_outcomes.
Qed.

(** X21: when the probes are [tryPort] dialogues, a result [verifyEmail]
    returns pairs [result] and [subresult] in one of sixteen ways: [valid]
    goes with [mailbox_exists], [smtp_blocked_but_mx_valid] or
    [syntax_and_mx_valid] only, and every subresult but
    [unknown_response] determines the result. *)
Theorem verifyEmail_outcomes env input options r :
  wired env →
  verifyEmail env input options = Returns r →
  (result r, subresult r) ∈ outcomes.
Proof.
  intros Hw. unfold verifyEmail.
  destruct (optional_trim input) as [trimmed|msg|]; [|done..].
  unfold verify_try.
  destruct (validateEmailSyntax input) as [|msg] eqn:Hv.
  2:{ intros [= <-]. cbn. in_outcomes. }
  apply validate_Valid_inv in Hv as (s & -> & Hcount).
  destruct (split_email_one _ Hcount) as (lp & dom & -> & _).
  destruct (match suggestCorrection _ with Some _ => _ | None => _ end).
  { intros [= <-]. cbn. in_outcomes. }
  match goal with
  | |- context [mx_step env options dom ?r0] =>
      pose proof (after_typo_check_outcome env options dom (Str.trim s) r0
                    Hw eq_refl eq_refl) as Hexit
  end.
  destruct (match mx_step _ _ _ _ with inl _ => _ | inr _ => _ end);
    intros [= <-]; [done|].
  cbn. in_outcomes.
Qed.

Lemma verifyEmail_outcomes_witness :
  ∃ r, verifyEmail probing_env (JString "user@example.com") default_options
       = Returns r
       ∧ (result r, subresult r) ∈ outcomes.
Proof.
  assert (wired probing_env) as Hw.
  { intros i address mxServer tmo p1 p2 p3 Htmo. unfold probing_env.
    cbn [probes].
    assert (Forall (λ p, ∃ port events,
                      tryPort address mxServer port tmo events = Resolved p)
              [timeout_on 25; timeout_on 587; timeout_on 465]) as Hsilent.
    { repeat constructor;
        [exists 25%N|exists 587%N|exists 465%N]; exists [OnTimer];
        unfold tryPort; destruct (Z.ltb_spec tmo 0); try lia; reflexivity. }
    destruct (tryPort address mxServer 25 tmo _) as [q1| |] eqn:E1;
      [|intros [= <- <- <-]; exact Hsilent..].
    destruct (tryPort address mxServer 587 tmo _) as [q2| |] eqn:E2;
      [|intros [= <- <- <-]; exact Hsilent..].
    destruct (tryPort address mxServer 465 tmo _) as [q3| |] eqn:E3;
      [|intros [= <- <- <-]; exact Hsilent..].
    intros [= <- <- <-].
    repeat (apply Forall_cons; split); try apply Forall_nil; eauto. }
  eexists. split; [vm_compute; reflexivity|].
  apply (verifyEmail_outcomes probing_env (JString "user@example.com")
           default_options _ Hw).
  vm_compute. reflexivity.
Defined.
